(** * chronicle-slides: the shared slide store, the share-link policy,
      the auto-follow effect and the Y.Text binding of [useYText]

    A shallow embedding of the TypeScript sources.  JavaScript strings are
    sequences of code units; they are embedded as [string], one [ascii] per
    code unit.  JavaScript numbers that the embedded functions only carry or
    compare with zero (coordinates, timestamps) and the integer indices of
    the diff loops are embedded as [Z]. *)

From Stdlib Require Import ZArith Ascii String List Bool Lia.
From stdpp Require Import base option list functions gmap sets strings.
From Equations Require Import Equations.

Local Open Scope Z_scope.

(** ** Record shapes ([types/slide.types.ts]) *)

Module TextBox.
Record t := mk {
  id : string;
  text : string;
  x : Z;
  y : Z;
  width : Z;
  height : Z;
  fontSize : Z;
  color : string;
  createdBy : string;
  createdAt : Z
}.

(** [Partial<TextBox>]: every field may be left out. *)
Record partial := mkPartial {
  p_id : option string;
  p_text : option string;
  p_x : option Z;
  p_y : option Z;
  p_width : option Z;
  p_height : option Z;
  p_fontSize : option Z;
  p_color : option string;
  p_createdBy : option string;
  p_createdAt : option Z
}.

(** [{ ...textBox, ...updates }] *)
Definition spread (textBox : t) (updates : partial) : t :=
  {| id := default (id textBox) (p_id updates);
     text := default (text textBox) (p_text updates);
     x := default (x textBox) (p_x updates);
     y := default (y textBox) (p_y updates);
     width := default (width textBox) (p_width updates);
     height := default (height textBox) (p_height updates);
     fontSize := default (fontSize textBox) (p_fontSize updates);
     color := default (color textBox) (p_color updates);
     createdBy := default (createdBy textBox) (p_createdBy updates);
     createdAt := default (createdAt textBox) (p_createdAt updates) |}.
End TextBox.

Module Slide.
(** A value found under [textBoxes] that is not an array (the mutations
    take their slides as [any] and test [Array.isArray]). *)
Inductive legacy :=
| LegacyUndefined
| LegacyNull
| LegacyOther (json : string).

Inductive textBoxesField :=
| TbArray (boxes : list TextBox.t)
| TbNotArray (v : legacy).

(** A stored slide.  [backgroundColor] and [createdAt] may be missing on
    a record of the old format; [otherProps] holds whatever further
    properties such a record carries. *)
Record t := mk {
  id : string;
  textBoxes : textBoxesField;
  backgroundColor : option string;
  createdAt : option Z;
  otherProps : list (string * string)
}.

(** [Array.isArray(slide.textBoxes)] *)
Definition isArray (f : textBoxesField) : bool :=
  match f with TbArray _ => true | TbNotArray _ => false end.

(** [Array.isArray(slide.textBoxes) ? slide.textBoxes : []] *)
Definition existingTextBoxes (slide : t) : list TextBox.t :=
  match textBoxes slide with TbArray boxes => boxes | TbNotArray _ => [] end.
End Slide.

(** ** JavaScript helpers *)

Module JS.
(** [a || b] on an optional string: [undefined] and [""] are falsy. *)
Definition or_string (a : option string) (b : string) : string :=
  match a with
  | Some s => if decide (s = "") then b else s
  | None => b
  end.

(** [a || b] on an optional number: [undefined] and [0] are falsy. *)
Definition or_number (a : option Z) (b : Z) : Z :=
  match a with
  | Some n => if decide (n = 0) then b else n
  | None => b
  end.

(** [s.length] *)
Definition length (s : string) : Z := Z.of_nat (String.length s).

(** [s[i]]: the code unit at [i], [undefined] out of range. *)
Definition index (s : string) (i : Z) : option ascii :=
  if decide (0 ≤ i) then String.get (Z.to_nat i) s else None.

(** [s.slice(start, end)]: a negative bound counts from the end, both
    bounds are clamped to the string, an empty range gives [""]. *)
Definition slice (s : string) (start end_ : Z) : string :=
  let len := length s in
  let from :=
    if decide (start < 0) then Z.max (len + start) 0 else Z.min start len in
  let to :=
    if decide (end_ < 0) then Z.max (len + end_) 0 else Z.min end_ len in
  String.substring (Z.to_nat from) (Z.to_nat (to - from)) s.
End JS.

(** ** Constants ([constants/app.constants.ts]) *)

Module SLIDE_DEFAULTS.
Definition BACKGROUND_COLOR : string := "white".
End SLIDE_DEFAULTS.

Module TEXT_BOX_DEFAULTS.
Definition WIDTH : Z := 200.
Definition HEIGHT : Z := 100.
Definition FONT_SIZE : Z := 16.
Definition COLOR : string := "gray.900".
End TEXT_BOX_DEFAULTS.

(** ** The Liveblocks storage root

    [storage.get('slides')] reads [slides]; [storage.set('slides', v)]
    replaces it and is counted in [writes]. *)

Module Storage.
Record t := mk { slides : list Slide.t; writes : nat }.

Definition get_slides (storage : t) : list Slide.t := slides storage.

Definition set_slides (v : list Slide.t) (storage : t) : t :=
  {| slides := v; writes := S (writes storage) |}.
End Storage.

(** ** [useSlideManagement] *)

Module SlideManagement.
(** [addSlide].  [stamp] and [suffix] are the texts of [Date.now()] and of
    [Math.random().toString(36).substr(2, 9)] in the id template; [now] is
    what the second [Date.now()] returns.  The result is the returned id
    and the new store. *)
Definition addSlide (stamp suffix : string) (now : Z) (storage : Storage.t)
    : string * Storage.t :=
  let currentSlides := Storage.get_slides storage in
  let newSlide :=
    {| Slide.id := "slide-" +:+ stamp +:+ "-" +:+ suffix;
       Slide.textBoxes := Slide.TbArray [];
       Slide.backgroundColor := Some SLIDE_DEFAULTS.BACKGROUND_COLOR;
       Slide.createdAt := Some now;
       Slide.otherProps := [] |} in
  (Slide.id newSlide, Storage.set_slides (currentSlides ++ [newSlide]) storage).

(** [deleteSlide]: filter on [slide.id !== slideId], then store. *)
Definition deleteSlide (slideId : string) (storage : Storage.t) : Storage.t :=
  let currentSlides := Storage.get_slides storage in
  let filteredSlides :=
    filter (λ slide, Slide.id slide ≠ slideId) currentSlides in
  Storage.set_slides filteredSlides storage.

(** [currentSlides.map(...)] in [migrateSlides], from index [i] on.  The
    callback sets the flag [needsMigration] on each slide whose
    [textBoxes] is not an array; the flag is threaded through the map.
    [clock i] is what [Date.now()] returns if it is called while the
    slide at index [i] is mapped. *)
Fixpoint mapMigrate (clock : nat → Z) (i : nat) (needsMigration : bool)
    (currentSlides : list Slide.t) : bool * list Slide.t :=
  match currentSlides with
  | [] => (needsMigration, [])
  | slide :: rest =>
      if negb (Slide.isArray (Slide.textBoxes slide)) then
        let migrated :=
          {| Slide.id := Slide.id slide;
             Slide.textBoxes := Slide.TbArray [];
             Slide.backgroundColor :=
               Some (JS.or_string (Slide.backgroundColor slide)
                                  SLIDE_DEFAULTS.BACKGROUND_COLOR);
             Slide.createdAt :=
               Some (JS.or_number (Slide.createdAt slide) (clock i));
             Slide.otherProps := [] |} in
        let '(flag, out) := mapMigrate clock (S i) true rest in
        (flag, migrated :: out)
      else
        let '(flag, out) := mapMigrate clock (S i) needsMigration rest in
        (flag, slide :: out)
  end.

Definition migrateSlides (clock : nat → Z) (storage : Storage.t) : Storage.t :=
  let currentSlides := Storage.get_slides storage in
  let '(needsMigration, migratedSlides) :=
    mapMigrate clock 0 false currentSlides in
  if needsMigration
  then Storage.set_slides migratedSlides storage
  else storage.
End SlideManagement.

(** ** [useTextBoxManagement] *)

Module TextBoxManagement.
(** The callback of [currentSlides.map] in [addTextBoxMutation].  [userId]
    is [self?.id || 'anonymous']; [position] is the pair of coordinates the
    two [Math.random()] expressions give and [now] what [Date.now()]
    returns, when they are evaluated for this slide. *)
Definition addToSlide (userId slideId providedId initialText : string)
    (position : Z * Z) (now : Z) (slide : Slide.t) : Slide.t :=
  if decide (Slide.id slide = slideId) then
    let newTextBox :=
      {| TextBox.id := providedId;
         TextBox.text := initialText;
         TextBox.x := position.1;
         TextBox.y := position.2;
         TextBox.width := TEXT_BOX_DEFAULTS.WIDTH;
         TextBox.height := TEXT_BOX_DEFAULTS.HEIGHT;
         TextBox.fontSize := TEXT_BOX_DEFAULTS.FONT_SIZE;
         TextBox.color := TEXT_BOX_DEFAULTS.COLOR;
         TextBox.createdBy := userId;
         TextBox.createdAt := now |} in
    let existingTextBoxes := Slide.existingTextBoxes slide in
    {| Slide.id := Slide.id slide;
       Slide.textBoxes := Slide.TbArray (existingTextBoxes ++ [newTextBox]);
       Slide.backgroundColor :=
         Some (JS.or_string (Slide.backgroundColor slide) "white");
       Slide.createdAt := Slide.createdAt slide;
       Slide.otherProps := Slide.otherProps slide |}
  else slide.

(** [addTextBoxMutation]; [positions i] and [clock i] are the random
    position and the time for the slide at index [i]. *)
Definition addTextBoxMutation (userId : string) (positions : nat → Z * Z)
    (clock : nat → Z) (slideId providedId initialText : string)
    (storage : Storage.t) : Storage.t :=
  let currentSlides := Storage.get_slides storage in
  let updatedSlides :=
    imap (λ i slide,
            addToSlide userId slideId providedId initialText
              (positions i) (clock i) slide)
         currentSlides in
  Storage.set_slides updatedSlides storage.

(** The callback of [currentSlides.map] in [updateTextBoxMutation]. *)
Definition updateSlide (slideId textBoxId : string)
    (updates : TextBox.partial) (slide : Slide.t) : Slide.t :=
  if decide (Slide.id slide = slideId) then
    let existingTextBoxes := Slide.existingTextBoxes slide in
    {| Slide.id := Slide.id slide;
       Slide.textBoxes :=
         Slide.TbArray
           ((λ textBox,
               if decide (TextBox.id textBox = textBoxId)
               then TextBox.spread textBox updates
               else textBox) <$> existingTextBoxes);
       Slide.backgroundColor := Slide.backgroundColor slide;
       Slide.createdAt := Slide.createdAt slide;
       Slide.otherProps := Slide.otherProps slide |}
  else slide.

Definition updateTextBoxMutation (slideId textBoxId : string)
    (updates : TextBox.partial) (storage : Storage.t) : Storage.t :=
  let currentSlides := Storage.get_slides storage in
  let updatedSlides :=
    map (updateSlide slideId textBoxId updates) currentSlides in
  Storage.set_slides updatedSlides storage.
End TextBoxManagement.

(** ** [useShareMode] *)

Module URL_PARAMS.
Definition SHARED_SLIDES : string := "shared".
Definition CAN_EDIT : string := "edit".
End URL_PARAMS.

Module URLSearchParams.
(** The parsed query string: name/value pairs in order. *)
Definition t := list (string * string).

(** [search.get(name)]: the first value under [name], or [null]. *)
Fixpoint get (name : string) (search : t) : option string :=
  match search with
  | [] => None
  | (k, v) :: rest => if decide (k = name) then Some v else get name rest
  end.

(** [search.delete(name)]: every pair under [name] is removed. *)
Definition delete (name : string) (search : t) : t :=
  filter (λ pair : string * string, pair.1 ≠ name)
         (search : list (string * string)).

(** [search.set(name, value)]: the first pair under [name] gets the value
    and the further pairs under [name] are removed; when there is none, a
    pair is appended. *)
Fixpoint set (name value : string) (search : t) : t :=
  match search with
  | [] => [(name, value)]
  | (k, v) :: rest =>
      if decide (k = name) then (name, value) :: delete name rest
      else (k, v) :: set name value rest
  end.
End URLSearchParams.

Module ShareMode.
(** [s.split(sep)] for a one-character separator. *)
Fixpoint split (sep : ascii) (s : string) : list string :=
  match s with
  | EmptyString => [EmptyString]
  | String c rest =>
      if decide (c = sep) then EmptyString :: split sep rest
      else match split sep rest with
           | piece :: pieces => String c piece :: pieces
           | [] => [String c EmptyString]
           end
  end.

Record UseShareModeResult := mkResult {
  readOnly : bool;
  visibleSlides : list Slide.t;
  allowedSlideIds : option (gset string);
  isSharedMode : bool
}.

(** The first [useMemo]: the token read from the query string. *)
Definition parseToken (search : URLSearchParams.t)
    : option (gset string) * bool :=
  let sharedParam := URLSearchParams.get URL_PARAMS.SHARED_SLIDES search in
  let editParam := URLSearchParams.get URL_PARAMS.CAN_EDIT search in
  match sharedParam with
  | None => (None, false)
  | Some sharedParam =>
      if decide (sharedParam = "") then (None, false)
      else
        let ids := filter (λ piece, piece ≠ "") (split "," sharedParam) in
        let canEditValue := bool_decide (editParam = Some "true") in
        (Some (list_to_set ids), canEditValue)
  end.

Definition useShareMode (slides : option (list Slide.t))
    (search : URLSearchParams.t) : UseShareModeResult :=
  let '(allowedSlideIds, canEdit) := parseToken search in
  let isSharedMode :=
    match allowedSlideIds with Some _ => true | None => false end in
  let readOnly := isSharedMode && negb canEdit in
  let visibleSlides :=
    match slides with
    | None => []
    | Some slides =>
        match allowedSlideIds with
        | None => slides
        | Some allowed => filter (λ slide, Slide.id slide ∈ allowed) slides
        end
    end in
  {| readOnly := readOnly;
     visibleSlides := visibleSlides;
     allowedSlideIds := allowedSlideIds;
     isSharedMode := isSharedMode |}.
End ShareMode.

(** ** [ShareDialog] *)

Module ShareDialog.
(** The three [useState] cells of the dialog. *)
Record state := mkState {
  open : bool;
  selectedIds : list string;
  canEdit : bool
}.



(** The click handler of the checkbox of the slide [slideId]. *)
Definition toggle (slideId : string) (st : state) : state :=
  let isChecked := bool_decide (slideId ∈ selectedIds st) in
  {| open := open st;
     selectedIds :=
       if isChecked then filter (λ id, id ≠ slideId) (selectedIds st)
       else selectedIds st ++ [slideId];
     canEdit := canEdit st |}.

(** The click handler of the permission checkbox. *)
Definition toggleCanEdit (st : state) : state :=
  {| open := open st; selectedIds := selectedIds st;
     canEdit := negb (canEdit st) |}.

(** The query string of [shareUrl], as the [URLSearchParams] object the
    memo builds from the parameters of the current location. *)
Definition shareParams (current : URLSearchParams.t) (st : state)
    : URLSearchParams.t :=
  if (0 <? length (selectedIds st))%nat then
    URLSearchParams.set "edit" (if canEdit st then "true" else "false")
      (URLSearchParams.set "shared" (String.concat "," (selectedIds st))
         current)
  else
    URLSearchParams.delete "edit" (URLSearchParams.delete "shared" current).
End ShareDialog.

(** ** Presence and the auto-follow effect of [SlideList] *)

Module Presence.
Record t := mk {
  currentSlideId : option string;
  editingTextBoxId : option string;
  cursor : option (Z * Z);
  userName : string;
  userColor : string
}.
End Presence.

Module SlideList.
(** An entry of [useOthers()]; its [presence] may be undefined. *)
Record other := mkOther { presence : option Presence.t }.

(** What the effect reads and writes besides its arguments: the ref
    [prevSlideCountRef], the local presence, and the slide whose
    thumbnail it asked to scroll to. *)
Record state := mkState {
  prevSlideCountRef : nat;
  myPresence : Presence.t;
  scrollTo : option string
}.

(** [updateMyPresence({ currentSlideId: id, editingTextBoxId: null })] *)
Definition switchTo (id : string) (p : Presence.t) : Presence.t :=
  {| Presence.currentSlideId := Some id;
     Presence.editingTextBoxId := None;
     Presence.cursor := Presence.cursor p;
     Presence.userName := Presence.userName p;
     Presence.userColor := Presence.userColor p |}.

(** [others.some(other => other.presence?.currentSlideId === id)] *)
Definition someoneElseOn (id : string) (others : list other) : bool :=
  existsb (λ o,
             match presence o with
             | Some p => bool_decide (Presence.currentSlideId p = Some id)
             | None => false
             end) others.

(** One run of the effect. *)
Definition autoFollowEffect (slides : option (list Slide.t))
    (others : list other) (st : state) : state :=
  match slides with
  | None => st
  | Some slides =>
      let currentSlideCount := length slides in
      let prevSlideCount := prevSlideCountRef st in
      let st1 :=
        if (prevSlideCount <? currentSlideCount)%nat && (0 <? prevSlideCount)%nat
        then
          match slides !! (currentSlideCount - 1)%nat with
          | Some newSlide =>
              let someoneElseAddedIt :=
                someoneElseOn (Slide.id newSlide) others in
              if someoneElseAddedIt
                 && negb (bool_decide
                            (Presence.currentSlideId (myPresence st)
                             = Some (Slide.id newSlide)))
              then
                {| prevSlideCountRef := prevSlideCountRef st;
                   myPresence := switchTo (Slide.id newSlide) (myPresence st);
                   scrollTo := Some (Slide.id newSlide) |}
              else st
          | None => st
          end
        else st in
      {| prevSlideCountRef := currentSlideCount;
         myPresence := myPresence st1;
         scrollTo := scrollTo st1 |}
  end.

(** [slides.find((s) => s.id === myPresence.currentSlideId)] *)
Definition activeSlide (slides : list Slide.t) (myPresence : Presence.t)
    : option Slide.t :=
  List.find (λ s, bool_decide (Presence.currentSlideId myPresence
                               = Some (Slide.id s))) slides.

(** The slide the main area hands to [SlideCanvas], if any:
    [activeSlide && (!readOnly || (allowedSlideIds &&
    allowedSlideIds.has(activeSlide.id)))]. *)
Definition canvasSlide (share : ShareMode.UseShareModeResult)
    (slides : list Slide.t) (myPresence : Presence.t) : option Slide.t :=
  match activeSlide slides myPresence with
  | Some active =>
      if negb (ShareMode.readOnly share)
         || match ShareMode.allowedSlideIds share with
            | Some allowed => bool_decide (Slide.id active ∈ allowed)
            | None => false
            end
      then Some active
      else None
  | None => None
  end.

(** The data-migration effect: [slides] is the loaded slide list, or
    [null] while the storage loads. *)
Definition migrationEffect (clock : nat → Z) (slides : option (list Slide.t))
    (storage : Storage.t) : Storage.t :=
  match slides with
  | None => storage
  | Some slides =>
      if (0 <? length slides)%nat then
        let needsMigration :=
          existsb (λ slide, negb (Slide.isArray (Slide.textBoxes slide)))
                  slides in
        if needsMigration then SlideManagement.migrateSlides clock storage
        else storage
      else storage
  end.
End SlideList.

(** ** [useYText]: the diff of [setValue]

    [setValue] computes one contiguous edit between the text of the bound
    [Y.Text] and the new value and applies it as at most one delete and one
    insert. *)

Definition inspect {A : Type} (a : A) : { b : A | a = b } := exist _ a eq_refl.

Module Diff.
(** Guard of the first [while]. *)
Definition prefixCond (prev next : string) (prefixLen : Z) : bool :=
  bool_decide (prefixLen < JS.length prev)
  && bool_decide (prefixLen < JS.length next)
  && bool_decide (JS.index prev prefixLen = JS.index next prefixLen).

(** [while (...) prefixLen++], entered with the given [prefixLen]. *)
Equations? prefixLoop (prev next : string) (prefixLen : Z) : Z
  by wf (Z.to_nat (JS.length prev - prefixLen)) lt :=
  prefixLoop prev next prefixLen
    with inspect (prefixCond prev next prefixLen) => {
    | exist _ true Hc => prefixLoop prev next (prefixLen + 1);
    | exist _ false _ => prefixLen }.
Proof.
  unfold prefixCond in Hc.
  apply andb_true_iff in Hc as [Hc _]. apply andb_true_iff in Hc as [Hc _].
  apply bool_decide_eq_true in Hc. lia.
Qed.

(** Guard of the second [while]. *)
Definition suffixCond (prev next : string) (prefixLen suffixLen : Z) : bool :=
  bool_decide (suffixLen < JS.length prev - prefixLen)
  && bool_decide (suffixLen < JS.length next - prefixLen)
  && bool_decide (JS.index prev (JS.length prev - 1 - suffixLen)
                  = JS.index next (JS.length next - 1 - suffixLen)).

(** [while (...) suffixLen++], entered with the given [suffixLen]. *)
Equations? suffixLoop (prev next : string) (prefixLen suffixLen : Z) : Z
  by wf (Z.to_nat (JS.length prev - prefixLen - suffixLen)) lt :=
  suffixLoop prev next prefixLen suffixLen
    with inspect (suffixCond prev next prefixLen suffixLen) => {
    | exist _ true Hc => suffixLoop prev next prefixLen (suffixLen + 1);
    | exist _ false _ => suffixLen }.
Proof.
  unfold suffixCond in Hc.
  apply andb_true_iff in Hc as [Hc _]. apply andb_true_iff in Hc as [Hc _].
  apply bool_decide_eq_true in Hc. lia.
Qed.

(** The locals of the transaction body of [setValue]. *)
Record t := mk {
  prefixLen : Z;
  suffixLen : Z;
  deleteLen : Z;
  insertText : string
}.

Definition diff (prev next : string) : t :=
  let prefixLen := prefixLoop prev next 0 in
  let suffixLen := suffixLoop prev next prefixLen 0 in
  let deleteLen := JS.length prev - prefixLen - suffixLen in
  let insertText := JS.slice next prefixLen (JS.length next - suffixLen) in
  {| prefixLen := prefixLen;
     suffixLen := suffixLen;
     deleteLen := deleteLen;
     insertText := insertText |}.
End Diff.

(** ** [useYText]: the shared document and the hook instance

    [Y.Text] objects are shared and compared by identity ([latest !== yText]),
    so they live in a store addressed by reference; [doc.getMap('textboxes')]
    maps text-box ids to references.  A closure is embedded as a function
    that takes what it closed over as explicit arguments. *)

Module Y.
(** Identity of a [Y.Text] object. *)
Definition ref := nat.

(** Identity of a transaction origin (the hook's [Symbol('user-origin')],
    or whatever another writer passes to [doc.transact]). *)
Definition origin := nat.

(** The two calls [setValue] makes on a [Y.Text]. *)
Inductive op :=
| Delete (index len : Z)
| Insert (index : Z) (text : string).

(** [yText.delete(index, len)] and [yText.insert(index, text)] on the
    materialized string. *)
Definition apply_op (o : op) (content : string) : string :=
  match o with
  | Delete index len =>
      String.substring 0 (Z.to_nat index) content
      +:+ String.substring (Z.to_nat (index + len))
                           (String.length content) content
  | Insert index text =>
      String.substring 0 (Z.to_nat index) content
      +:+ text
      +:+ String.substring (Z.to_nat index) (String.length content) content
  end.

Definition apply_ops (ops : list op) (content : string) : string :=
  foldl (λ c o, apply_op o c) content ops.

Inductive change :=
| TextChange (target : ref) (ops : list op)
| MapSet (key : string) (value : ref).

Record transaction := mkTx { tx_origin : origin; tx_change : change }.

(** A [Y.Text]: its string and the attached observers of the hook, each
    named by the [yText] its closure captured. *)
Record text := mkText { content : string; observers : list ref }.

(** [new Y.UndoManager(yText, { trackedOrigins: new Set([origin]) })] *)
Record undoManager := mkUndo { scope : ref; trackedOrigins : gset origin }.

(** The state of one [useYText(key)] instance.  [mounted] is the [yText]
    the effects of the last commit closed over ([None] before the first
    commit). *)
Record hook := mkHook {
  key : string;
  originRef : origin;
  yText : ref;
  value : string;
  mounted : option ref;
  undoManagerRef : option undoManager
}.

(** The document together with the hook instance that observes it. *)
Record world := mkWorld {
  store : ref → text;
  textboxes : gmap string ref;
  mapObservers : list (string * ref);
  transactions : list transaction;
  hk : hook
}.

(** *** Updates of single components *)

Definition with_hook (f : hook → hook) (w : world) : world :=
  {| store := store w; textboxes := textboxes w;
     mapObservers := mapObservers w; transactions := transactions w;
     hk := f (hk w) |}.

Definition with_text (r : ref) (f : text → text) (w : world) : world :=
  {| store := <[r := f (store w r)]> (store w);
     textboxes := textboxes w; mapObservers := mapObservers w;
     transactions := transactions w; hk := hk w |}.

Definition with_mapObservers (f : list (string * ref) → list (string * ref))
    (w : world) : world :=
  {| store := store w; textboxes := textboxes w;
     mapObservers := f (mapObservers w); transactions := transactions w;
     hk := hk w |}.

Definition record (tx : transaction) (w : world) : world :=
  {| store := store w; textboxes := textboxes w;
     mapObservers := mapObservers w;
     transactions := transactions w ++ [tx]; hk := hk w |}.

(** [setValueState(v)] and [setYText(t)] *)
Definition setValueState (v : string) (h : hook) : hook :=
  {| key := key h; originRef := originRef h; yText := yText h; value := v;
     mounted := mounted h; undoManagerRef := undoManagerRef h |}.

Definition setYText (t : ref) (h : hook) : hook :=
  {| key := key h; originRef := originRef h; yText := t; value := value h;
     mounted := mounted h; undoManagerRef := undoManagerRef h |}.

(** [yText.toString()] *)
Definition toString (r : ref) (w : world) : string := content (store w r).

(** *** Observers *)

(** The closure [observer] of the first effect: [setValueState(yText.toString())]. *)
Definition observer (captured : ref) (w : world) : world :=
  with_hook (setValueState (toString captured w)) w.

(** The observers of a [Y.Text] run after a transaction that changed it. *)
Definition notify (target : ref) (w : world) : world :=
  foldl (λ w captured, observer captured w) w (observers (store w target)).

(** [doc.transact(() => { ...ops on target... }, origin)] *)
Definition transact (o : origin) (target : ref) (ops : list op)
    (w : world) : world :=
  let w1 :=
    with_text target
      (λ t, {| content := apply_ops ops (content t);
               observers := observers t |}) w in
  let w2 := record {| tx_origin := o; tx_change := TextChange target ops |} w1 in
  match ops with
  | [] => w2
  | _ :: _ => notify target w2
  end.

(** *** [setValue] *)

(** The calls made inside the transaction of [setValue]. *)
Definition diffOps (prev next : string) : list op :=
  let d := Diff.diff prev next in
  (if decide (0 < Diff.deleteLen d)
   then [Delete (Diff.prefixLen d) (Diff.deleteLen d)] else [])
  ++
  (if decide (0 < JS.length (Diff.insertText d))
   then [Insert (Diff.prefixLen d) (Diff.insertText d)] else []).

(** [setValue], closed over [origin] and [yText]. *)
Definition setValue (origin : origin) (yText : ref) (next : string)
    (w : world) : world :=
  let prev := toString yText w in
  if decide (prev = next) then w
  else transact origin yText (diffOps prev next) w.

(** *** The map observer and the effects *)

(** [onMapChange], closed over [key] and [yText]. *)
Definition onMapChange (key : string) (yText : ref) (keysChanged : gset string)
    (w : world) : world :=
  if decide (key ∈ keysChanged) then
    match textboxes w !! key with
    | Some latest =>
        if decide (latest ≠ yText)
        then with_hook (setValueState (toString latest w))
               (with_hook (setYText latest) w)
        else w
    | None => w
    end
  else w.

(** A transaction that runs [map.set(key, value)]: the entry is replaced
    and the attached map observers run with [keysChanged = {key}]. *)
Definition mapSet (o : origin) (k : string) (v : ref) (w : world) : world :=
  let w1 :=
    {| store := store w;
       textboxes := <[k := v]> (textboxes w);
       mapObservers := mapObservers w;
       transactions :=
         transactions w ++ [{| tx_origin := o; tx_change := MapSet k v |}];
       hk := hk w |} in
  foldl (λ w '(key, captured), onMapChange key captured {[k]} w)
        w1 (mapObservers w1).

(** Cleanup of the three effects that closed over [old]. *)
Definition cleanupEffects (old : ref) (w : world) : world :=
  let k := key (hk w) in
  let w1 :=
    with_text old
      (λ t, {| content := content t;
               observers := filter (λ c, c ≠ old) (observers t) |}) w in
  let w2 := with_mapObservers (filter (λ e, e ≠ (k, old))) w1 in
  with_hook (λ h, {| key := key h; originRef := originRef h; yText := yText h;
                     value := value h; mounted := None;
                     undoManagerRef := None |}) w2.

(** The three effects, run for the current [yText]. *)
Definition runEffects (w : world) : world :=
  let k := key (hk w) in
  let current := yText (hk w) in
  let w1 :=
    with_text current
      (λ t, {| content := content t;
               observers := observers t ++ [current] |}) w in
  let w2 := with_mapObservers (λ l, l ++ [(k, current)]) w1 in
  with_hook (λ h, {| key := key h; originRef := originRef h; yText := yText h;
                     value := value h; mounted := Some current;
                     undoManagerRef :=
                       Some {| scope := current;
                               trackedOrigins := {[ originRef h ]} |} |}) w2.

(** What React does after a render: effects whose dependency [yText]
    changed are cleaned up and run again; on the first commit they run. *)
Definition commitEffects (w : world) : world :=
  match mounted (hk w) with
  | None => runEffects w
  | Some old =>
      if decide (old = yText (hk w)) then w
      else runEffects (cleanupEffects old w)
  end.

(** What React does when the component goes away: the cleanups of the
    mounted effects run. *)
Definition unmount (w : world) : world :=
  match mounted (hk w) with
  | None => w
  | Some old => cleanupEffects old w
  end.

(** The initializers of the [useState] cells of a hook for [key] with its
    [origin]: the [Y.Text] under the key is taken, and created first when
    there is none.  [created] is the identity of the object [new Y.Text()]
    gives if it is called.  The hook cells of [w] are overwritten. *)
Definition useYText_init (key : string) (origin : origin) (created : ref)
    (w : world) : world :=
  let w1 :=
    match textboxes w !! key with
    | Some _ => w
    | None =>
        mapSet origin key created
          (with_text created (λ _, {| content := ""; observers := [] |}) w)
    end in
  let text := default created (textboxes w1 !! key) in
  with_hook (λ _, {| key := key; originRef := origin; yText := text;
                     value := toString text w1; mounted := None;
                     undoManagerRef := None |}) w1.
End Y.

(** ** [useTextBoxSync] *)

Module TextBoxSync.
(** One run of the effect.  [seededRef] is the ref of the hook,
    [collaborativeText] the [value] of the text hook, and
    [setCollaborativeText] its [setValue], closed over [origin] and
    [yText].  The result is the ref after the run and the document. *)
Definition effect (origin : Y.origin) (yText : Y.ref) (textBox : TextBox.t)
    (seededRef : bool) (w : Y.world) : bool * Y.world :=
  let collaborativeText := Y.value (Y.hk w) in
  if seededRef then (seededRef, w)
  else if bool_decide (TextBox.text textBox ≠ "")
          && bool_decide (0 < JS.length (TextBox.text textBox))
          && (bool_decide (collaborativeText = "")
              || bool_decide (JS.length collaborativeText = 0))
       then (true, Y.setValue origin yText (TextBox.text textBox) w)
       else (seededRef, w).
End TextBoxSync.

(** ** [SlideCanvas] and the [TextBox] component: the event handlers *)

Module SlideCanvas.
(** The [isEditing] prop handed to the [TextBox] of [textBox]:
    [!readOnly && myPresence.editingTextBoxId === textBox.id]. *)
Definition isEditing (readOnly : bool) (p : Presence.t) (textBox : TextBox.t)
    : bool :=
  negb readOnly
  && bool_decide (Presence.editingTextBoxId p = Some (TextBox.id textBox)).
End SlideCanvas.

Module TextBoxComponent.
(** The props the handlers read. *)
Record props := mkProps {
  textBox : TextBox.t;
  isEditing : bool;
  readOnly : bool
}.

(** The drag state of the component. *)
Record state := mkState { isDragging : bool; dragOffset : Z * Z }.

(** The calls a handler makes on the callbacks it was given. *)
Inductive call :=
| OnUpdate (id : string) (updates : TextBox.partial)
| OnStartEditing (id : string)
| OnStopEditing.

(** What reaches the component: the mouse events on the box and on the
    window, and the blur of the text area with the text of the hook. *)
Inductive event :=
| MouseDown (clientX clientY : Z) (onTextarea : bool)
| MouseMove (clientX clientY : Z)
| MouseUp
| DoubleClick
| Blur (collaborativeText : string).

(** [{ x: newX, y: newY }] and [{ text: collaborativeText }] *)
Definition positionPatch (newX newY : Z) : TextBox.partial :=
  {| TextBox.p_id := None; TextBox.p_text := None;
     TextBox.p_x := Some newX; TextBox.p_y := Some newY;
     TextBox.p_width := None; TextBox.p_height := None;
     TextBox.p_fontSize := None; TextBox.p_color := None;
     TextBox.p_createdBy := None; TextBox.p_createdAt := None |}.

Definition textPatch (text : string) : TextBox.partial :=
  {| TextBox.p_id := None; TextBox.p_text := Some text;
     TextBox.p_x := None; TextBox.p_y := None;
     TextBox.p_width := None; TextBox.p_height := None;
     TextBox.p_fontSize := None; TextBox.p_color := None;
     TextBox.p_createdBy := None; TextBox.p_createdAt := None |}.

Section handlers.
(** The subtraction of JavaScript numbers, left open: the coordinates are
    not integers in general. *)
Variable minus : Z → Z → Z.

Definition handleMouseDown (pr : props) (clientX clientY : Z)
    (onTextarea : bool) (st : state) : state :=
  if readOnly pr then st
  else if isEditing pr && onTextarea then st
  else {| isDragging := true;
          dragOffset := (minus clientX (TextBox.x (textBox pr)),
                         minus clientY (TextBox.y (textBox pr))) |}.

Definition handleMouseMove (pr : props) (clientX clientY : Z) (st : state)
    : list call :=
  if negb (isDragging st) then []
  else
    let newX := minus clientX (dragOffset st).1 in
    let newY := minus clientY (dragOffset st).2 in
    [OnUpdate (TextBox.id (textBox pr)) (positionPatch newX newY)].

Definition handleMouseUp (st : state) : state :=
  {| isDragging := false; dragOffset := dragOffset st |}.

Definition handleDoubleClick (pr : props) : list call :=
  if negb (readOnly pr) then [OnStartEditing (TextBox.id (textBox pr))]
  else [].

Definition handleBlur (pr : props) (collaborativeText : string) : list call :=
  [OnUpdate (TextBox.id (textBox pr)) (textPatch collaborativeText);
   OnStopEditing].

(** One event.  The window listeners for move and up exist only while
    dragging, and the text area, whose blur this is, only while editing. *)
Definition step (pr : props) (e : event) (st : state) : state * list call :=
  match e with
  | MouseDown clientX clientY onTextarea =>
      (handleMouseDown pr clientX clientY onTextarea st, [])
  | MouseMove clientX clientY =>
      if isDragging st then (st, handleMouseMove pr clientX clientY st)
      else (st, [])
  | MouseUp => if isDragging st then (handleMouseUp st, []) else (st, [])
  | DoubleClick => (st, handleDoubleClick pr)
  | Blur collaborativeText =>
      if isEditing pr then (st, handleBlur pr collaborativeText) else (st, [])
  end.

(** A sequence of events under the same props, with the calls in order. *)
Fixpoint run (pr : props) (events : list event) (st : state)
    : state * list call :=
  match events with
  | [] => (st, [])
  | e :: rest =>
      let '(st1, calls1) := step pr e st in
      let '(st2, calls2) := run pr rest st1 in
      (st2, calls1 ++ calls2)
  end.
End handlers.
End TextBoxComponent.

(** ** [userUtils]: the colour of a user *)

Module UserUtils.
Definition USER_COLORS : list string :=
  ["#FF6B6B"; "#4ECDC4"; "#45B7D1"; "#FFA07A"; "#98D8C8"; "#F7DC6F";
   "#BB8FCE"; "#85C1E2"; "#F8B739"; "#52B788"; "#E76F51"; "#2A9D8F"].

(** [ToInt32]: the operand of a shift, wrapped to 32 bits, signed. *)
Definition toInt32 (n : Z) : Z := (n + 2 ^ 31) mod 2 ^ 32 - 2 ^ 31.

(** [a << b] *)
Definition shl (a b : Z) : Z := toInt32 (Z.shiftl (toInt32 a) b).

(** [userId.charCodeAt(i)] for the code unit [c] at [i]. *)
Definition charCode (c : ascii) : Z := Z.of_N (N_of_ascii c).

(** The body of the loop: [hash = charCode + ((hash << 5) - hash)]; only
    the shift wraps. *)
Definition hashStep (hash : Z) (c : ascii) : Z :=
  charCode c + (shl hash 5 - hash).

(** The loop over the code units of [userId], from [hash = 0]. *)
Definition hashOf (userId : string) : Z :=
  foldl hashStep 0 (String.list_ascii_of_string userId).

(** [getUserColor]: [USER_COLORS[Math.abs(hash) % USER_COLORS.length]],
    [None] for [undefined]. *)
Definition getUserColor (userId : string) : option string :=
  let hash := hashOf userId in
  let index := Z.rem (Z.abs hash) (Z.of_nat (length USER_COLORS)) in
  USER_COLORS !! Z.to_nat index.
End UserUtils.

(** ** Vocabulary of the statements *)

(** The merge of [updateTextBox], field by field: a field given in
    [updates] is taken from there, any other field is kept. *)
Definition merged (textBox : TextBox.t) (updates : TextBox.partial)
    (textBox' : TextBox.t) : Prop :=
  TextBox.id textBox' = default (TextBox.id textBox) (TextBox.p_id updates)
  ∧ TextBox.text textBox'
      = default (TextBox.text textBox) (TextBox.p_text updates)
  ∧ TextBox.x textBox' = default (TextBox.x textBox) (TextBox.p_x updates)
  ∧ TextBox.y textBox' = default (TextBox.y textBox) (TextBox.p_y updates)
  ∧ TextBox.width textBox'
      = default (TextBox.width textBox) (TextBox.p_width updates)
  ∧ TextBox.height textBox'
      = default (TextBox.height textBox) (TextBox.p_height updates)
  ∧ TextBox.fontSize textBox'
      = default (TextBox.fontSize textBox) (TextBox.p_fontSize updates)
  ∧ TextBox.color textBox'
      = default (TextBox.color textBox) (TextBox.p_color updates)
  ∧ TextBox.createdBy textBox'
      = default (TextBox.createdBy textBox) (TextBox.p_createdBy updates)
  ∧ TextBox.createdAt textBox'
      = default (TextBox.createdAt textBox) (TextBox.p_createdAt updates).

(** A slide whose [textBoxes], when it is not an array, is replaced by
    [[]]; a slide with an array is the slide itself. *)
Definition normalized (slide : Slide.t) : Slide.t :=
  {| Slide.id := Slide.id slide;
     Slide.textBoxes :=
       match Slide.textBoxes slide with
       | Slide.TbArray boxes => Slide.TbArray boxes
       | Slide.TbNotArray _ => Slide.TbArray []
       end;
     Slide.backgroundColor := Slide.backgroundColor slide;
     Slide.createdAt := Slide.createdAt slide;
     Slide.otherProps := Slide.otherProps slide |}.

(** What [migrateSlides] makes of a slide whose [textBoxes] is not an
    array, when [Date.now()] returns [now]. *)
Definition migrated (now : Z) (slide slide' : Slide.t) : Prop :=
  Slide.id slide' = Slide.id slide
  ∧ Slide.textBoxes slide' = Slide.TbArray []
  ∧ Slide.otherProps slide' = []
  ∧ (∀ c, Slide.backgroundColor slide = Some c → c ≠ "" →
       Slide.backgroundColor slide' = Some c)
  ∧ (Slide.backgroundColor slide = None ∨ Slide.backgroundColor slide = Some "" →
       Slide.backgroundColor slide' = Some SLIDE_DEFAULTS.BACKGROUND_COLOR)
  ∧ (∀ t, Slide.createdAt slide = Some t → t ≠ 0 →
       Slide.createdAt slide' = Some t)
  ∧ (Slide.createdAt slide = None ∨ Slide.createdAt slide = Some 0 →
       Slide.createdAt slide' = Some now).

(** A slide id as a share link can list it: not empty, without comma. *)
Definition listable (id : string) : Prop :=
  id ≠ "" ∧ ("," : ascii) ∉ String.list_ascii_of_string id.

(** The hook is bound to the [Y.Text] [old]: that is its [yText], and the
    three effects are mounted on it: its text observer and its map observer
    are attached, and its undo manager is scoped to [old] and tracks the
    origin of the hook. *)
Definition bound (old : Y.ref) (w : Y.world) : Prop :=
  Y.yText (Y.hk w) = old
  ∧ Y.mounted (Y.hk w) = Some old
  ∧ old ∈ Y.observers (Y.store w old)
  ∧ (Y.key (Y.hk w), old) ∈ Y.mapObservers w
  ∧ Y.undoManagerRef (Y.hk w)
    = Some {| Y.scope := old;
              Y.trackedOrigins := {[ Y.originRef (Y.hk w) ]} |}.

(** The hook shows the text of [new]. *)
Definition shows (new : Y.ref) (w : Y.world) : Prop :=
  Y.yText (Y.hk w) = new ∧ Y.value (Y.hk w) = Y.toString new w.

(** The observers in the document are those of the mounted effects: each
    text observer closed over the [Y.Text] it is attached to, each map
    observer over the key of the hook, and both over the [Y.Text] the
    effects are mounted on. *)
Definition coherent (w : Y.world) : Prop :=
  (∀ r c, c ∈ Y.observers (Y.store w r) →
          c = r ∧ Y.mounted (Y.hk w) = Some r)
  ∧ (∀ k c, (k, c) ∈ Y.mapObservers w →
            k = Y.key (Y.hk w) ∧ Y.mounted (Y.hk w) = Some c).

(** The exposed value is the text of the hook's sequence. *)
Definition inSync (w : Y.world) : Prop :=
  Y.value (Y.hk w) = Y.toString (Y.yText (Y.hk w)) w.

(** Every stored slide has an array under [textBoxes]. *)
Definition wellFormed (slides : list Slide.t) : Prop :=
  ∀ slide, slide ∈ slides → Slide.isArray (Slide.textBoxes slide) = true.

(** Sample data. *)
Module Sample.
(** A document with two [Y.Text] objects, the first one under the key
    ["textbox-1"], and a hook for that key before its first commit. *)
Definition world0 : Y.world :=
  {| Y.store :=
       <[1%nat := {| Y.content := "Hello"; Y.observers := [] |}]>
       (<[2%nat := {| Y.content := "Bye"; Y.observers := [] |}]>
        (λ _, {| Y.content := ""; Y.observers := [] |}));
     Y.textboxes := {[ "textbox-1" := 1%nat ]};
     Y.mapObservers := [];
     Y.transactions := [];
     Y.hk := {| Y.key := "textbox-1"; Y.originRef := 7%nat; Y.yText := 1%nat;
                Y.value := "Hello"; Y.mounted := None;
                Y.undoManagerRef := None |} |}.

(** The same after the first commit of the effects. *)
Definition world1 : Y.world := Y.commitEffects world0.

Definition slide (id : string) : Slide.t :=
  {| Slide.id := id;
     Slide.textBoxes := Slide.TbArray [];
     Slide.backgroundColor := Some "white";
     Slide.createdAt := Some 1700000000000;
     Slide.otherProps := [] |}.

Definition abc : list Slide.t := [slide "a"; slide "b"; slide "c"].

Definition presenceOn (slideId : option string) (name : string) : Presence.t :=
  {| Presence.currentSlideId := slideId;
     Presence.editingTextBoxId := None;
     Presence.cursor := None;
     Presence.userName := name;
     Presence.userColor := "#ff0000" |}.

(** A collaborator who is on slide ["a"]. *)
Definition othersOnA : list SlideList.other :=
  [ {| SlideList.presence := Some (presenceOn (Some "a") "Ada") |} ].

(** The local participant before any slide was seen, on no slide. *)
Definition freshState : SlideList.state :=
  {| SlideList.prevSlideCountRef := 0;
     SlideList.myPresence := presenceOn None "Bob";
     SlideList.scrollTo := None |}.

(** [?shared=a,c&edit=false] *)
Definition search_ac : URLSearchParams.t :=
  [("shared", "a,c"); ("edit", "false")].

(** A slide of the old format whose colour and timestamp are present but
    falsy. *)
Definition legacySlide : Slide.t :=
  {| Slide.id := "slide-1";
     Slide.textBoxes := Slide.TbNotArray Slide.LegacyUndefined;
     Slide.backgroundColor := Some "";
     Slide.createdAt := Some 0;
     Slide.otherProps := [] |}.

Definition legacyStorage : Storage.t :=
  {| Storage.slides := [legacySlide]; Storage.writes := 0 |}.

Definition clock : nat → Z := λ _, 1700000000000.

Definition storageAbc : Storage.t :=
  {| Storage.slides := abc; Storage.writes := 0 |}.

(** A text box and a slide that carries it. *)
Definition box (id : string) : TextBox.t :=
  {| TextBox.id := id; TextBox.text := ""; TextBox.x := 120; TextBox.y := 140;
     TextBox.width := 200; TextBox.height := 100; TextBox.fontSize := 16;
     TextBox.color := "gray.900"; TextBox.createdBy := "anonymous";
     TextBox.createdAt := 1700000000000 |}.

Definition slideWithBoxes : Slide.t :=
  {| Slide.id := "a";
     Slide.textBoxes := Slide.TbArray [box "t1"; box "t2"];
     Slide.backgroundColor := Some "white";
     Slide.createdAt := Some 1700000000000;
     Slide.otherProps := [] |}.

Definition storageBoxes : Storage.t :=
  {| Storage.slides := [slideWithBoxes; slide "b"]; Storage.writes := 0 |}.

(** [{ x: 10, y: 20 }] *)
Definition moveTo : TextBox.partial :=
  {| TextBox.p_id := None; TextBox.p_text := None;
     TextBox.p_x := Some 10; TextBox.p_y := Some 20;
     TextBox.p_width := None; TextBox.p_height := None;
     TextBox.p_fontSize := None; TextBox.p_color := None;
     TextBox.p_createdBy := None; TextBox.p_createdAt := None |}.

(** The effect state of a participant who saw one slide and is on it. *)
Definition seenOne : SlideList.state :=
  {| SlideList.prevSlideCountRef := 1;
     SlideList.myPresence := presenceOn (Some "b") "Bob";
     SlideList.scrollTo := None |}.

(** [?shared=,,] *)
Definition search_commas : URLSearchParams.t := [("shared", ",,")].
(** [?shared=] *)
Definition search_empty : URLSearchParams.t := [("shared", "")].

(** The share dialog with the slides ["a"] and ["c"] ticked. *)
Definition dialogAC : ShareDialog.state :=
  {| ShareDialog.open := true;
     ShareDialog.selectedIds := ["a"; "c"];
     ShareDialog.canEdit := false |}.

(** A text box whose stored text is ["Hi"]. *)
Definition boxHi : TextBox.t :=
  {| TextBox.id := "1"; TextBox.text := "Hi"; TextBox.x := 120;
     TextBox.y := 140; TextBox.width := 200; TextBox.height := 100;
     TextBox.fontSize := 16; TextBox.color := "gray.900";
     TextBox.createdBy := "anonymous"; TextBox.createdAt := 1700000000000 |}.

(** An editable text box that is not being edited, and its component
    before any drag. *)
Definition editable : TextBoxComponent.props :=
  TextBoxComponent.mkProps (box "t1") false false.

Definition idle : TextBoxComponent.state :=
  TextBoxComponent.mkState false (0, 0).
End Sample.

(** * Properties *)

(** ** The slide store *)

Section slide_store.
Implicit Types (storage : Storage.t) (slide : Slide.t) (slides : list Slide.t).

(** C6. [deleteSlide(id)] stores exactly the slides whose id differs from
    [id], in their original order: the new list is the old one filtered
    on [slide.id ≠ id], it is a sublist of the old list, it holds a slide
    iff the old list holds it and its id differs, no slide with the given
    id (nor its text boxes) remains, and when no slide has the given id
    the list is unchanged.  The mutation is total: it raises nothing. *)
Theorem deleteSlide_filter (slideId : string) storage :
  let storage' := SlideManagement.deleteSlide slideId storage in
  Storage.slides storage'
    = filter (λ slide, Slide.id slide ≠ slideId) (Storage.slides storage)
  ∧ Storage.slides storage' `sublist_of` Storage.slides storage
  ∧ (∀ slide, slide ∈ Storage.slides storage'
       ↔ slide ∈ Storage.slides storage ∧ Slide.id slide ≠ slideId)
  ∧ (slideId ∉ (Slide.id <$> Storage.slides storage'))
  ∧ ((slideId ∉ (Slide.id <$> Storage.slides storage))
       → Storage.slides storage' = Storage.slides storage).
Proof.
  intros storage'. subst storage'.
  unfold SlideManagement.deleteSlide, Storage.get_slides. cbn [Storage.slides Storage.set_slides].
  split_and!.
  - done.
  - apply sublist_filter.
  - intros slide. rewrite list_elem_of_filter. tauto.
  - rewrite list_elem_of_fmap. intros (slide & -> & Hin).
    apply list_elem_of_filter in Hin as [Hne _]. by apply Hne.
  - intros Hfresh. induction (Storage.slides storage) as [|slide slides IH].
    + done.
    + rewrite fmap_cons, not_elem_of_cons in Hfresh.
      destruct Hfresh as [Hhd Htl].
      rewrite filter_cons_True by congruence. f_equal. by apply IH.
Qed.

Lemma normalized_array slide boxes :
  Slide.textBoxes slide = Slide.TbArray boxes → normalized slide = slide.
Proof.
  destruct slide as [i tb bg ca ex]. unfold normalized.
  cbn. by intros ->.
Qed.

Lemma fmap_unchanged {A} (f : A → A) (l : list A) :
  (∀ a, a ∈ l → f a = a) → f <$> l = l.
Proof.
  induction l as [|a l IH]; intros Hf; [done|].
  rewrite fmap_cons, Hf by apply list_elem_of_here. f_equal.
  apply IH. intros b Hb. apply Hf. by apply list_elem_of_further.
Qed.

(** C5. [updateTextBox(slideId, textBoxId, updates)] keeps the number and
    order of the slides; a slide with another id is unchanged; on a slide
    with the given id everything but [textBoxes] is kept, and the new
    [textBoxes] is an array: when the old [textBoxes] is an array, it has the
    same boxes in the same order, a box with another id unchanged and a box
    with the given id with exactly the given fields merged in; when the old
    [textBoxes] is not an array, it is [[]].  When no slide has the given id
    the list is unchanged; when no text box of the matching slides has the
    given id the list is unchanged up to replacing the non-array [textBoxes]
    of a matching slide by [[]], and unchanged when the matching slides all
    have arrays.  The mutation is total: it raises nothing. *)
Theorem updateTextBox_frame (slideId textBoxId : string)
    (updates : TextBox.partial) storage :
  let storage' :=
    TextBoxManagement.updateTextBoxMutation slideId textBoxId updates storage in
  length (Storage.slides storage') = length (Storage.slides storage)
  ∧ (∀ i slide, Storage.slides storage !! i = Some slide →
       Slide.id slide ≠ slideId → Storage.slides storage' !! i = Some slide)
  ∧ (∀ i slide, Storage.slides storage !! i = Some slide →
       Slide.id slide = slideId →
       ∃ slide' boxes',
         Storage.slides storage' !! i = Some slide'
         ∧ Slide.id slide' = Slide.id slide
         ∧ Slide.backgroundColor slide' = Slide.backgroundColor slide
         ∧ Slide.createdAt slide' = Slide.createdAt slide
         ∧ Slide.otherProps slide' = Slide.otherProps slide
         ∧ Slide.textBoxes slide' = Slide.TbArray boxes'
         ∧ (∀ v, Slide.textBoxes slide = Slide.TbNotArray v → boxes' = [])
         ∧ (∀ boxes, Slide.textBoxes slide = Slide.TbArray boxes →
              length boxes' = length boxes
              ∧ (∀ j textBox, boxes !! j = Some textBox →
                   TextBox.id textBox ≠ textBoxId → boxes' !! j = Some textBox)
              ∧ (∀ j textBox, boxes !! j = Some textBox →
                   TextBox.id textBox = textBoxId →
                   ∃ textBox', boxes' !! j = Some textBox'
                               ∧ merged textBox updates textBox')))
  ∧ ((slideId ∉ (Slide.id <$> Storage.slides storage)) →
       Storage.slides storage' = Storage.slides storage)
  ∧ ((∀ slide boxes, slide ∈ Storage.slides storage →
        Slide.id slide = slideId →
        Slide.textBoxes slide = Slide.TbArray boxes →
        textBoxId ∉ (TextBox.id <$> boxes)) →
       Storage.slides storage'
         = (λ slide, if decide (Slide.id slide = slideId)
                     then normalized slide else slide)
             <$> Storage.slides storage)
  ∧ ((∀ slide, slide ∈ Storage.slides storage → Slide.id slide = slideId →
        ∃ boxes, Slide.textBoxes slide = Slide.TbArray boxes
                 ∧ (textBoxId ∉ (TextBox.id <$> boxes))) →
       Storage.slides storage' = Storage.slides storage).
Proof.
  intros storage'. subst storage'.
  unfold TextBoxManagement.updateTextBoxMutation, Storage.get_slides.
  cbn [Storage.slides Storage.set_slides].
  assert (∀ slide,
            (∀ boxes, Slide.textBoxes slide = Slide.TbArray boxes →
                      textBoxId ∉ (TextBox.id <$> boxes)) →
            Slide.id slide = slideId →
            TextBoxManagement.updateSlide slideId textBoxId updates slide
            = normalized slide) as Hnorm.
  { intros slide Hfresh Heq. unfold TextBoxManagement.updateSlide.
    rewrite decide_True by done.
    unfold normalized, Slide.existingTextBoxes.
    destruct (Slide.textBoxes slide) as [boxes|v] eqn:Htb; [|done].
    f_equal. f_equal. apply fmap_unchanged.
    intros textBox Hin. rewrite decide_False; [done|].
    intros Hid. apply (Hfresh boxes eq_refl).
    apply list_elem_of_fmap. by exists textBox. }
  split_and!.
  - by rewrite length_fmap.
  - intros i slide Hi Hne. rewrite list_lookup_fmap, Hi. cbn.
    unfold TextBoxManagement.updateSlide. by rewrite decide_False.
  - intros i slide Hi Heq. rewrite list_lookup_fmap, Hi. cbn.
    unfold TextBoxManagement.updateSlide. rewrite decide_True by done.
    eexists _, _. split; [reflexivity|]. cbn.
    unfold Slide.existingTextBoxes. split_and!; try done.
    + by intros v ->.
    + intros boxes ->. split_and!.
      * by rewrite length_fmap.
      * intros j textBox Hj Hne. rewrite list_lookup_fmap, Hj. cbn.
        by rewrite decide_False.
      * intros j textBox Hj Hid. rewrite list_lookup_fmap, Hj. cbn.
        rewrite decide_True by done. eexists. split; [reflexivity|].
        unfold merged, TextBox.spread. cbn. by split_and!.
  - intros Hfresh. apply fmap_unchanged. intros slide Hin.
    unfold TextBoxManagement.updateSlide. rewrite decide_False; [done|].
    intros Heq. apply Hfresh. apply list_elem_of_fmap. by exists slide.
  - intros Hfresh. apply list_fmap_ext. intros i slide Hi.
    destruct (decide (Slide.id slide = slideId)) as [Heq|Hne].
    + apply Hnorm; [|done]. intros boxes Htb.
      apply (Hfresh slide boxes); [by eapply list_elem_of_lookup_2|done..].
    + unfold TextBoxManagement.updateSlide. by rewrite decide_False.
  - intros Hfresh. apply fmap_unchanged. intros slide Hin.
    destruct (decide (Slide.id slide = slideId)) as [Heq|Hne].
    + destruct (Hfresh slide Hin Heq) as (boxes & Htb & Hno).
      rewrite Hnorm; [by apply (normalized_array slide boxes)| |done].
      intros boxes0 Htb0. congruence.
    + unfold TextBoxManagement.updateSlide. by rewrite decide_False.
Qed.

(** The map of [migrateSlides]: the flag ends up set iff it was set or
    some slide is not in array shape, and the slides are mapped pointwise. *)
Lemma mapMigrate_spec (clock : nat → Z) slides :
  ∀ i b,
    let r := SlideManagement.mapMigrate clock i b slides in
    r.1 = b || existsb (λ slide, negb (Slide.isArray (Slide.textBoxes slide)))
                       slides
    ∧ length r.2 = length slides
    ∧ (∀ j slide, slides !! j = Some slide →
         Slide.isArray (Slide.textBoxes slide) = true → r.2 !! j = Some slide)
    ∧ (∀ j slide, slides !! j = Some slide →
         Slide.isArray (Slide.textBoxes slide) = false →
         ∃ slide', r.2 !! j = Some slide'
                   ∧ migrated (clock (i + j)%nat) slide slide').
Proof.
  induction slides as [|slide slides IH]; intros i b; cbn.
  - rewrite orb_false_r. split_and!; [done..| |]; intros j ? Hj; by destruct j.
  - destruct (Slide.isArray (Slide.textBoxes slide)) eqn:Harr; cbn.
    + specialize (IH (S i) b).
      destruct (SlideManagement.mapMigrate clock (S i) b slides) as [flag out].
      cbn in *. destruct IH as (Hflag & Hlen & Hkeep & Hmig). split_and!.
      * done.
      * by f_equal.
      * intros [|j] s Hj Hs; cbn in *; [congruence|]. by apply Hkeep.
      * intros [|j] s Hj Hs; cbn in *; [congruence|].
        replace (i + S j)%nat with (S i + j)%nat by lia. by apply Hmig.
    + specialize (IH (S i) true).
      destruct (SlideManagement.mapMigrate clock (S i) true slides) as [flag out].
      cbn in *. destruct IH as (Hflag & Hlen & Hkeep & Hmig). split_and!.
      * rewrite Hflag. by rewrite orb_true_r.
      * by f_equal.
      * intros [|j] s Hj Hs; cbn in *; [congruence|]. by apply Hkeep.
      * intros [|j] s Hj Hs; cbn in *.
        -- injection Hj as <-. eexists. split; [reflexivity|].
           rewrite Nat.add_0_r. unfold migrated, JS.or_string, JS.or_number.
           cbn. split_and!; try done.
           ++ intros c -> Hc. by rewrite decide_False.
           ++ by intros [-> | ->].
           ++ intros t -> Ht. by rewrite decide_False.
           ++ by intros [-> | ->].
        -- replace (i + S j)%nat with (S i + j)%nat by lia. by apply Hmig.
Qed.

Lemma existsb_false_iff {A} (f : A → bool) (l : list A) :
  existsb f l = false ↔ ∀ a, a ∈ l → f a = false.
Proof.
  induction l as [|a l IH]; cbn.
  - split; [|done]. intros _ a Ha. by apply elem_of_nil in Ha.
  - rewrite orb_false_iff, IH. split.
    + intros [Ha Hl] b Hb. apply elem_of_cons in Hb as [-> | Hb]; auto.
    + intros H. split; [apply H, list_elem_of_here|].
      intros b Hb. by apply H, list_elem_of_further.
Qed.

(** A store none of whose slides needs migration is returned as it is. *)
Lemma migrateSlides_well_formed (clock : nat → Z) storage :
  (∀ slide, slide ∈ Storage.slides storage →
     Slide.isArray (Slide.textBoxes slide) = true) →
  SlideManagement.migrateSlides clock storage = storage.
Proof.
  intros Hall. unfold SlideManagement.migrateSlides, Storage.get_slides.
  pose proof (mapMigrate_spec clock (Storage.slides storage) 0 false)
    as (Hflag & _).
  destruct (SlideManagement.mapMigrate clock 0 false (Storage.slides storage))
    as [flag out].
  cbn in Hflag. rewrite Hflag.
  rewrite (proj2 (existsb_false_iff _ _)); [done|].
  intros slide Hin. by rewrite (Hall slide Hin).
Qed.

(** After [migrateSlides] every slide is in array shape. *)
Lemma migrateSlides_arrays (clock : nat → Z) storage :
  ∀ slide, slide ∈ Storage.slides (SlideManagement.migrateSlides clock storage) →
    Slide.isArray (Slide.textBoxes slide) = true.
Proof.
  intros slide. unfold SlideManagement.migrateSlides, Storage.get_slides.
  pose proof (mapMigrate_spec clock (Storage.slides storage) 0 false)
    as (Hflag & Hlen & Hkeep & Hmig).
  destruct (SlideManagement.mapMigrate clock 0 false (Storage.slides storage))
    as [flag out].
  cbn in *. destruct flag.
  - cbn. intros Hin. apply list_elem_of_lookup in Hin as [j Hj].
    destruct (lookup_lt_is_Some_2 (Storage.slides storage) j) as [old Hold].
    { rewrite <- Hlen. by eapply lookup_lt_Some. }
    destruct (Slide.isArray (Slide.textBoxes old)) eqn:Harr.
    + rewrite (Hkeep j old Hold Harr) in Hj. by injection Hj as <-.
    + destruct (Hmig j old Hold Harr) as (slide' & Hj' & _ & Htb & _).
      rewrite Hj' in Hj. injection Hj as <-. by rewrite Htb.
  - symmetry in Hflag. rewrite existsb_false_iff in Hflag.
    intros Hin. specialize (Hflag slide Hin). by apply negb_false_iff in Hflag.
Qed.

(** C4 (as amended).  [migrateSlides] keeps the number and order of the
    slides; a slide whose [textBoxes] is an array is left unchanged; a slide
    whose [textBoxes] is not an array is replaced by a record with its id,
    an empty [textBoxes] array and no further property, whose
    [backgroundColor] is the old one when that is a non-empty string and
    ['white'] otherwise, and whose [createdAt] is the old one when that is
    a non-zero number and [Date.now()] otherwise.  When no slide needs
    migration the store is not written.  A second run changes nothing. *)
Theorem migrateSlides_frame_idempotent (clock : nat → Z) storage :
  let storage' := SlideManagement.migrateSlides clock storage in
  length (Storage.slides storage') = length (Storage.slides storage)
  ∧ (∀ i slide, Storage.slides storage !! i = Some slide →
       Slide.isArray (Slide.textBoxes slide) = true →
       Storage.slides storage' !! i = Some slide)
  ∧ (∀ i slide, Storage.slides storage !! i = Some slide →
       Slide.isArray (Slide.textBoxes slide) = false →
       ∃ slide', Storage.slides storage' !! i = Some slide'
                 ∧ migrated (clock i) slide slide')
  ∧ ((∀ slide, slide ∈ Storage.slides storage →
        Slide.isArray (Slide.textBoxes slide) = true) →
       storage' = storage)
  ∧ (∀ clock2, SlideManagement.migrateSlides clock2 storage' = storage').
Proof.
  intros storage'. split_and!.
  - subst storage'. unfold SlideManagement.migrateSlides, Storage.get_slides.
    pose proof (mapMigrate_spec clock (Storage.slides storage) 0 false)
      as (_ & Hlen & _).
    destruct (SlideManagement.mapMigrate clock 0 false (Storage.slides storage))
      as [[] out]; done.
  - intros i slide Hi Harr. subst storage'.
    unfold SlideManagement.migrateSlides, Storage.get_slides.
    pose proof (mapMigrate_spec clock (Storage.slides storage) 0 false)
      as (_ & _ & Hkeep & _).
    destruct (SlideManagement.mapMigrate clock 0 false (Storage.slides storage))
      as [[] out]; cbn in *; [by apply Hkeep|done].
  - intros i slide Hi Harr. subst storage'.
    unfold SlideManagement.migrateSlides, Storage.get_slides.
    pose proof (mapMigrate_spec clock (Storage.slides storage) 0 false)
      as (Hflag & _ & _ & Hmig).
    destruct (SlideManagement.mapMigrate clock 0 false (Storage.slides storage))
      as [flag out]; cbn in *.
    assert (flag = true) as ->.
    { rewrite Hflag. apply existsb_exists. exists slide. split.
      - apply list_elem_of_In. by eapply list_elem_of_lookup_2.
      - by rewrite Harr. }
    by apply Hmig.
  - apply migrateSlides_well_formed.
  - intros clock2. apply migrateSlides_well_formed, migrateSlides_arrays.
Qed.

(** C4 as first stated fails: a colour and a timestamp that are present
    but falsy ([""] and [0]) are not kept by the migration. *)
Lemma migrateSlides_falsy_not_kept :
  Storage.slides Sample.legacyStorage !! 0%nat = Some Sample.legacySlide
  ∧ Slide.isArray (Slide.textBoxes Sample.legacySlide) = false
  ∧ Slide.backgroundColor Sample.legacySlide = Some ""
  ∧ Slide.createdAt Sample.legacySlide = Some 0
  ∧ (∀ slide',
       Storage.slides
         (SlideManagement.migrateSlides Sample.clock Sample.legacyStorage)
         !! 0%nat = Some slide' →
       Slide.backgroundColor slide' ≠ Slide.backgroundColor Sample.legacySlide
       ∧ Slide.createdAt slide' ≠ Slide.createdAt Sample.legacySlide).
Proof.
  split_and!; [done..|]. intros slide' Hl.
  cbn in Hl. injection Hl as <-. by split.
Qed.

Lemma deleteSlide_filter_witness :
  ("z" ∉ (Slide.id <$> Storage.slides Sample.storageAbc))
  ∧ Storage.slides (SlideManagement.deleteSlide "z" Sample.storageAbc)
    = Storage.slides Sample.storageAbc.
Proof.
  assert ("z" ∉ (Slide.id <$> Storage.slides Sample.storageAbc)) as H.
  { cbn. rewrite !not_elem_of_cons. split_and!; try discriminate. apply not_elem_of_nil. }
  split; [exact H|].
  exact (proj2 (proj2 (proj2 (proj2 (deleteSlide_filter "z" Sample.storageAbc)))) H).
Defined.

Lemma updateTextBox_frame_witness :
  Storage.slides Sample.storageBoxes !! 0%nat = Some Sample.slideWithBoxes
  ∧ Slide.id Sample.slideWithBoxes = "a"
  ∧ Slide.textBoxes Sample.slideWithBoxes
    = Slide.TbArray [Sample.box "t1"; Sample.box "t2"]
  ∧ TextBox.id (Sample.box "t1") = "t1"
  ∧ TextBox.id (Sample.box "t2") ≠ "t1"
  ∧ ∃ slide' boxes' textBox',
      Storage.slides
        (TextBoxManagement.updateTextBoxMutation "a" "t1" Sample.moveTo
           Sample.storageBoxes) !! 0%nat = Some slide'
      ∧ Slide.textBoxes slide' = Slide.TbArray boxes'
      ∧ length boxes' = 2%nat
      ∧ boxes' !! 0%nat = Some textBox'
      ∧ merged (Sample.box "t1") Sample.moveTo textBox'
      ∧ TextBox.x textBox' = 10
      ∧ TextBox.y textBox' = 20
      ∧ boxes' !! 1%nat = Some (Sample.box "t2").
Proof.
  assert (TextBox.id (Sample.box "t2") ≠ "t1") as Hne by discriminate.
  split; [reflexivity|]. split; [reflexivity|]. split; [reflexivity|].
  split; [reflexivity|]. split; [exact Hne|].
  destruct (proj1 (proj2 (proj2
              (updateTextBox_frame "a" "t1" Sample.moveTo Sample.storageBoxes)))
              0%nat Sample.slideWithBoxes eq_refl eq_refl)
    as (slide' & boxes' & Hl & _ & _ & _ & _ & Htb & _ & Harr).
  destruct (Harr [Sample.box "t1"; Sample.box "t2"] eq_refl)
    as (Hlen & Hother & Hsame).
  destruct (Hsame 0%nat (Sample.box "t1") eq_refl eq_refl)
    as (textBox' & Hb0 & Hm).
  exists slide', boxes', textBox'.
  split; [exact Hl|]. split; [exact Htb|]. split; [exact Hlen|].
  split; [exact Hb0|]. split; [exact Hm|].
  split; [exact (proj1 (proj2 (proj2 Hm)))|].
  split; [exact (proj1 (proj2 (proj2 (proj2 Hm))))|].
  exact (Hother 1%nat (Sample.box "t2") eq_refl Hne).
Defined.

Lemma migrateSlides_frame_idempotent_witness :
  Storage.slides Sample.legacyStorage !! 0%nat = Some Sample.legacySlide
  ∧ Slide.isArray (Slide.textBoxes Sample.legacySlide) = false
  ∧ ∃ slide',
      Storage.slides
        (SlideManagement.migrateSlides Sample.clock Sample.legacyStorage)
        !! 0%nat = Some slide'
      ∧ migrated (Sample.clock 0%nat) Sample.legacySlide slide'.
Proof.
  split; [reflexivity|]. split; [reflexivity|].
  exact (proj1 (proj2 (proj2
           (migrateSlides_frame_idempotent Sample.clock Sample.legacyStorage)))
           0%nat Sample.legacySlide eq_refl eq_refl).
Defined.
End slide_store.

(** ** The share-link policy *)

Section share_mode.
Implicit Types (slides : list Slide.t) (search : URLSearchParams.t).

Lemma split_comma_free (id : string) :
  ("," : ascii) ∉ String.list_ascii_of_string id →
  ShareMode.split "," id = [id].
Proof.
  induction id as [|c id IH]; [done|]. intros Hfree.
  cbn [String.list_ascii_of_string] in Hfree.
  apply not_elem_of_cons in Hfree as [Hc Hid].
  cbn [ShareMode.split]. rewrite decide_False by congruence. by rewrite IH.
Qed.

Lemma split_app_comma (id rest : string) :
  ("," : ascii) ∉ String.list_ascii_of_string id →
  ShareMode.split "," (id +:+ String "," rest) = id :: ShareMode.split "," rest.
Proof.
  induction id as [|c id IH].
  - intros _. change ("" +:+ String "," rest) with (String "," rest).
    cbn [ShareMode.split]. by rewrite decide_True.
  - change (String c id +:+ String "," rest)
      with (String c (id +:+ String "," rest)). intros Hfree.
    cbn [String.list_ascii_of_string] in Hfree.
    apply not_elem_of_cons in Hfree as [Hc Hid].
    cbn [ShareMode.split]. rewrite decide_False by congruence. by rewrite IH.
Qed.

(** Splitting the comma-separated list of ids gives the ids back. *)
Lemma split_concat (ids : list string) :
  ids ≠ [] → Forall listable ids →
  ShareMode.split "," (String.concat "," ids) = ids.
Proof.
  induction ids as [|id ids IH]; [done|]. intros _ Hall.
  apply Forall_cons in Hall as [[_ Hid] Hall].
  destruct ids as [|id' ids].
  - cbn. by apply split_comma_free.
  - change (String.concat "," (id :: id' :: ids))
      with (id +:+ String "," (String.concat "," (id' :: ids))).
    rewrite split_app_comma by done. f_equal. by apply IH.
Qed.

Lemma concat_nonempty (ids : list string) :
  ids ≠ [] → Forall listable ids → String.concat "," ids ≠ "".
Proof.
  destruct ids as [|id ids]; [done|]. intros _ Hall.
  apply Forall_cons in Hall as [[Hne _] _].
  destruct id as [|c id]; [done|]. by destruct ids.
Qed.

Lemma filter_all {A} (P : A → Prop) `{!∀ a, Decision (P a)} (l : list A) :
  Forall P l → filter P l = l.
Proof.
  induction 1 as [|a l Ha _ IH]; [done|].
  by rewrite filter_cons_True, IH.
Qed.

(** The two examples of the doc comment of [useShareMode], on the slides
    slide1, slide2, slide3. *)
Example useShareMode_docs :
  let allSlides :=
    [Sample.slide "slide1"; Sample.slide "slide2"; Sample.slide "slide3"] in
  let editable :=
    ShareMode.useShareMode (Some allSlides)
      [("shared", "slide1,slide2"); ("edit", "true")] in
  let viewer :=
    ShareMode.useShareMode (Some allSlides)
      [("shared", "slide1,slide2"); ("edit", "false")] in
  ShareMode.readOnly editable = false
  ∧ ShareMode.visibleSlides editable
    = [Sample.slide "slide1"; Sample.slide "slide2"]
  ∧ ShareMode.isSharedMode editable = true
  ∧ ShareMode.readOnly viewer = true
  ∧ ShareMode.visibleSlides viewer
    = [Sample.slide "slide1"; Sample.slide "slide2"]
  ∧ ShareMode.isSharedMode viewer = true.
Proof. vm_compute. by split_and!. Qed.

(** C2. [useShareMode] is a function of the slide list and of the query
    string.  Without [shared] parameter: not shared, not read-only, no
    allowed set, every slide visible.  With a [shared] parameter that lists
    slide ids: shared, the allowed set is the set of the listed ids, the
    visible slides are the slides whose id is listed, in their order, and
    the mode is read-only exactly when the [edit] parameter is not
    ['true'].  For the slides a, b, c and [?shared=a,c&edit=false] the
    visible slides are a, c and the mode is read-only. *)
Theorem useShareMode_policy slides search :
  (URLSearchParams.get "shared" search = None →
     ShareMode.useShareMode (Some slides) search
     = {| ShareMode.readOnly := false;
          ShareMode.visibleSlides := slides;
          ShareMode.allowedSlideIds := None;
          ShareMode.isSharedMode := false |})
  ∧ (∀ ids, ids ≠ [] → Forall listable ids →
       URLSearchParams.get "shared" search = Some (String.concat "," ids) →
       let r := ShareMode.useShareMode (Some slides) search in
       ShareMode.isSharedMode r = true
       ∧ ShareMode.allowedSlideIds r = Some (list_to_set ids)
       ∧ ShareMode.visibleSlides r
           = filter (λ slide, Slide.id slide ∈ ids) slides
       ∧ (ShareMode.readOnly r = true
            ↔ URLSearchParams.get "edit" search ≠ Some "true"))
  ∧ ShareMode.visibleSlides
      (ShareMode.useShareMode (Some Sample.abc) Sample.search_ac)
    = [Sample.slide "a"; Sample.slide "c"]
  ∧ ShareMode.readOnly
      (ShareMode.useShareMode (Some Sample.abc) Sample.search_ac) = true.
Proof.
  split_and!.
  - intros Hnone. unfold ShareMode.useShareMode, ShareMode.parseToken.
    change URL_PARAMS.SHARED_SLIDES with "shared". by rewrite Hnone.
  - intros ids Hne Hall Hget r. subst r.
    unfold ShareMode.useShareMode, ShareMode.parseToken.
    change URL_PARAMS.SHARED_SLIDES with "shared".
    change URL_PARAMS.CAN_EDIT with "edit". rewrite Hget.
    rewrite decide_False by by apply concat_nonempty.
    rewrite split_concat by done.
    rewrite (filter_all (λ piece, piece ≠ "")) by
      (eapply Forall_impl; [exact Hall|by intros ? [? _]]).
    cbn. split_and!; [done..| |].
    + apply list_filter_iff. intros slide. by rewrite elem_of_list_to_set.
    + rewrite negb_true_iff, bool_decide_eq_false. done.
  - vm_compute. reflexivity.
  - vm_compute. reflexivity.
Qed.

Lemma split_all_commas (s : string) :
  Forall (λ c, c = ("," : ascii)) (String.list_ascii_of_string s) →
  Forall (λ piece, piece = "") (ShareMode.split "," s).
Proof.
  induction s as [|c s IH].
  - intros _. by repeat constructor.
  - intros Hall. cbn [String.list_ascii_of_string] in Hall.
    apply Forall_cons in Hall as [-> Hall].
    cbn [ShareMode.split]. rewrite decide_True by done.
    constructor; [done|]. by apply IH.
Qed.

Lemma filter_none {A} (P : A → Prop) `{!∀ a, Decision (P a)} (l : list A) :
  Forall (λ a, ¬ P a) l → filter P l = [].
Proof.
  induction 1 as [|a l Ha _ IH]; [done|].
  by rewrite filter_cons_False.
Qed.

(** C10. A [shared] parameter that is present but empty is treated as an
    absent one: not shared, not read-only, no allowed set, every slide
    visible.  A non-empty [shared] parameter made of commas only gives the
    shared mode with an empty allowed set: no slide is visible, and the
    mode is read-only unless the [edit] parameter is ['true']. *)
Theorem useShareMode_empty_and_commas slides search :
  (URLSearchParams.get "shared" search = Some "" →
     ShareMode.useShareMode (Some slides) search
     = {| ShareMode.readOnly := false;
          ShareMode.visibleSlides := slides;
          ShareMode.allowedSlideIds := None;
          ShareMode.isSharedMode := false |})
  ∧ (∀ sharedParam,
       sharedParam ≠ "" →
       Forall (λ c, c = ("," : ascii)) (String.list_ascii_of_string sharedParam) →
       URLSearchParams.get "shared" search = Some sharedParam →
       ShareMode.useShareMode (Some slides) search
       = {| ShareMode.readOnly :=
              negb (bool_decide
                      (URLSearchParams.get "edit" search = Some "true"));
            ShareMode.visibleSlides := [];
            ShareMode.allowedSlideIds := Some ∅;
            ShareMode.isSharedMode := true |}).
Proof.
  split.
  - intros Hget. unfold ShareMode.useShareMode, ShareMode.parseToken.
    change URL_PARAMS.SHARED_SLIDES with "shared". by rewrite Hget.
  - intros sharedParam Hne Hcommas Hget.
    unfold ShareMode.useShareMode, ShareMode.parseToken.
    change URL_PARAMS.SHARED_SLIDES with "shared".
    change URL_PARAMS.CAN_EDIT with "edit". rewrite Hget.
    rewrite decide_False by done.
    rewrite (filter_none (λ piece, piece ≠ "")).
    2:{ eapply Forall_impl; [by apply split_all_commas|]. cbn. intros ? -> Hcontra. by apply Hcontra. }
    cbn. f_equal. apply filter_none, Forall_forall. intros slide _.
    apply not_elem_of_empty.
Qed.

Lemma useShareMode_policy_witness :
  ["a"; "c"] ≠ []
  ∧ Forall listable ["a"; "c"]
  ∧ URLSearchParams.get "shared" Sample.search_ac
    = Some (String.concat "," ["a"; "c"])
  ∧ ShareMode.visibleSlides
      (ShareMode.useShareMode (Some Sample.abc) Sample.search_ac)
    = filter (λ slide, Slide.id slide ∈ ["a"; "c"]) Sample.abc.
Proof.
  assert (Forall listable ["a"; "c"]) as Hall.
  { repeat constructor; try discriminate;
      cbn; rewrite !not_elem_of_cons; split_and!; try discriminate;
      apply not_elem_of_nil. }
  assert (["a"; "c"] ≠ []) as Hne by discriminate.
  split; [exact Hne|]. split; [exact Hall|]. split; [reflexivity|].
  exact (proj1 (proj2 (proj2
           (proj1 (proj2 (useShareMode_policy Sample.abc Sample.search_ac))
              ["a"; "c"] Hne Hall eq_refl)))).
Defined.

Lemma useShareMode_empty_and_commas_witness :
  (",," : string) ≠ ""
  ∧ Forall (λ c, c = ("," : ascii)) (String.list_ascii_of_string ",,")
  ∧ URLSearchParams.get "shared" Sample.search_commas = Some ",,"
  ∧ ShareMode.useShareMode (Some Sample.abc) Sample.search_commas
    = {| ShareMode.readOnly := true;
         ShareMode.visibleSlides := [];
         ShareMode.allowedSlideIds := Some ∅;
         ShareMode.isSharedMode := true |}.
Proof.
  assert (Forall (λ c, c = ("," : ascii)) (String.list_ascii_of_string ",,"))
    as Hall by (repeat constructor).
  assert ((",," : string) ≠ "") as Hne by discriminate.
  split; [exact Hne|]. split; [exact Hall|]. split; [reflexivity|].
  exact (proj2 (useShareMode_empty_and_commas Sample.abc Sample.search_commas)
           ",," Hne Hall eq_refl).
Defined.
End share_mode.

(** ** Auto-follow *)

Section auto_follow.
Implicit Types (slides : list Slide.t) (others : list SlideList.other)
  (st : SlideList.state).

Lemma someoneElseOn_true (id : string) others :
  (∃ o p, o ∈ others ∧ SlideList.presence o = Some p
          ∧ Presence.currentSlideId p = Some id) →
  SlideList.someoneElseOn id others = true.
Proof.
  intros (o & p & Hin & Hp & Hid). unfold SlideList.someoneElseOn.
  apply existsb_exists. exists o. split; [by apply list_elem_of_In|].
  rewrite Hp. by apply bool_decide_eq_true.
Qed.

(** C9 (as amended).  When the effect runs with more slides than at its
    previous run, that previous count being non-zero, and the id of the
    last slide is the current slide of some other participant while the
    local participant is not on that slide, then the local presence is
    switched to the new slide and its editing text box is cleared; the
    other presence fields are kept and the new count is remembered. *)
Theorem autoFollow_switches slides others st (newSlide : Slide.t) :
  (0 < SlideList.prevSlideCountRef st)%nat →
  (SlideList.prevSlideCountRef st < length slides)%nat →
  last slides = Some newSlide →
  (∃ o p, o ∈ others ∧ SlideList.presence o = Some p
          ∧ Presence.currentSlideId p = Some (Slide.id newSlide)) →
  Presence.currentSlideId (SlideList.myPresence st)
    ≠ Some (Slide.id newSlide) →
  let st' := SlideList.autoFollowEffect (Some slides) others st in
  Presence.currentSlideId (SlideList.myPresence st')
    = Some (Slide.id newSlide)
  ∧ Presence.editingTextBoxId (SlideList.myPresence st') = None
  ∧ Presence.cursor (SlideList.myPresence st')
      = Presence.cursor (SlideList.myPresence st)
  ∧ Presence.userName (SlideList.myPresence st')
      = Presence.userName (SlideList.myPresence st)
  ∧ Presence.userColor (SlideList.myPresence st')
      = Presence.userColor (SlideList.myPresence st)
  ∧ SlideList.prevSlideCountRef st' = length slides.
Proof.
  intros Hpos Hgrow Hlast Hother Hme st'. subst st'.
  unfold SlideList.autoFollowEffect.
  rewrite (proj2 (Nat.ltb_lt _ _) Hgrow), (proj2 (Nat.ltb_lt _ _) Hpos).
  cbn [andb]. rewrite last_lookup in Hlast.
  replace (length slides - 1)%nat with (pred (length slides)) by lia.
  rewrite Hlast, (someoneElseOn_true _ _ Hother).
  rewrite bool_decide_eq_false_2 by done. cbn. done.
Qed.

(** C9 as first stated fails: when the first slide arrives (the previous
    count is zero), the count grows and a collaborator is on the new slide,
    yet the local presence is not switched. *)
Lemma autoFollow_first_slide_ignored :
  (SlideList.prevSlideCountRef Sample.freshState
     < length [Sample.slide "a"])%nat
  ∧ last [Sample.slide "a"] = Some (Sample.slide "a")
  ∧ SlideList.someoneElseOn "a" Sample.othersOnA = true
  ∧ Presence.currentSlideId (SlideList.myPresence Sample.freshState)
      ≠ Some "a"
  ∧ Presence.currentSlideId
      (SlideList.myPresence
         (SlideList.autoFollowEffect (Some [Sample.slide "a"])
            Sample.othersOnA Sample.freshState))
      ≠ Some "a".
Proof. split_and!; [cbn; lia|done..]. Qed.

Lemma autoFollow_switches_witness :
  (0 < SlideList.prevSlideCountRef Sample.seenOne)%nat
  ∧ (SlideList.prevSlideCountRef Sample.seenOne
       < length [Sample.slide "b"; Sample.slide "a"])%nat
  ∧ Presence.currentSlideId
      (SlideList.myPresence
         (SlideList.autoFollowEffect
            (Some [Sample.slide "b"; Sample.slide "a"]) Sample.othersOnA Sample.seenOne))
    = Some "a".
Proof.
  assert (0 < SlideList.prevSlideCountRef Sample.seenOne)%nat as H0 by (cbn; lia).
  assert (SlideList.prevSlideCountRef Sample.seenOne
            < length [Sample.slide "b"; Sample.slide "a"])%nat as H1 by (cbn; lia).
  split; [exact H0|]. split; [exact H1|].
  refine (proj1 (autoFollow_switches [Sample.slide "b"; Sample.slide "a"]
                   Sample.othersOnA Sample.seenOne (Sample.slide "a") H0 H1 eq_refl _ _)).
  - eexists _, _. split; [apply list_elem_of_here|]. split; reflexivity.
  - discriminate.
Defined.
End auto_follow.

(** ** The diff of [setValue] *)

Section strings.
Local Notation "'chars'" := String.list_ascii_of_string.

Lemma chars_length (s : string) : length (chars s) = String.length s.
Proof. induction s as [|c s IH]; cbn; [done|]. by rewrite IH. Qed.

Lemma chars_get (s : string) (i : nat) : String.get i s = chars s !! i.
Proof.
  revert i. induction s as [|c s IH]; intros [|i]; cbn; try done.
Qed.

Lemma chars_app (s1 s2 : string) : chars (s1 +:+ s2) = chars s1 ++ chars s2.
Proof.
  induction s1 as [|c s1 IH]; [done|].
  change (String c s1 +:+ s2) with (String c (s1 +:+ s2)). cbn. by rewrite IH.
Qed.

Lemma chars_substring (n m : nat) (s : string) :
  chars (String.substring n m s) = take m (drop n (chars s)).
Proof.
  revert n m. induction s as [|c s IH]; intros [|n] [|m]; cbn;
    rewrite ?IH; done.
Qed.

Lemma chars_inj (s1 s2 : string) : chars s1 = chars s2 → s1 = s2.
Proof.
  intros H. rewrite <- (String.string_of_list_ascii_of_string s1),
    <- (String.string_of_list_ascii_of_string s2). by rewrite H.
Qed.

Lemma index_chars (s : string) (i : Z) :
  0 ≤ i → JS.index s i = chars s !! Z.to_nat i.
Proof. intros Hi. unfold JS.index. rewrite decide_True by done. apply chars_get. Qed.

Lemma slice_chars (s : string) (a b : Z) :
  0 ≤ a → a ≤ b → b ≤ JS.length s →
  chars (JS.slice s a b) = take (Z.to_nat (b - a)) (drop (Z.to_nat a) (chars s)).
Proof.
  intros Ha Hab Hb. unfold JS.slice.
  rewrite !decide_False by lia. rewrite chars_substring.
  by rewrite !Z.min_l by lia.
Qed.
End strings.

Section diff.
Local Notation "'chars'" := String.list_ascii_of_string.

Lemma prefixLoop_spec (prev next : string) (i : Z) :
  0 ≤ i → i ≤ JS.length prev → i ≤ JS.length next →
  let p := Diff.prefixLoop prev next i in
  i ≤ p ∧ p ≤ JS.length prev ∧ p ≤ JS.length next
  ∧ (∀ k, i ≤ k < p → JS.index prev k = JS.index next k).
Proof.
  apply (Diff.prefixLoop_elim
    (λ prev next i p,
       0 ≤ i → i ≤ JS.length prev → i ≤ JS.length next →
       i ≤ p ∧ p ≤ JS.length prev ∧ p ≤ JS.length next
       ∧ (∀ k, i ≤ k < p → JS.index prev k = JS.index next k))).
  - clear. intros prev next i Hc IH _ H0 H1 H2.
    unfold Diff.prefixCond in Hc.
    apply andb_true_iff in Hc as [Hc Heq]. apply andb_true_iff in Hc as [Hp Hn].
    apply bool_decide_eq_true in Hp, Hn, Heq.
    destruct IH as (Hle & Hlp & Hln & Hk); [lia..|].
    split_and!; [lia..|]. intros k Hk'.
    destruct (decide (k = i)) as [->|]; [done|]. apply Hk. lia.
  - clear. intros prev next i _ _ H0 H1 H2. split_and!; [lia..|]. intros k ?. lia.
Qed.

Lemma suffixLoop_spec (prev next : string) (p j : Z) :
  0 ≤ j → j ≤ JS.length prev - p → j ≤ JS.length next - p →
  let s := Diff.suffixLoop prev next p j in
  j ≤ s ∧ s ≤ JS.length prev - p ∧ s ≤ JS.length next - p
  ∧ (∀ k, j ≤ k < s →
       JS.index prev (JS.length prev - 1 - k)
       = JS.index next (JS.length next - 1 - k)).
Proof.
  apply (Diff.suffixLoop_elim
    (λ prev next p j s,
       0 ≤ j → j ≤ JS.length prev - p → j ≤ JS.length next - p →
       j ≤ s ∧ s ≤ JS.length prev - p ∧ s ≤ JS.length next - p
       ∧ (∀ k, j ≤ k < s →
            JS.index prev (JS.length prev - 1 - k)
            = JS.index next (JS.length next - 1 - k)))).
  - clear. intros prev next p j Hc IH _ H0 H1 H2.
    unfold Diff.suffixCond in Hc.
    apply andb_true_iff in Hc as [Hc Heq]. apply andb_true_iff in Hc as [Hp Hn].
    apply bool_decide_eq_true in Hp, Hn, Heq.
    destruct IH as (Hle & Hlp & Hln & Hk); [lia..|].
    split_and!; [lia..|]. intros k Hk'.
    destruct (decide (k = j)) as [->|]; [done|]. apply Hk. lia.
  - clear. intros prev next p j _ _ H0 H1 H2. split_and!; [lia..|]. intros k ?. lia.
Qed.

Lemma splice_lists {A} (P N : list A) (p s : nat) :
  (p + s ≤ length P)%nat → (p + s ≤ length N)%nat →
  take p P = take p N →
  drop (length P - s) P = drop (length N - s) N →
  take p P ++ take (length N - s - p) (drop p N) ++ drop (length P - s) P = N.
Proof.
  intros HP HN -> ->. rewrite app_assoc, take_take_drop.
  replace (p + (length N - s - p))%nat with (length N - s)%nat by lia.
  apply take_drop.
Qed.

Lemma common_prefix (P N : string) (p : Z) :
  0 ≤ p → p ≤ JS.length P → p ≤ JS.length N →
  (∀ k, 0 ≤ k < p → JS.index P k = JS.index N k) →
  take (Z.to_nat p) (chars P) = take (Z.to_nat p) (chars N).
Proof.
  intros H0 HP HN Hk. apply list_eq. intros i.
  destruct (decide (i < Z.to_nat p)%nat) as [Hi|Hi].
  - rewrite !lookup_take_lt by done.
    specialize (Hk (Z.of_nat i)). rewrite !index_chars in Hk by lia.
    rewrite Nat2Z.id in Hk. apply Hk. lia.
  - by rewrite !lookup_take_ge by lia.
Qed.

Lemma common_suffix (P N : string) (s : Z) :
  0 ≤ s → s ≤ JS.length P → s ≤ JS.length N →
  (∀ k, 0 ≤ k < s →
     JS.index P (JS.length P - 1 - k) = JS.index N (JS.length N - 1 - k)) →
  drop (length (chars P) - Z.to_nat s) (chars P)
  = drop (length (chars N) - Z.to_nat s) (chars N).
Proof.
  unfold JS.length. rewrite <- !chars_length.
  intros H0 HP HN Hk. apply list_eq. intros i. rewrite !lookup_drop.
  destruct (decide (i < Z.to_nat s)%nat) as [Hi|Hi].
  - specialize (Hk (s - 1 - Z.of_nat i)). rewrite !index_chars in Hk by lia.
    replace (Z.to_nat (Z.of_nat (length (chars P)) - 1 - (s - 1 - Z.of_nat i)))
      with (length (chars P) - Z.to_nat s + i)%nat in Hk by lia.
    replace (Z.to_nat (Z.of_nat (length (chars N)) - 1 - (s - 1 - Z.of_nat i)))
      with (length (chars N) - Z.to_nat s + i)%nat in Hk by lia.
    apply Hk. lia.
  - rewrite !lookup_ge_None_2 by lia. done.
Qed.

Lemma apply_delete_chars (p d : Z) (c : string) :
  chars (Y.apply_op (Y.Delete p d) c)
  = take (Z.to_nat p) (chars c) ++ drop (Z.to_nat (p + d)) (chars c).
Proof.
  cbn. rewrite chars_app, !chars_substring, drop_0. f_equal.
  apply take_ge. rewrite length_drop, chars_length. lia.
Qed.

Lemma apply_insert_chars (p : Z) (t c : string) :
  chars (Y.apply_op (Y.Insert p t) c)
  = take (Z.to_nat p) (chars c) ++ chars t ++ drop (Z.to_nat p) (chars c).
Proof.
  cbn. rewrite !chars_app, !chars_substring, drop_0. do 2 f_equal.
  apply take_ge. rewrite length_drop, chars_length. lia.
Qed.

Lemma apply_delete_nothing (p : Z) (c : string) :
  Y.apply_op (Y.Delete p 0) c = c.
Proof.
  apply chars_inj. rewrite apply_delete_chars, Z.add_0_r. apply take_drop.
Qed.

Lemma apply_insert_nothing (p : Z) (c : string) :
  Y.apply_op (Y.Insert p "") c = c.
Proof. apply chars_inj. rewrite apply_insert_chars. cbn. apply take_drop. Qed.

(** The example of the doc comment of [setValue]: from ["Hello"] to
    ["Hello World"] the prefix is 5, the suffix 0, nothing is deleted and
    [" World"] is inserted at 5. *)
Example diff_hello :
  Diff.diff "Hello" "Hello World"
  = {| Diff.prefixLen := 5; Diff.suffixLen := 0; Diff.deleteLen := 0;
       Diff.insertText := " World" |}
  ∧ Y.diffOps "Hello" "Hello World" = [Y.Insert 5 " World"].
Proof. split; reflexivity. Qed.

(** A replacement in the middle, and a deletion inside a run of equal
    characters (the prefix loop takes all it can, the suffix loop stops at
    the prefix). *)
Example diff_middle :
  Diff.diff "aXb" "aYYb"
  = {| Diff.prefixLen := 1; Diff.suffixLen := 1; Diff.deleteLen := 1;
       Diff.insertText := "YY" |}
  ∧ Y.diffOps "aa" "a" = [Y.Delete 1 1].
Proof. split; reflexivity. Qed.

(** What the two loops establish, on the code units of [P] and [N]. *)
Lemma diff_invariants (P N : string) :
  let p := Diff.prefixLen (Diff.diff P N) in
  let s := Diff.suffixLen (Diff.diff P N) in
  0 ≤ p ∧ 0 ≤ s ∧ p + s ≤ JS.length P ∧ p + s ≤ JS.length N
  ∧ take (Z.to_nat p) (chars P) = take (Z.to_nat p) (chars N)
  ∧ drop (length (chars P) - Z.to_nat s) (chars P)
    = drop (length (chars N) - Z.to_nat s) (chars N).
Proof.
  intros p s.
  assert (0 ≤ JS.length P ∧ 0 ≤ JS.length N) as [HlP HlN]
    by (unfold JS.length; lia).
  destruct (prefixLoop_spec P N 0) as (Hp0 & HpP & HpN & Hpre); [lia..|].
  change (Diff.prefixLoop P N 0) with p in *.
  destruct (suffixLoop_spec P N p 0) as (Hs0 & HsP & HsN & Hsuf); [lia..|].
  change (Diff.suffixLoop P N p 0) with s in *.
  split_and!; [lia..| |].
  - by apply common_prefix.
  - apply common_suffix; [lia..|done].
Qed.

(** Deleting [deleteLen] code units at [prefixLen] and inserting
    [insertText] there turns [P] into [N]. *)
Lemma diff_splice (P N : string) :
  let d := Diff.diff P N in
  Y.apply_op (Y.Insert (Diff.prefixLen d) (Diff.insertText d))
    (Y.apply_op (Y.Delete (Diff.prefixLen d) (Diff.deleteLen d)) P) = N.
Proof.
  intros d.
  destruct (diff_invariants P N) as (Hp0 & Hs0 & HP & HN & Htake & Hdrop).
  fold d in Hp0, Hs0, HP, HN, Htake, Hdrop.
  set (p := Diff.prefixLen d) in *. set (s := Diff.suffixLen d) in *.
  apply chars_inj. rewrite apply_insert_chars, apply_delete_chars.
  rewrite take_app_le
    by (rewrite length_take, chars_length; unfold JS.length in *; lia).
  rewrite take_take, Nat.min_id.
  rewrite drop_app_length'
    by (rewrite length_take, chars_length; unfold JS.length in *; lia).
  change (Diff.insertText d) with (JS.slice N p (JS.length N - s)).
  rewrite slice_chars by lia.
  change (Diff.deleteLen d) with (JS.length P - p - s).
  unfold JS.length in *. rewrite <- !chars_length in *.
  replace (Z.to_nat (p + (Z.of_nat (length (chars P)) - p - s)))
    with (length (chars P) - Z.to_nat s)%nat by lia.
  replace (Z.to_nat (Z.of_nat (length (chars N)) - s - p))
    with (length (chars N) - Z.to_nat s - Z.to_nat p)%nat by lia.
  apply splice_lists; [lia..|done|done].
Qed.

(** The calls [setValue] makes (an empty delete or insert is skipped) turn
    [P] into [N] as well. *)
Lemma diffOps_apply (P N : string) : Y.apply_ops (Y.diffOps P N) P = N.
Proof.
  rewrite <- (diff_splice P N) at 2.
  destruct (diff_invariants P N) as (Hp0 & Hs0 & HP & HN & _).
  unfold Y.diffOps, Y.apply_ops.
  set (d := Diff.diff P N) in *.
  assert (JS.length (Diff.insertText d) ≤ 0 → Diff.insertText d = "") as Hins.
  { destruct (Diff.insertText d); [done|]. unfold JS.length. cbn. lia. }
  assert (Diff.deleteLen d ≤ 0 → Diff.deleteLen d = 0) as Hdel.
  { change (Diff.deleteLen d)
      with (JS.length P - Diff.prefixLen d - Diff.suffixLen d). lia. }
  destruct (decide (0 < Diff.deleteLen d)) as [Hd|Hd];
    destruct (decide (0 < JS.length (Diff.insertText d))) as [Hi|Hi];
    cbn [app foldl];
    rewrite ?Hins, ?Hdel, ?apply_insert_nothing, ?apply_delete_nothing by lia;
    done.
Qed.

(** C1. For the text [P] of the bound sequence and the argument [N] of
    [setValue], [P ≠ N], the diff computed inside [setValue] has a common
    prefix of length [p] and a common suffix of length [s] with
    [P[0:p] = N[0:p]] and [P[|P|-s:] = N[|N|-s:]], [p + s ≤ min(|P|,|N|)],
    deletes [|P| - p - s] characters, inserts [N[p : |N|-s]], and deleting
    at [p] and then inserting at [p] turns [P] into [N]; so do the calls
    [setValue] really makes (it skips an empty delete or insert). *)
Theorem setValue_diff (P N : string) :
  P ≠ N →
  let d := Diff.diff P N in
  let p := Diff.prefixLen d in
  let s := Diff.suffixLen d in
  0 ≤ p ∧ 0 ≤ s
  ∧ JS.slice P 0 p = JS.slice N 0 p
  ∧ JS.slice P (JS.length P - s) (JS.length P)
    = JS.slice N (JS.length N - s) (JS.length N)
  ∧ p + s ≤ Z.min (JS.length P) (JS.length N)
  ∧ Diff.deleteLen d = JS.length P - p - s
  ∧ Diff.insertText d = JS.slice N p (JS.length N - s)
  ∧ Y.apply_op (Y.Insert p (Diff.insertText d))
      (Y.apply_op (Y.Delete p (Diff.deleteLen d)) P) = N
  ∧ Y.apply_ops (Y.diffOps P N) P = N.
Proof.
  intros _ d p s.
  destruct (diff_invariants P N) as (Hp0 & Hs0 & HP & HN & Htake & Hdrop).
  fold d in Hp0, Hs0, HP, HN, Htake, Hdrop. fold p in Hp0, HP, HN, Htake.
  fold s in Hs0, HP, HN, Hdrop.
  split_and!; try done; try lia.
  - apply chars_inj. rewrite !slice_chars by lia. by rewrite Z.sub_0_r, !drop_0.
  - apply chars_inj. rewrite !slice_chars by lia.
    unfold JS.length in *. rewrite <- !chars_length in *.
    replace (Z.to_nat (Z.of_nat (length (chars P)) - s))
      with (length (chars P) - Z.to_nat s)%nat by lia.
    replace (Z.to_nat (Z.of_nat (length (chars N)) - s))
      with (length (chars N) - Z.to_nat s)%nat by lia.
    rewrite Hdrop. f_equal. lia.
  - apply diff_splice.
  - apply diffOps_apply.
Qed.

Lemma setValue_diff_witness :
  ("Hello" : string) ≠ "Hello World"
  ∧ Y.apply_ops (Y.diffOps "Hello" "Hello World") "Hello" = "Hello World".
Proof.
  assert (("Hello" : string) ≠ "Hello World") as H by discriminate.
  split; [exact H|].
  exact (proj2 (proj2 (proj2 (proj2 (proj2 (proj2 (proj2 (proj2
           (setValue_diff "Hello" "Hello World" H))))))))).
Defined.
End diff.

(** ** The binding of [useYText] *)

Section binding.
Implicit Types (w : Y.world) (r : Y.ref) (o : Y.origin).

Lemma notify_fold_frame (l : list Y.ref) w :
  let w' := foldl (λ w captured, Y.observer captured w) w l in
  Y.store w' = Y.store w ∧ Y.textboxes w' = Y.textboxes w
  ∧ Y.mapObservers w' = Y.mapObservers w
  ∧ Y.transactions w' = Y.transactions w.
Proof.
  revert w. induction l as [|c l IH]; intros w; cbn; [done|].
  destruct (IH (Y.observer c w)) as (-> & -> & -> & ->). done.
Qed.

Lemma notify_frame r w :
  Y.store (Y.notify r w) = Y.store w
  ∧ Y.textboxes (Y.notify r w) = Y.textboxes w
  ∧ Y.mapObservers (Y.notify r w) = Y.mapObservers w
  ∧ Y.transactions (Y.notify r w) = Y.transactions w.
Proof. apply notify_fold_frame. Qed.

(** The text of the target after a transaction. *)
Lemma transact_toString o r ops w :
  Y.toString r (Y.transact o r ops w) = Y.apply_ops ops (Y.toString r w).
Proof.
  unfold Y.transact, Y.toString.
  destruct ops as [|op ops].
  - cbn. by rewrite fn_lookup_insert.
  - destruct (notify_frame r
      (Y.record {| Y.tx_origin := o; Y.tx_change := Y.TextChange r (op :: ops) |}
         (Y.with_text r
            (λ t, {| Y.content := Y.apply_ops (op :: ops) (Y.content t);
                     Y.observers := Y.observers t |}) w))) as (-> & _).
    cbn [Y.record Y.with_text Y.store]. by rewrite fn_lookup_insert.
Qed.

(** A transaction is recorded once, with its origin. *)
Lemma transact_transactions o r ops w :
  Y.transactions (Y.transact o r ops w)
  = Y.transactions w
      ++ [{| Y.tx_origin := o; Y.tx_change := Y.TextChange r ops |}].
Proof.
  unfold Y.transact. destruct ops as [|op ops]; [done|].
  by destruct (notify_frame r
      (Y.record {| Y.tx_origin := o; Y.tx_change := Y.TextChange r (op :: ops) |}
         (Y.with_text r
            (λ t, {| Y.content := Y.apply_ops (op :: ops) (Y.content t);
                     Y.observers := Y.observers t |}) w))) as (_ & _ & _ & ->).
Qed.

(** [setValue] leaves the next value as the text of the sequence. *)
Lemma setValue_toString o r (next : string) w :
  Y.toString r (Y.setValue o r next w) = next.
Proof.
  unfold Y.setValue. destruct (decide (Y.toString r w = next)) as [|Hne]; [done|].
  rewrite transact_toString. apply diffOps_apply.
Qed.

(** C3. [setValue(x)] called when the text of the bound sequence already
    is [x] leaves everything as it is: no transaction is recorded and the
    sequence is unchanged.  Hence, of two calls [setValue(x)] in a row the
    second changes nothing, and both together record at most one
    transaction. *)
Theorem setValue_noop o r (x : string) w :
  (Y.toString r w = x → Y.setValue o r x w = w)
  ∧ (let w1 := Y.setValue o r x w in
     Y.setValue o r x w1 = w1
     ∧ (length (Y.transactions (Y.setValue o r x w1))
        ≤ length (Y.transactions w) + 1)%nat
     ∧ Y.toString r (Y.setValue o r x w1) = x).
Proof.
  assert (∀ w', Y.toString r w' = x → Y.setValue o r x w' = w') as Hnoop.
  { intros w' Hx. unfold Y.setValue. by rewrite decide_True. }
  split; [apply Hnoop|]. intros w1.
  assert (Y.setValue o r x w1 = w1) as ->
    by apply Hnoop, setValue_toString.
  split_and!; [done| |apply setValue_toString].
  subst w1. unfold Y.setValue. destruct (decide (Y.toString r w = x)); [lia|].
  rewrite transact_transactions, length_app. cbn. lia.
Qed.

(** [onMapChange] touches nothing but the two state cells of the hook. *)
Lemma onMapChange_frame (k : string) r (keys : gset string) w :
  let w' := Y.onMapChange k r keys w in
  Y.store w' = Y.store w ∧ Y.textboxes w' = Y.textboxes w
  ∧ Y.mapObservers w' = Y.mapObservers w
  ∧ Y.transactions w' = Y.transactions w
  ∧ Y.key (Y.hk w') = Y.key (Y.hk w)
  ∧ Y.originRef (Y.hk w') = Y.originRef (Y.hk w)
  ∧ Y.mounted (Y.hk w') = Y.mounted (Y.hk w).
Proof.
  unfold Y.onMapChange. destruct (decide (k ∈ keys)); [|done].
  destruct (Y.textboxes w !! k) as [latest|]; [|done].
  by destruct (decide (latest ≠ r)).
Qed.

Lemma onMapChange_shows (k k' : string) r new w :
  Y.textboxes w !! k = Some new →
  (shows new w ∨ (k' = k ∧ r ≠ new)) →
  shows new (Y.onMapChange k' r {[k]} w).
Proof.
  intros Hnew Hcase. unfold Y.onMapChange.
  destruct (decide (k' ∈ ({[k]} : gset string))) as [Hin|Hout].
  - apply elem_of_singleton in Hin as ->. rewrite Hnew.
    destruct (decide (new ≠ r)) as [Hne|Heq]; [done|].
    destruct Hcase as [?|[_ ?]]; [done|]. destruct Heq. congruence.
  - destruct Hcase as [?|[-> _]]; [done|]. destruct Hout. by apply elem_of_singleton.
Qed.

Lemma mapObservers_fold (k : string) new (l : list (string * Y.ref)) w :
  Y.textboxes w !! k = Some new →
  let w' := foldl (λ w '(key, captured), Y.onMapChange key captured {[k]} w) w l in
  (Y.store w' = Y.store w ∧ Y.textboxes w' = Y.textboxes w
   ∧ Y.mapObservers w' = Y.mapObservers w
   ∧ Y.transactions w' = Y.transactions w
   ∧ Y.key (Y.hk w') = Y.key (Y.hk w)
   ∧ Y.originRef (Y.hk w') = Y.originRef (Y.hk w)
   ∧ Y.mounted (Y.hk w') = Y.mounted (Y.hk w))
  ∧ (shows new w ∨ (∃ old, (k, old) ∈ l ∧ old ≠ new) → shows new w').
Proof.
  revert w. induction l as [|[k' c] l IH]; intros w Hnew; cbn.
  - split; [done|]. intros [?|(old & Hin & _)]; [done|]. by apply elem_of_nil in Hin.
  - pose proof (onMapChange_frame k' c {[k]} w) as (Hs & Ht & Hm & Hx & Hk & Ho & Hmt).
    destruct (IH (Y.onMapChange k' c {[k]} w)) as [Hframe Hshows].
    { by rewrite Ht. }
    split.
    + destruct Hframe as (-> & -> & -> & -> & -> & -> & ->). done.
    + intros Hcase. apply Hshows.
      destruct Hcase as [Hsh|(old & Hin & Hne)].
      * left. apply onMapChange_shows; auto.
      * apply elem_of_cons in Hin as [Heq|Hin].
        -- injection Heq as <- <-. left. apply onMapChange_shows; auto.
        -- right. eauto.
Qed.

(** [map.set(k, new)]: the entry and the log change, the observers run. *)
Lemma mapSet_spec o (k : string) (new : Y.ref) w :
  let w1 := Y.mapSet o k new w in
  Y.store w1 = Y.store w
  ∧ Y.textboxes w1 = <[k := new]> (Y.textboxes w)
  ∧ Y.mapObservers w1 = Y.mapObservers w
  ∧ Y.transactions w1
    = Y.transactions w ++ [{| Y.tx_origin := o; Y.tx_change := Y.MapSet k new |}]
  ∧ Y.key (Y.hk w1) = Y.key (Y.hk w)
  ∧ Y.originRef (Y.hk w1) = Y.originRef (Y.hk w)
  ∧ Y.mounted (Y.hk w1) = Y.mounted (Y.hk w)
  ∧ ((∃ old, (k, old) ∈ Y.mapObservers w ∧ old ≠ new) → shows new w1).
Proof.
  unfold Y.mapSet.
  match goal with
  | |- context [foldl ?f ?w0 ?l] =>
      destruct (mapObservers_fold k new l w0) as [Hframe Hshows]
  end.
  { cbn. apply lookup_insert_eq. }
  cbn in *. destruct Hframe as (-> & -> & -> & -> & -> & -> & ->).
  split_and!; try done. intros Hold. apply Hshows. by right.
Qed.


(** Every transaction [setValue] records carries the origin it closed
    over (the hook passes its [Symbol('user-origin')]). *)
Lemma setValue_origin o r (next : string) w (tx : Y.transaction) :
  tx ∈ Y.transactions (Y.setValue o r next w) →
  tx ∈ Y.transactions w ∨ Y.tx_origin tx = o.
Proof.
  unfold Y.setValue. destruct (decide (Y.toString r w = next)); [by left|].
  rewrite transact_transactions, elem_of_app, list_elem_of_singleton.
  intros [?| ->]; [by left|by right].
Qed.

(** The undo manager the effects create tracks the origin of the hook and
    nothing else, on the current sequence. *)
Lemma commitEffects_undoManager w :
  Y.mounted (Y.hk w) ≠ Some (Y.yText (Y.hk w)) →
  Y.undoManagerRef (Y.hk (Y.commitEffects w))
  = Some {| Y.scope := Y.yText (Y.hk w);
            Y.trackedOrigins := {[ Y.originRef (Y.hk w) ]} |}.
Proof.
  intros Hdep. unfold Y.commitEffects.
  destruct (Y.mounted (Y.hk w)) as [old|]; [|done].
  rewrite decide_False by congruence. done.
Qed.

(** The first commit binds the hook to its initial sequence. *)
Lemma commitEffects_binds w :
  Y.mounted (Y.hk w) = None → bound (Y.yText (Y.hk w)) (Y.commitEffects w).
Proof.
  intros Hnone. unfold Y.commitEffects. rewrite Hnone.
  unfold bound, Y.runEffects. cbn. rewrite fn_lookup_insert. cbn.
  split_and!; try done; apply elem_of_app; right; apply list_elem_of_here.
Qed.

Lemma setValue_noop_witness :
  Y.toString 1%nat Sample.world1 = "Hello"
  ∧ Y.setValue 7%nat 1%nat "Hello" Sample.world1 = Sample.world1.
Proof.
  split; [reflexivity|].
  exact (proj1 (setValue_noop 7%nat 1%nat "Hello" Sample.world1) eq_refl).
Defined.
End binding.

(** * Further properties *)

(** ** The slide store: more mutations and how they compose *)

Section store_more.
Implicit Types (storage : Storage.t) (slide : Slide.t) (slides : list Slide.t).

(** X1. Adding a slide and deleting the returned id gives the slide list
    back, provided no slide had that id before. *)
Theorem addSlide_deleteSlide (stamp suffix : string) (now : Z) storage :
  let r := SlideManagement.addSlide stamp suffix now storage in
  (r.1 ∉ (Slide.id <$> Storage.slides storage)) →
  Storage.slides (SlideManagement.deleteSlide r.1 r.2) = Storage.slides storage.
Proof.
  intros r Hfresh. subst r. unfold SlideManagement.addSlide, SlideManagement.deleteSlide,
    Storage.get_slides in *. cbn [fst snd Storage.slides Storage.set_slides Slide.id] in *.
  rewrite filter_app, filter_cons_False, filter_nil, app_nil_r by (cbn; tauto).
  apply filter_all, Forall_forall. intros slide Hin Heq.
  apply Hfresh, list_elem_of_fmap. by exists slide.
Qed.

Lemma addSlide_deleteSlide_witness :
  ((SlideManagement.addSlide "1700000000000" "k3x9" 1700000000000
      Sample.storageAbc).1
   ∉ (Slide.id <$> Storage.slides Sample.storageAbc))
  ∧ Storage.slides
      (SlideManagement.deleteSlide
         (SlideManagement.addSlide "1700000000000" "k3x9" 1700000000000
            Sample.storageAbc).1
         (SlideManagement.addSlide "1700000000000" "k3x9" 1700000000000
            Sample.storageAbc).2)
    = Sample.abc.
Proof.
  assert ((SlideManagement.addSlide "1700000000000" "k3x9" 1700000000000
             Sample.storageAbc).1
          ∉ (Slide.id <$> Storage.slides Sample.storageAbc)) as Hfresh.
  { cbn. rewrite !not_elem_of_cons. split_and!; try discriminate.
    apply not_elem_of_nil. }
  split; [exact Hfresh|].
  exact (addSlide_deleteSlide "1700000000000" "k3x9" 1700000000000
           Sample.storageAbc Hfresh).
Defined.

Lemma addTextBox_unmatched (userId : string) (positions : nat → Z * Z)
    (clock : nat → Z) (slideId providedId initialText : string) storage :
  (slideId ∉ (Slide.id <$> Storage.slides storage)) →
  Storage.slides
    (TextBoxManagement.addTextBoxMutation userId positions clock
       slideId providedId initialText storage)
  = Storage.slides storage.
Proof.
  intros Hfresh.
  unfold TextBoxManagement.addTextBoxMutation, Storage.get_slides. cbn.
  apply list_eq. intros i. rewrite list_lookup_imap.
  destruct (Storage.slides storage !! i) as [slide|] eqn:Hi; [|done]. cbn.
  unfold TextBoxManagement.addToSlide. rewrite decide_False; [done|].
  intros Heq. apply Hfresh, list_elem_of_fmap. exists slide.
  split; [done|]. by eapply list_elem_of_lookup_2.
Qed.

Lemma deleteSlide_gone (slideId : string) storage :
  slideId ∉ (Slide.id <$> Storage.slides (SlideManagement.deleteSlide slideId storage)).
Proof.
  unfold SlideManagement.deleteSlide, Storage.get_slides. cbn.
  rewrite list_elem_of_fmap. intros (slide & -> & Hin).
  apply list_elem_of_filter in Hin as [Hne _]. by apply Hne.
Qed.

(** X2. [addTextBox] keeps the number and order of the slides and leaves
    every slide with another id unchanged.  A slide with the given id keeps
    its id, creation time and further properties, and its colour when that
    is a non-empty string (it becomes ["white"] otherwise); its [textBoxes]
    becomes the array of the old boxes, all of them and in their order,
    followed by exactly one new box, and just the new box when the old
    [textBoxes] is not an array.  The new box has the provided id and text,
    the position drawn for this slide, the default size, font size and
    colour, the user as creator and the time of the call. *)
Theorem addTextBox_frame (userId : string) (positions : nat → Z * Z)
    (clock : nat → Z) (slideId providedId initialText : string) storage :
  let storage' :=
    TextBoxManagement.addTextBoxMutation userId positions clock
      slideId providedId initialText storage in
  length (Storage.slides storage') = length (Storage.slides storage)
  ∧ (∀ i slide, Storage.slides storage !! i = Some slide →
       Slide.id slide ≠ slideId → Storage.slides storage' !! i = Some slide)
  ∧ (∀ i slide, Storage.slides storage !! i = Some slide →
       Slide.id slide = slideId →
       ∃ slide' newTextBox,
         Storage.slides storage' !! i = Some slide'
         ∧ Slide.id slide' = Slide.id slide
         ∧ Slide.createdAt slide' = Slide.createdAt slide
         ∧ Slide.otherProps slide' = Slide.otherProps slide
         ∧ (∀ c, Slide.backgroundColor slide = Some c → c ≠ "" →
              Slide.backgroundColor slide' = Some c)
         ∧ (Slide.backgroundColor slide = None
            ∨ Slide.backgroundColor slide = Some "" →
              Slide.backgroundColor slide' = Some "white")
         ∧ (∀ boxes, Slide.textBoxes slide = Slide.TbArray boxes →
              Slide.textBoxes slide' = Slide.TbArray (boxes ++ [newTextBox]))
         ∧ (∀ v, Slide.textBoxes slide = Slide.TbNotArray v →
              Slide.textBoxes slide' = Slide.TbArray [newTextBox])
         ∧ newTextBox
           = {| TextBox.id := providedId; TextBox.text := initialText;
                TextBox.x := (positions i).1; TextBox.y := (positions i).2;
                TextBox.width := 200; TextBox.height := 100;
                TextBox.fontSize := 16; TextBox.color := "gray.900";
                TextBox.createdBy := userId; TextBox.createdAt := clock i |})
  ∧ ((slideId ∉ (Slide.id <$> Storage.slides storage)) →
       Storage.slides storage' = Storage.slides storage).
Proof.
  intros storage'. subst storage'.
  unfold TextBoxManagement.addTextBoxMutation, Storage.get_slides.
  cbn [Storage.slides Storage.set_slides]. split_and!.
  - by rewrite length_imap.
  - intros i slide Hi Hne. rewrite list_lookup_imap, Hi. cbn.
    unfold TextBoxManagement.addToSlide. by rewrite decide_False.
  - intros i slide Hi Heq. rewrite list_lookup_imap, Hi. cbn.
    unfold TextBoxManagement.addToSlide. rewrite decide_True by done.
    eexists _, _. split; [reflexivity|]. cbn.
    unfold Slide.existingTextBoxes, JS.or_string.
    split_and!; try done.
    + intros c -> Hc. by rewrite decide_False.
    + by intros [->| ->].
    + by intros boxes ->.
    + by intros v ->.
  - apply addTextBox_unmatched.
Qed.

Lemma addTextBox_frame_witness :
  Storage.slides Sample.storageBoxes !! 0%nat = Some Sample.slideWithBoxes
  ∧ Slide.id Sample.slideWithBoxes = "a"
  ∧ Slide.textBoxes Sample.slideWithBoxes
    = Slide.TbArray [Sample.box "t1"; Sample.box "t2"]
  ∧ ∃ slide' newTextBox,
      Storage.slides
        (TextBoxManagement.addTextBoxMutation "ada" (λ _, (120, 140))
           Sample.clock "a" "t3" "" Sample.storageBoxes) !! 0%nat
      = Some slide'
      ∧ Slide.textBoxes slide'
        = Slide.TbArray [Sample.box "t1"; Sample.box "t2"; newTextBox]
      ∧ TextBox.id newTextBox = "t3"
      ∧ TextBox.createdBy newTextBox = "ada".
Proof.
  split; [reflexivity|]. split; [reflexivity|]. split; [reflexivity|].
  destruct (proj1 (proj2 (proj2
              (addTextBox_frame "ada" (λ _, (120, 140)) Sample.clock "a" "t3" ""
                 Sample.storageBoxes)))
              0%nat Sample.slideWithBoxes eq_refl eq_refl)
    as (slide' & newTextBox & Hl & _ & _ & _ & _ & _ & Harr & _ & Hnew).
  exists slide', newTextBox.
  split; [exact Hl|].
  split; [exact (Harr [Sample.box "t1"; Sample.box "t2"] eq_refl)|].
  split; [exact (f_equal TextBox.id Hnew)|exact (f_equal TextBox.createdBy Hnew)].
Defined.

(** The box-level function of [updateTextBox]. *)
Lemma updateSlide_id (slideId textBoxId : string) (u : TextBox.partial) slide :
  Slide.id (TextBoxManagement.updateSlide slideId textBoxId u slide)
  = Slide.id slide.
Proof. unfold TextBoxManagement.updateSlide. by case_decide. Qed.

Lemma updateSlide_other (slideId textBoxId : string) (u : TextBox.partial)
    slide :
  Slide.id slide ≠ slideId →
  TextBoxManagement.updateSlide slideId textBoxId u slide = slide.
Proof. intros Hne. unfold TextBoxManagement.updateSlide. by rewrite decide_False. Qed.

Lemma updateSlide_existing (slideId textBoxId : string) (u : TextBox.partial)
    slide :
  Slide.id slide = slideId →
  Slide.existingTextBoxes (TextBoxManagement.updateSlide slideId textBoxId u slide)
  = (λ textBox, if decide (TextBox.id textBox = textBoxId)
                then TextBox.spread textBox u else textBox)
      <$> Slide.existingTextBoxes slide.
Proof.
  intros Heq. unfold TextBoxManagement.updateSlide. by rewrite decide_True.
Qed.

Lemma updateSlide_matching (slideId textBoxId : string) (u : TextBox.partial)
    slide :
  Slide.id slide = slideId →
  TextBoxManagement.updateSlide slideId textBoxId u slide
  = {| Slide.id := Slide.id slide;
       Slide.textBoxes :=
         Slide.TbArray
           ((λ textBox, if decide (TextBox.id textBox = textBoxId)
                        then TextBox.spread textBox u else textBox)
              <$> Slide.existingTextBoxes slide);
       Slide.backgroundColor := Slide.backgroundColor slide;
       Slide.createdAt := Slide.createdAt slide;
       Slide.otherProps := Slide.otherProps slide |}.
Proof.
  intros Heq. unfold TextBoxManagement.updateSlide. by rewrite decide_True.
Qed.

Lemma spread_keeps_id (textBox : TextBox.t) (u : TextBox.partial) :
  TextBox.p_id u = None → TextBox.id (TextBox.spread textBox u) = TextBox.id textBox.
Proof. intros Hid. unfold TextBox.spread. cbn. by rewrite Hid. Qed.

(** Both updates applied to one slide whose [textBoxes] is an array. *)
Lemma updateSlide_twice (s1 t1 s2 t2 : string) (u1 u2 : TextBox.partial)
    slide boxes :
  Slide.textBoxes slide = Slide.TbArray boxes →
  Slide.textBoxes
    (TextBoxManagement.updateSlide s2 t2 u2
       (TextBoxManagement.updateSlide s1 t1 u1 slide))
  = Slide.TbArray
      ((λ textBox,
          let first :=
            if decide (Slide.id slide = s1 ∧ TextBox.id textBox = t1)
            then TextBox.spread textBox u1 else textBox in
          if decide (Slide.id slide = s2 ∧ TextBox.id first = t2)
          then TextBox.spread first u2 else first) <$> boxes).
Proof.
  intros Htb. destruct slide as [i tb bg ca ex]. cbn in *. subst tb.
  unfold TextBoxManagement.updateSlide, Slide.existingTextBoxes. cbn.
  destruct (decide (i = s1)) as [H1|H1]; cbn;
    destruct (decide (i = s2)) as [H2|H2]; cbn.
  - f_equal. rewrite <- list_fmap_compose. apply list_fmap_ext.
    intros _ textBox _. cbn. repeat case_decide; tauto.
  - f_equal. apply list_fmap_ext. intros _ textBox _. cbn.
    repeat case_decide; tauto.
  - f_equal. apply list_fmap_ext. intros _ textBox _. cbn.
    repeat case_decide; tauto.
  - f_equal. symmetry. apply fmap_unchanged. intros textBox _. cbn.
    repeat case_decide; tauto.
Qed.

Lemma spread_merged (textBox : TextBox.t) (u : TextBox.partial) :
  merged textBox u (TextBox.spread textBox u).
Proof. unfold merged, TextBox.spread. cbn. by split_and!. Qed.

(** X3. Two [updateTextBox] calls that target different text boxes (or
    different slides) and do not rewrite the [id] field give the same slide
    list in either order, and neither update is lost: in the result every
    slide that had an array of text boxes has the same boxes in the same
    order, the box the first call targets with exactly the fields of the
    first patch merged in, the box the second call targets with exactly
    those of the second, and every other box as it was. *)
Theorem updateTextBox_commute (s1 t1 s2 t2 : string)
    (u1 u2 : TextBox.partial) storage :
  TextBox.p_id u1 = None → TextBox.p_id u2 = None →
  s1 ≠ s2 ∨ t1 ≠ t2 →
  let both :=
    Storage.slides
      (TextBoxManagement.updateTextBoxMutation s2 t2 u2
         (TextBoxManagement.updateTextBoxMutation s1 t1 u1 storage)) in
  both
  = Storage.slides
      (TextBoxManagement.updateTextBoxMutation s1 t1 u1
         (TextBoxManagement.updateTextBoxMutation s2 t2 u2 storage))
  ∧ length both = length (Storage.slides storage)
  ∧ (∀ i slide boxes,
       Storage.slides storage !! i = Some slide →
       Slide.textBoxes slide = Slide.TbArray boxes →
       ∃ slide' boxes',
         both !! i = Some slide'
         ∧ Slide.id slide' = Slide.id slide
         ∧ Slide.textBoxes slide' = Slide.TbArray boxes'
         ∧ length boxes' = length boxes
         ∧ (∀ j textBox, boxes !! j = Some textBox →
              (Slide.id slide = s1 → TextBox.id textBox = t1 →
                 ∃ textBox', boxes' !! j = Some textBox'
                             ∧ merged textBox u1 textBox')
              ∧ (Slide.id slide = s2 → TextBox.id textBox = t2 →
                   ∃ textBox', boxes' !! j = Some textBox'
                               ∧ merged textBox u2 textBox')
              ∧ (¬ (Slide.id slide = s1 ∧ TextBox.id textBox = t1) →
                 ¬ (Slide.id slide = s2 ∧ TextBox.id textBox = t2) →
                 boxes' !! j = Some textBox))).
Proof.
  intros Hid1 Hid2 Hdiff both. subst both. split_and!.
  - unfold TextBoxManagement.updateTextBoxMutation, Storage.get_slides.
    cbn [Storage.slides Storage.set_slides].
    rewrite <- !list_fmap_compose. apply list_fmap_ext. intros _ slide _. cbn.
    destruct (decide (Slide.id slide = s1)) as [H1|H1];
      destruct (decide (Slide.id slide = s2)) as [H2|H2].
    + rewrite (updateSlide_matching s2 t2 u2
                 (TextBoxManagement.updateSlide s1 t1 u1 slide))
        by (by rewrite updateSlide_id).
      rewrite (updateSlide_matching s1 t1 u1
                 (TextBoxManagement.updateSlide s2 t2 u2 slide))
        by (by rewrite updateSlide_id).
      rewrite (updateSlide_matching s1 t1 u1 slide H1),
        (updateSlide_matching s2 t2 u2 slide H2).
      unfold Slide.existingTextBoxes at 1 3. cbn.
      f_equal. f_equal. rewrite <- !list_fmap_compose.
      apply list_fmap_ext. intros _ textBox _. cbn.
      assert (t1 ≠ t2) as Ht by (destruct Hdiff; congruence).
      pose proof (spread_keeps_id textBox u1 Hid1).
      pose proof (spread_keeps_id textBox u2 Hid2).
      repeat case_decide; congruence.
    + rewrite (updateSlide_other s2 t2 u2 slide) by done.
      by rewrite updateSlide_other by (by rewrite updateSlide_id).
    + rewrite (updateSlide_other s1 t1 u1 slide) by done.
      by rewrite (updateSlide_other s1) by (by rewrite updateSlide_id).
    + by rewrite (updateSlide_other s1 t1 u1 slide H1),
        (updateSlide_other s2 t2 u2 slide H2),
        (updateSlide_other s1 t1 u1 slide H1).
  - unfold TextBoxManagement.updateTextBoxMutation, Storage.get_slides.
    cbn [Storage.slides Storage.set_slides]. by rewrite !length_fmap.
  - intros i slide boxes Hi Htb.
    unfold TextBoxManagement.updateTextBoxMutation, Storage.get_slides.
    cbn [Storage.slides Storage.set_slides].
    rewrite !list_lookup_fmap, Hi. cbn.
    eexists _, _. split; [reflexivity|].
    split; [by rewrite !updateSlide_id|].
    split; [by apply updateSlide_twice|].
    split; [by rewrite length_fmap|].
    intros j textBox Hj. rewrite list_lookup_fmap, Hj. cbn.
    pose proof (spread_keeps_id textBox u1 Hid1) as Hk1.
    destruct (decide (Slide.id slide = s1 ∧ TextBox.id textBox = t1))
      as [[Hs1 Ht1]|Hn1].
    + destruct (decide (Slide.id slide = s2
                        ∧ TextBox.id (TextBox.spread textBox u1) = t2))
        as [[Hs2 Ht2]|Hn2].
      { rewrite Hk1 in Ht2. destruct Hdiff; congruence. }
      split_and!.
      * intros _ _. eexists. split; [reflexivity|apply spread_merged].
      * intros Hs2 Ht2. destruct Hdiff; congruence.
      * tauto.
    + destruct (decide (Slide.id slide = s2 ∧ TextBox.id textBox = t2))
        as [[Hs2 Ht2]|Hn2].
      * split_and!; [tauto| |tauto].
        intros _ _. eexists. split; [reflexivity|apply spread_merged].
      * split_and!; [tauto|tauto|done].
Qed.

Lemma updateTextBox_commute_witness :
  TextBox.p_id Sample.moveTo = None
  ∧ TextBox.p_id (TextBoxComponent.textPatch "Hi") = None
  ∧ ("a" ≠ "a" ∨ "t1" ≠ "t2")
  ∧ Storage.slides Sample.storageBoxes !! 0%nat = Some Sample.slideWithBoxes
  ∧ Slide.textBoxes Sample.slideWithBoxes
    = Slide.TbArray [Sample.box "t1"; Sample.box "t2"]
  ∧ ∃ slide' boxes' moved typed,
      Storage.slides
        (TextBoxManagement.updateTextBoxMutation "a" "t2"
           (TextBoxComponent.textPatch "Hi")
           (TextBoxManagement.updateTextBoxMutation "a" "t1" Sample.moveTo
              Sample.storageBoxes)) !! 0%nat = Some slide'
      ∧ Slide.textBoxes slide' = Slide.TbArray boxes'
      ∧ boxes' !! 0%nat = Some moved
      ∧ TextBox.x moved = 10
      ∧ boxes' !! 1%nat = Some typed
      ∧ TextBox.text typed = "Hi".
Proof.
  assert ("a" ≠ "a" ∨ "t1" ≠ "t2") as Hd by (right; discriminate).
  split; [reflexivity|]. split; [reflexivity|]. split; [exact Hd|].
  split; [reflexivity|]. split; [reflexivity|].
  destruct (proj2 (proj2
              (updateTextBox_commute "a" "t1" "a" "t2" Sample.moveTo
                 (TextBoxComponent.textPatch "Hi") Sample.storageBoxes
                 eq_refl eq_refl Hd))
              0%nat Sample.slideWithBoxes
              [Sample.box "t1"; Sample.box "t2"] eq_refl eq_refl)
    as (slide' & boxes' & Hl & _ & Htb & _ & Hboxes).
  destruct (proj1 (Hboxes 0%nat (Sample.box "t1") eq_refl) eq_refl eq_refl)
    as (moved & Hm & Hmerged1).
  destruct (proj1 (proj2 (Hboxes 1%nat (Sample.box "t2") eq_refl))
              eq_refl eq_refl)
    as (typed & Ht & Hmerged2).
  exists slide', boxes', moved, typed.
  split; [exact Hl|]. split; [exact Htb|]. split; [exact Hm|].
  split; [exact (proj1 (proj2 (proj2 Hmerged1)))|].
  split; [exact Ht|].
  exact (proj1 (proj2 Hmerged2)).
Defined.
(** X4. Applying the same [updateTextBox] twice gives the same slide list
    as applying it once. *)
Theorem updateTextBox_idempotent (slideId textBoxId : string)
    (u : TextBox.partial) storage :
  Storage.slides
    (TextBoxManagement.updateTextBoxMutation slideId textBoxId u
       (TextBoxManagement.updateTextBoxMutation slideId textBoxId u storage))
  = Storage.slides
      (TextBoxManagement.updateTextBoxMutation slideId textBoxId u storage).
Proof.
  unfold TextBoxManagement.updateTextBoxMutation, Storage.get_slides.
  cbn [Storage.slides Storage.set_slides].
  rewrite <- list_fmap_compose. apply list_fmap_ext. intros _ slide _. cbn.
  destruct (decide (Slide.id slide = slideId)) as [Heq|Hne].
  - rewrite (updateSlide_matching slideId textBoxId u
               (TextBoxManagement.updateSlide slideId textBoxId u slide))
      by (by rewrite updateSlide_id).
    rewrite (updateSlide_matching slideId textBoxId u slide Heq).
    unfold Slide.existingTextBoxes at 1. cbn. f_equal. f_equal.
    rewrite <- list_fmap_compose. apply list_fmap_ext. intros _ textBox _. cbn.
    destruct (decide (TextBox.id textBox = textBoxId)) as [Hb|Hb].
    + case_decide; [|done]. destruct textBox, u.
      unfold TextBox.spread. cbn. f_equal;
        match goal with |- default _ ?o = _ => by destruct o end.
    + by rewrite decide_False.
  - by rewrite !(updateSlide_other slideId textBoxId u slide Hne).
Qed.

(** [migrateSlides], slide by slide. *)
Lemma migrateSlides_pointwise (clock : nat → Z) storage :
  let storage' := SlideManagement.migrateSlides clock storage in
  length (Storage.slides storage') = length (Storage.slides storage)
  ∧ (∀ i slide, Storage.slides storage !! i = Some slide →
       Slide.isArray (Slide.textBoxes slide) = true →
       Storage.slides storage' !! i = Some slide)
  ∧ (∀ i slide, Storage.slides storage !! i = Some slide →
       Slide.isArray (Slide.textBoxes slide) = false →
       ∃ slide', Storage.slides storage' !! i = Some slide'
                 ∧ migrated (clock i) slide slide').
Proof.
  intros storage'. subst storage'.
  unfold SlideManagement.migrateSlides, Storage.get_slides.
  pose proof (mapMigrate_spec clock (Storage.slides storage) 0 false)
    as (Hflag & Hlen & Hkeep & Hmig).
  destruct (SlideManagement.mapMigrate clock 0 false (Storage.slides storage))
    as [flag out]. cbn in *. destruct flag; cbn.
  - done.
  - split_and!; [done..|]. intros i slide Hi Harr.
    symmetry in Hflag. rewrite existsb_false_iff in Hflag.
    specialize (Hflag slide (list_elem_of_lookup_2 _ _ _ Hi)).
    rewrite Harr in Hflag. done.
Qed.

(** X5. No mutation changes the id of a stored slide or the order of the
    slides: the list of slide ids is the same after [addTextBox],
    [updateTextBox] and [migrateSlides]. *)
Theorem slide_ids_stable (userId : string) (positions : nat → Z * Z)
    (clock : nat → Z) (slideId textBoxId initialText : string)
    (u : TextBox.partial) storage :
  Slide.id <$> Storage.slides
     (TextBoxManagement.addTextBoxMutation userId positions clock
        slideId textBoxId initialText storage)
  = Slide.id <$> Storage.slides storage
  ∧ Slide.id <$> Storage.slides
       (TextBoxManagement.updateTextBoxMutation slideId textBoxId u storage)
    = Slide.id <$> Storage.slides storage
  ∧ Slide.id <$> Storage.slides (SlideManagement.migrateSlides clock storage)
    = Slide.id <$> Storage.slides storage.
Proof.
  split_and!.
  - apply list_eq. intros i. rewrite !list_lookup_fmap.
    unfold TextBoxManagement.addTextBoxMutation, Storage.get_slides. cbn.
    rewrite list_lookup_imap.
    destruct (Storage.slides storage !! i) as [slide|]; [|done]. cbn.
    unfold TextBoxManagement.addToSlide. by case_decide.
  - unfold TextBoxManagement.updateTextBoxMutation, Storage.get_slides. cbn.
    rewrite <- list_fmap_compose. apply list_fmap_ext. intros _ slide _.
    apply updateSlide_id.
  - destruct (migrateSlides_pointwise clock storage)
      as (Hlen & Hkeep & Hmig).
    apply list_eq. intros i. rewrite !list_lookup_fmap.
    destruct (Storage.slides storage !! i) as [slide|] eqn:Hi.
    + destruct (Slide.isArray (Slide.textBoxes slide)) eqn:Harr.
      * by rewrite (Hkeep i slide Hi Harr).
      * destruct (Hmig i slide Hi Harr) as (slide' & -> & Hid & _). cbn.
        by rewrite Hid.
    + apply lookup_ge_None in Hi. rewrite lookup_ge_None_2; [done|]. lia.
Qed.

(** X6. A store whose slides all have an array under [textBoxes] stays so
    under [addSlide], [deleteSlide], [addTextBox] and [updateTextBox];
    [migrateSlides] makes any store so, and on such a store it writes
    nothing. *)
Theorem wellFormed_invariant (userId stamp suffix : string)
    (positions : nat → Z * Z) (clock : nat → Z) (now : Z)
    (slideId textBoxId initialText : string) (u : TextBox.partial) storage :
  wellFormed (Storage.slides (SlideManagement.migrateSlides clock storage))
  ∧ (wellFormed (Storage.slides storage) →
     wellFormed
       (Storage.slides (SlideManagement.addSlide stamp suffix now storage).2)
     ∧ wellFormed
         (Storage.slides (SlideManagement.deleteSlide slideId storage))
     ∧ wellFormed
         (Storage.slides
            (TextBoxManagement.addTextBoxMutation userId positions clock
               slideId textBoxId initialText storage))
     ∧ wellFormed
         (Storage.slides
            (TextBoxManagement.updateTextBoxMutation slideId textBoxId u
               storage))
     ∧ SlideManagement.migrateSlides clock storage = storage).
Proof.
  split; [intros slide; apply migrateSlides_arrays|].
  intros Hwf. split_and!.
  - intros slide. unfold SlideManagement.addSlide, Storage.get_slides. cbn.
    rewrite elem_of_app, list_elem_of_singleton. intros [Hin| ->]; [by apply Hwf|done].
  - intros slide. unfold SlideManagement.deleteSlide, Storage.get_slides. cbn.
    rewrite list_elem_of_filter. intros [_ Hin]. by apply Hwf.
  - intros slide'. unfold TextBoxManagement.addTextBoxMutation, Storage.get_slides.
    cbn. intros Hin. apply list_elem_of_lookup in Hin as [i Hi].
    rewrite list_lookup_imap in Hi.
    destruct (Storage.slides storage !! i) as [slide|] eqn:Hs; [|done].
    cbn in Hi. injection Hi as <-. unfold TextBoxManagement.addToSlide.
    case_decide; [done|]. apply Hwf. by eapply list_elem_of_lookup_2.
  - intros slide'. unfold TextBoxManagement.updateTextBoxMutation, Storage.get_slides.
    cbn. rewrite list_elem_of_fmap. intros (slide & -> & Hin).
    unfold TextBoxManagement.updateSlide. case_decide; [done|]. by apply Hwf.
  - by apply migrateSlides_well_formed.
Qed.

Lemma wellFormed_invariant_witness :
  wellFormed (Storage.slides Sample.storageBoxes)
  ∧ wellFormed
      (Storage.slides
         (TextBoxManagement.updateTextBoxMutation "a" "t1" Sample.moveTo
            Sample.storageBoxes))
  ∧ SlideManagement.migrateSlides Sample.clock Sample.storageBoxes
    = Sample.storageBoxes.
Proof.
  assert (wellFormed (Storage.slides Sample.storageBoxes)) as Hwf.
  { intros slide Hin. cbn in Hin.
    rewrite !elem_of_cons in Hin.
    destruct Hin as [->|[->|Hin]]; [reflexivity|reflexivity|].
    by apply elem_of_nil in Hin. }
  split; [exact Hwf|].
  pose proof (proj2 (wellFormed_invariant "ada" "1700000000000" "k3x9"
                       (λ _, (120, 140)) Sample.clock 1700000000000
                       "a" "t1" "" Sample.moveTo Sample.storageBoxes) Hwf)
    as (_ & _ & _ & Hupd & Hmig).
  split; [exact Hupd|exact Hmig].
Defined.

(** X7. Deletions commute and are idempotent, and a text-box mutation that
    targets a slide id after that id was deleted changes no slide. *)
Theorem deleteSlide_compose (userId : string) (positions : nat → Z * Z)
    (clock : nat → Z) (a b textBoxId initialText : string)
    (u : TextBox.partial) storage :
  let deleted := SlideManagement.deleteSlide a storage in
  Storage.slides (SlideManagement.deleteSlide a (SlideManagement.deleteSlide b storage))
  = Storage.slides (SlideManagement.deleteSlide b deleted)
  ∧ Storage.slides (SlideManagement.deleteSlide a deleted)
    = Storage.slides deleted
  ∧ Storage.slides
      (TextBoxManagement.updateTextBoxMutation a textBoxId u deleted)
    = Storage.slides deleted
  ∧ Storage.slides
      (TextBoxManagement.addTextBoxMutation userId positions clock
         a textBoxId initialText deleted)
    = Storage.slides deleted.
Proof.
  intros deleted.
  assert (a ∉ (Slide.id <$> Storage.slides deleted)) as Hgone
    by apply (deleteSlide_gone a storage).
  split_and!.
  - subst deleted. unfold SlideManagement.deleteSlide, Storage.get_slides. cbn.
    rewrite !list_filter_filter. apply list_filter_iff. intros slide. tauto.
  - subst deleted. unfold SlideManagement.deleteSlide, Storage.get_slides. cbn.
    rewrite list_filter_filter. apply list_filter_iff. intros slide. tauto.
  - unfold TextBoxManagement.updateTextBoxMutation, Storage.get_slides. cbn.
    apply fmap_unchanged. intros slide Hin. apply updateSlide_other.
    intros Heq. apply Hgone, list_elem_of_fmap. by exists slide.
  - by apply addTextBox_unmatched.
Qed.

(** X8. The auto-migration effect of [SlideList] does what [migrateSlides]
    does (its own test is the one the mutation repeats), leaves every slide
    with an array of text boxes, and reaches a fixpoint: run again on the
    migrated slides, at any later time, it writes nothing.  While the
    slides are loading it does nothing. *)
Theorem migrationEffect_fixpoint (clock : nat → Z) storage :
  let storage' :=
    SlideList.migrationEffect clock (Some (Storage.slides storage)) storage in
  storage' = SlideManagement.migrateSlides clock storage
  ∧ wellFormed (Storage.slides storage')
  ∧ (∀ clock2,
       SlideList.migrationEffect clock2 (Some (Storage.slides storage')) storage'
       = storage')
  ∧ SlideList.migrationEffect clock None storage = storage.
Proof.
  assert (∀ c s, SlideList.migrationEffect c (Some (Storage.slides s)) s
                 = SlideManagement.migrateSlides c s) as Heq.
  { intros c s. unfold SlideList.migrationEffect.
    destruct (existsb _ (Storage.slides s)) eqn:Hex.
    - destruct (Storage.slides s); [done|]. done.
    - rewrite migrateSlides_well_formed; [by case_match|].
      intros slide Hin. rewrite existsb_false_iff in Hex.
      specialize (Hex slide Hin). by apply negb_false_iff in Hex. }
  intros storage'. subst storage'. rewrite Heq. split_and!.
  - done.
  - intros slide. apply migrateSlides_arrays.
  - intros clock2. rewrite Heq.
    apply migrateSlides_well_formed, migrateSlides_arrays.
  - done.
Qed.
End store_more.

(** ** The share dialog and the share link *)

Section share_more.
Implicit Types (slides : list Slide.t) (search : URLSearchParams.t)
  (st : ShareDialog.state).

Lemma get_delete (name name' : string) search :
  URLSearchParams.get name (URLSearchParams.delete name' search)
  = if decide (name = name') then None else URLSearchParams.get name search.
Proof.
  unfold URLSearchParams.delete.
  induction search as [|[k v] search IH]; [by case_decide|].
  rewrite filter_cons. cbn [fst URLSearchParams.get].
  destruct (decide (k ≠ name')) as [Hk|Hk].
  - cbn [URLSearchParams.get]. destruct (decide (k = name)) as [->|Hkn].
    + by rewrite decide_False.
    + done.
  - apply dec_stable in Hk as ->. rewrite IH.
    destruct (decide (name = name')) as [->|Hne]; [done|].
    by rewrite decide_False.
Qed.

Lemma get_set (name name' value : string) search :
  URLSearchParams.get name (URLSearchParams.set name' value search)
  = if decide (name = name') then Some value
    else URLSearchParams.get name search.
Proof.
  induction search as [|[k v] search IH]; cbn [URLSearchParams.set URLSearchParams.get].
  - destruct (decide (name' = name)) as [->|]; [by rewrite decide_True|].
    by rewrite decide_False.
  - destruct (decide (k = name')) as [->|Hk]; cbn [URLSearchParams.get].
    + destruct (decide (name' = name)) as [->|Hne]; [by rewrite decide_True|].
      rewrite get_delete. rewrite !decide_False by congruence. done.
    + rewrite IH. destruct (decide (k = name)) as [->|]; [|done].
      by rewrite decide_False.
Qed.

(** What [useShareMode] makes of a query string whose [shared] parameter
    lists the ids [ids]. *)
Lemma useShareMode_listed slides search (ids : list string) :
  ids ≠ [] → Forall listable ids →
  URLSearchParams.get "shared" search = Some (String.concat "," ids) →
  ShareMode.useShareMode (Some slides) search
  = {| ShareMode.readOnly :=
         negb (bool_decide (URLSearchParams.get "edit" search = Some "true"));
       ShareMode.visibleSlides := filter (λ slide, Slide.id slide ∈ ids) slides;
       ShareMode.allowedSlideIds := Some (list_to_set ids);
       ShareMode.isSharedMode := true |}.
Proof.
  intros Hne Hall Hget.
  unfold ShareMode.useShareMode, ShareMode.parseToken.
  change URL_PARAMS.SHARED_SLIDES with "shared".
  change URL_PARAMS.CAN_EDIT with "edit". rewrite Hget.
  rewrite decide_False by by apply concat_nonempty.
  rewrite split_concat by done.
  rewrite (filter_all (λ piece, piece ≠ "")) by
    (eapply Forall_impl; [exact Hall|by intros ? [? _]]).
  cbn. f_equal. apply list_filter_iff. intros slide.
  by rewrite elem_of_list_to_set.
Qed.

(** The query string of the dialog, read back. *)
Lemma useShareMode_shareParams slides (current : URLSearchParams.t) st :
  ShareDialog.selectedIds st ≠ [] →
  Forall listable (ShareDialog.selectedIds st) →
  ShareMode.useShareMode (Some slides) (ShareDialog.shareParams current st)
  = {| ShareMode.readOnly := negb (ShareDialog.canEdit st);
       ShareMode.visibleSlides :=
         filter (λ slide, Slide.id slide ∈ ShareDialog.selectedIds st) slides;
       ShareMode.allowedSlideIds :=
         Some (list_to_set (ShareDialog.selectedIds st));
       ShareMode.isSharedMode := true |}.
Proof.
  intros Hne Hall. unfold ShareDialog.shareParams.
  destruct (ShareDialog.selectedIds st) as [|id ids] eqn:Hsel; [done|].
  cbn [length Nat.ltb Nat.leb].
  rewrite (useShareMode_listed slides _ (id :: ids)); [|done|done|].
  - rewrite get_set. rewrite decide_True by done. by destruct (ShareDialog.canEdit st).
  - rewrite !get_set. rewrite decide_False by done. by rewrite decide_True.
Qed.

(** X9. Round trip of a share link: the query string the dialog builds for
    a non-empty selection of listable ids, whatever the query string it
    starts from, is read back by [useShareMode] as the shared mode with
    exactly the selected ids allowed, the visible slides being the slides
    with a selected id in their order, read-only exactly when editing was
    not allowed. *)
Theorem shareLink_roundtrip slides (current : URLSearchParams.t) st :
  ShareDialog.selectedIds st ≠ [] →
  Forall listable (ShareDialog.selectedIds st) →
  ShareMode.useShareMode (Some slides) (ShareDialog.shareParams current st)
  = {| ShareMode.readOnly := negb (ShareDialog.canEdit st);
       ShareMode.visibleSlides :=
         filter (λ slide, Slide.id slide ∈ ShareDialog.selectedIds st) slides;
       ShareMode.allowedSlideIds :=
         Some (list_to_set (ShareDialog.selectedIds st));
       ShareMode.isSharedMode := true |}.
Proof. apply useShareMode_shareParams. Qed.

Lemma shareLink_roundtrip_witness :
  ShareDialog.selectedIds Sample.dialogAC ≠ []
  ∧ Forall listable (ShareDialog.selectedIds Sample.dialogAC)
  ∧ ShareMode.useShareMode (Some Sample.abc)
      (ShareDialog.shareParams Sample.search_empty Sample.dialogAC)
    = {| ShareMode.readOnly := true;
         ShareMode.visibleSlides :=
           filter (λ slide, Slide.id slide ∈ ["a"; "c"]) Sample.abc;
         ShareMode.allowedSlideIds := Some (list_to_set ["a"; "c"]);
         ShareMode.isSharedMode := true |}.
Proof.
  assert (Forall listable (ShareDialog.selectedIds Sample.dialogAC)) as Hall.
  { repeat constructor; try discriminate;
      cbn; rewrite !not_elem_of_cons; split_and!; try discriminate;
      apply not_elem_of_nil. }
  assert (ShareDialog.selectedIds Sample.dialogAC ≠ []) as Hne by discriminate.
  split; [exact Hne|]. split; [exact Hall|].
  exact (shareLink_roundtrip Sample.abc Sample.search_empty Sample.dialogAC
           Hne Hall).
Defined.



(** X11. Ticking and unticking in the dialog: on a selection without
    duplicates, a click on the checkbox of a slide flips the membership of
    that id only, keeps the selection free of duplicates, and a second
    click gives back the same ids (the id moves to the end). *)
Theorem toggle_selection (slideId : string) st :
  NoDup (ShareDialog.selectedIds st) →
  let st' := ShareDialog.toggle slideId st in
  NoDup (ShareDialog.selectedIds st')
  ∧ (slideId ∈ ShareDialog.selectedIds st'
       ↔ slideId ∉ ShareDialog.selectedIds st)
  ∧ (∀ id, id ≠ slideId →
       id ∈ ShareDialog.selectedIds st' ↔ id ∈ ShareDialog.selectedIds st)
  ∧ ShareDialog.selectedIds (ShareDialog.toggle slideId st')
      ≡ₚ ShareDialog.selectedIds st
  ∧ ShareDialog.canEdit st' = ShareDialog.canEdit st.
Proof.
  intros Hnd st'. subst st'. unfold ShareDialog.toggle. cbn.
  destruct (decide (slideId ∈ ShareDialog.selectedIds st)) as [Hin|Hout].
  - rewrite (bool_decide_eq_true_2 _ Hin).
    assert (slideId ∉ filter (λ id, id ≠ slideId) (ShareDialog.selectedIds st))
      as Hgone by (rewrite list_elem_of_filter; tauto).
    rewrite (bool_decide_eq_false_2 _ Hgone). split_and!.
    + by apply NoDup_filter.
    + tauto.
    + intros id Hne. rewrite list_elem_of_filter. tauto.
    + clear Hgone. revert Hin Hnd.
      induction (ShareDialog.selectedIds st) as [|id l IH]; intros Hin Hnd;
        [by apply elem_of_nil in Hin|].
      apply NoDup_cons in Hnd as [Hid Hnd].
      destruct (decide (id = slideId)) as [->|Hne].
      * rewrite filter_cons_False by tauto.
        rewrite (filter_all (λ id, id ≠ slideId)).
        -- symmetry. apply Permutation_cons_append.
        -- apply Forall_forall. intros x Hx Heq. apply Hid. by rewrite <- Heq.
      * rewrite filter_cons_True by done. cbn. constructor.
        apply IH; [|done]. apply elem_of_cons in Hin as [?|?]; [congruence|done].
    + done.
  - rewrite (bool_decide_eq_false_2 _ Hout).
    assert (slideId ∈ ShareDialog.selectedIds st ++ [slideId]) as Hin
      by (apply elem_of_app; right; apply list_elem_of_here).
    rewrite (bool_decide_eq_true_2 _ Hin). split_and!.
    + apply NoDup_app. split_and!; [done| |apply NoDup_singleton].
      intros x Hx Hx'. apply list_elem_of_singleton in Hx' as ->. done.
    + tauto.
    + intros id Hne. rewrite elem_of_app, list_elem_of_singleton. tauto.
    + rewrite filter_app, filter_cons_False, filter_nil, app_nil_r by tauto.
      rewrite (filter_all (λ id, id ≠ slideId)); [done|].
      apply Forall_forall. intros x Hx Heq. apply Hout. by rewrite <- Heq.
    + done.
Qed.

Lemma toggle_selection_witness :
  NoDup (ShareDialog.selectedIds Sample.dialogAC)
  ∧ NoDup (ShareDialog.selectedIds (ShareDialog.toggle "a" Sample.dialogAC))
  ∧ ShareDialog.selectedIds
      (ShareDialog.toggle "a" (ShareDialog.toggle "a" Sample.dialogAC))
    ≡ₚ ["a"; "c"].
Proof.
  assert (NoDup (ShareDialog.selectedIds Sample.dialogAC)) as Hnd.
  { cbn. repeat constructor.
    - rewrite !not_elem_of_cons. split; [discriminate|apply not_elem_of_nil].
    - apply not_elem_of_nil. }
  split; [exact Hnd|].
  pose proof (toggle_selection "a" Sample.dialogAC Hnd)
    as (H1 & _ & _ & H4 & _).
  split; [exact H1|exact H4].
Defined.


End share_more.

(** ** The main area and auto-follow under a share link *)

Section canvas.
Implicit Types (slides : list Slide.t) (search : URLSearchParams.t)
  (others : list SlideList.other) (st : SlideList.state) (p : Presence.t).

Lemma activeSlide_Some slides p (a : Slide.t) :
  SlideList.activeSlide slides p = Some a →
  a ∈ slides ∧ Presence.currentSlideId p = Some (Slide.id a).
Proof.
  unfold SlideList.activeSlide. intros Hfind.
  apply find_some in Hfind as [Hin Hid].
  split; [by apply list_elem_of_In|]. by apply bool_decide_eq_true in Hid.
Qed.

Lemma activeSlide_is_Some slides p (s : Slide.t) :
  s ∈ slides → Presence.currentSlideId p = Some (Slide.id s) →
  ∃ a, SlideList.activeSlide slides p = Some a ∧ Slide.id a = Slide.id s.
Proof.
  intros Hin Hid. unfold SlideList.activeSlide.
  destruct (find _ slides) as [a|] eqn:Hfind.
  - exists a. split; [done|]. apply find_some in Hfind as [_ Ha].
    apply bool_decide_eq_true in Ha. congruence.
  - apply list_elem_of_In in Hin.
    pose proof (find_none _ _ Hfind s Hin) as Hs. cbn in Hs.
    by rewrite bool_decide_eq_true_2 in Hs.
Qed.

(** What [useShareMode] allows: the visible slides are the slides of the
    list, in order, and in shared mode each of them has an allowed id. *)
Lemma visibleSlides_allowed slides search (a : Slide.t) (allowed : gset string) :
  ShareMode.allowedSlideIds (ShareMode.useShareMode (Some slides) search)
    = Some allowed →
  a ∈ ShareMode.visibleSlides (ShareMode.useShareMode (Some slides) search)
  ↔ a ∈ slides ∧ Slide.id a ∈ allowed.
Proof.
  unfold ShareMode.useShareMode.
  destruct (ShareMode.parseToken search) as [[ids|] canEdit]; cbn; [|done].
  intros [= ->]. rewrite list_elem_of_filter. tauto.
Qed.

(** X13. In read-only mode the main area shows a slide only when it is one
    of the visible slides: a read-only viewer never gets the canvas of a
    slide outside the shared set, wherever the presence points. *)
Theorem canvas_read_only_gate slides search p (a : Slide.t) :
  let share := ShareMode.useShareMode (Some slides) search in
  ShareMode.readOnly share = true →
  SlideList.canvasSlide share slides p = Some a →
  a ∈ ShareMode.visibleSlides share
  ∧ Presence.currentSlideId p = Some (Slide.id a).
Proof.
  intros share Hro. unfold SlideList.canvasSlide.
  destruct (SlideList.activeSlide slides p) as [active|] eqn:Hact; [|done].
  apply activeSlide_Some in Hact as [Hin Hid].
  rewrite Hro. cbn [negb orb].
  destruct (ShareMode.allowedSlideIds share) as [allowed|] eqn:Hallowed; [|done].
  case_bool_decide as Hmem; [|done]. intros [= <-]. split; [|done].
  apply (visibleSlides_allowed slides search active allowed Hallowed). done.
Qed.

Lemma canvas_read_only_gate_witness :
  ShareMode.readOnly (ShareMode.useShareMode (Some Sample.abc) Sample.search_ac)
    = true
  ∧ SlideList.canvasSlide
      (ShareMode.useShareMode (Some Sample.abc) Sample.search_ac) Sample.abc
      (Sample.presenceOn (Some "a") "Bob") = Some (Sample.slide "a")
  ∧ Sample.slide "a"
    ∈ ShareMode.visibleSlides
        (ShareMode.useShareMode (Some Sample.abc) Sample.search_ac).
Proof.
  assert (ShareMode.readOnly
            (ShareMode.useShareMode (Some Sample.abc) Sample.search_ac)
          = true) as Hro by reflexivity.
  assert (SlideList.canvasSlide
            (ShareMode.useShareMode (Some Sample.abc) Sample.search_ac)
            Sample.abc (Sample.presenceOn (Some "a") "Bob")
          = Some (Sample.slide "a")) as Hc by (vm_compute; reflexivity).
  split; [exact Hro|]. split; [exact Hc|].
  exact (proj1 (canvas_read_only_gate Sample.abc Sample.search_ac
                  (Sample.presenceOn (Some "a") "Bob") (Sample.slide "a")
                  Hro Hc)).
Defined.

(** The run of the effect that follows a collaborator. *)
Lemma autoFollowEffect_follow slides others st (newSlide : Slide.t) :
  (0 < SlideList.prevSlideCountRef st)%nat →
  (SlideList.prevSlideCountRef st < length slides)%nat →
  last slides = Some newSlide →
  SlideList.someoneElseOn (Slide.id newSlide) others = true →
  Presence.currentSlideId (SlideList.myPresence st)
    ≠ Some (Slide.id newSlide) →
  SlideList.autoFollowEffect (Some slides) others st
  = {| SlideList.prevSlideCountRef := length slides;
       SlideList.myPresence :=
         SlideList.switchTo (Slide.id newSlide) (SlideList.myPresence st);
       SlideList.scrollTo := Some (Slide.id newSlide) |}.
Proof.
  intros Hpos Hgrow Hlast Hother Hme. unfold SlideList.autoFollowEffect.
  rewrite (proj2 (Nat.ltb_lt _ _) Hgrow), (proj2 (Nat.ltb_lt _ _) Hpos).
  cbn [andb]. rewrite last_lookup in Hlast.
  replace (length slides - 1)%nat with (pred (length slides)) by lia.
  rewrite Hlast, Hother. by rewrite bool_decide_eq_false_2 by done.
Qed.

(** X14. Auto-follow does not look at the share link.  When the effect
    follows a collaborator onto a new slide whose id the link does not
    list, the local presence points outside the visible slides: with an
    editing link the main area then shows that slide, with a read-only
    link it shows no slide at all. *)
Theorem autoFollow_ignores_share_scope slides others st search
    (ids : list string) (newSlide : Slide.t) :
  (0 < SlideList.prevSlideCountRef st)%nat →
  (SlideList.prevSlideCountRef st < length slides)%nat →
  last slides = Some newSlide →
  SlideList.someoneElseOn (Slide.id newSlide) others = true →
  Presence.currentSlideId (SlideList.myPresence st)
    ≠ Some (Slide.id newSlide) →
  ids ≠ [] → Forall listable ids →
  URLSearchParams.get "shared" search = Some (String.concat "," ids) →
  Slide.id newSlide ∉ ids →
  let st' := SlideList.autoFollowEffect (Some slides) others st in
  let share := ShareMode.useShareMode (Some slides) search in
  Presence.currentSlideId (SlideList.myPresence st')
    = Some (Slide.id newSlide)
  ∧ (∀ a, Slide.id a = Slide.id newSlide → a ∉ ShareMode.visibleSlides share)
  ∧ (URLSearchParams.get "edit" search = Some "true" →
       ∃ a, SlideList.canvasSlide share slides (SlideList.myPresence st')
            = Some a
            ∧ Slide.id a = Slide.id newSlide)
  ∧ (URLSearchParams.get "edit" search ≠ Some "true" →
       SlideList.canvasSlide share slides (SlideList.myPresence st') = None).
Proof.
  intros Hpos Hgrow Hlast Hother Hme Hne Hall Hget Hout st' share.
  subst st'. rewrite (autoFollowEffect_follow _ _ _ _ Hpos Hgrow Hlast Hother Hme).
  subst share. rewrite (useShareMode_listed slides search ids Hne Hall Hget).
  cbn [SlideList.myPresence]. 
  assert (newSlide ∈ slides) as Hin.
  { rewrite last_lookup in Hlast. by eapply list_elem_of_lookup_2. }
  destruct (activeSlide_is_Some slides
              (SlideList.switchTo (Slide.id newSlide) (SlideList.myPresence st))
              newSlide Hin eq_refl) as (a & Hact & Hid).
  split_and!.
  - done.
  - intros b Hb. cbn. rewrite list_elem_of_filter. rewrite Hb. tauto.
  - intros Hedit. exists a. split; [|done]. unfold SlideList.canvasSlide.
    rewrite Hact. cbn. by rewrite (bool_decide_eq_true_2 _ Hedit).
  - intros Hedit. unfold SlideList.canvasSlide. rewrite Hact. cbn.
    rewrite (bool_decide_eq_false_2 _ Hedit). cbn.
    rewrite bool_decide_eq_false_2; [done|].
    rewrite elem_of_list_to_set, Hid. done.
Qed.

Lemma autoFollow_ignores_share_scope_witness :
  (0 < SlideList.prevSlideCountRef Sample.seenOne)%nat
  ∧ (SlideList.prevSlideCountRef Sample.seenOne
       < length [Sample.slide "b"; Sample.slide "a"])%nat
  ∧ SlideList.someoneElseOn (Slide.id (Sample.slide "a")) Sample.othersOnA
    = true
  ∧ Forall listable ["b"]
  ∧ URLSearchParams.get "shared" [("shared", "b")]
    = Some (String.concat "," ["b"])
  ∧ (Slide.id (Sample.slide "a") ∉ ["b"])
  ∧ SlideList.canvasSlide
      (ShareMode.useShareMode (Some [Sample.slide "b"; Sample.slide "a"])
         [("shared", "b")])
      [Sample.slide "b"; Sample.slide "a"]
      (SlideList.myPresence
         (SlideList.autoFollowEffect
            (Some [Sample.slide "b"; Sample.slide "a"]) Sample.othersOnA
            Sample.seenOne))
    = None.
Proof.
  assert (0 < SlideList.prevSlideCountRef Sample.seenOne)%nat as H0
    by (cbn; lia).
  assert (SlideList.prevSlideCountRef Sample.seenOne
            < length [Sample.slide "b"; Sample.slide "a"])%nat as H1
    by (cbn; lia).
  assert (SlideList.someoneElseOn (Slide.id (Sample.slide "a"))
            Sample.othersOnA = true) as H2 by reflexivity.
  assert (Forall listable ["b"]) as H3.
  { repeat constructor; try discriminate;
      cbn; rewrite !not_elem_of_cons; split_and!; try discriminate;
      apply not_elem_of_nil. }
  assert (Slide.id (Sample.slide "a") ∉ ["b"]) as H4.
  { cbn. rewrite !not_elem_of_cons. split; [discriminate|apply not_elem_of_nil]. }
  assert (Presence.currentSlideId (SlideList.myPresence Sample.seenOne)
          ≠ Some (Slide.id (Sample.slide "a"))) as H5 by discriminate.
  assert (["b"] ≠ []) as H6 by discriminate.
  assert (URLSearchParams.get "edit" [("shared", "b")] ≠ Some "true") as H7
    by discriminate.
  split; [exact H0|]. split; [exact H1|]. split; [exact H2|].
  split; [exact H3|]. split; [reflexivity|]. split; [exact H4|].
  exact (proj2 (proj2 (proj2
           (autoFollow_ignores_share_scope
              [Sample.slide "b"; Sample.slide "a"] Sample.othersOnA
              Sample.seenOne [("shared", "b")] ["b"] (Sample.slide "a")
              H0 H1 eq_refl H2 H5 H6 H3 eq_refl H4))) H7).
Defined.

(** X15. What the auto-follow effect never does: it leaves the user name,
    colour and cursor alone; unless the slide count grew from a non-zero
    count it leaves the whole presence alone; it always remembers the
    current count; and run again on the same slides and participants it
    changes nothing. *)
Theorem autoFollow_otherwise slides others st :
  let st' := SlideList.autoFollowEffect (Some slides) others st in
  SlideList.prevSlideCountRef st' = length slides
  ∧ Presence.userName (SlideList.myPresence st')
    = Presence.userName (SlideList.myPresence st)
  ∧ Presence.userColor (SlideList.myPresence st')
    = Presence.userColor (SlideList.myPresence st)
  ∧ Presence.cursor (SlideList.myPresence st')
    = Presence.cursor (SlideList.myPresence st)
  ∧ (¬ (0 < SlideList.prevSlideCountRef st < length slides)%nat →
       SlideList.myPresence st' = SlideList.myPresence st
       ∧ SlideList.scrollTo st' = SlideList.scrollTo st)
  ∧ SlideList.autoFollowEffect (Some slides) others st' = st'
  ∧ SlideList.autoFollowEffect None others st = st.
Proof.
  intros st'.
  assert (SlideList.prevSlideCountRef st' = length slides) as Hprev by done.
  split_and!; try done.
  - subst st'. unfold SlideList.autoFollowEffect.
    repeat (case_match; cbn; try done).
  - subst st'. unfold SlideList.autoFollowEffect.
    repeat (case_match; cbn; try done).
  - subst st'. unfold SlideList.autoFollowEffect.
    repeat (case_match; cbn; try done).
  - intros Hno. subst st'. unfold SlideList.autoFollowEffect.
    destruct ((SlideList.prevSlideCountRef st <? length slides)%nat
              && (0 <? SlideList.prevSlideCountRef st)%nat) eqn:Hguard; [|done].
    apply andb_true_iff in Hguard as [?%Nat.ltb_lt ?%Nat.ltb_lt]. lia.
  - unfold SlideList.autoFollowEffect at 1. rewrite Hprev.
    rewrite Nat.ltb_irrefl. cbn [andb]. clearbody st'.
    destruct st' as [n pr sc]. cbn in *. by subst.
Qed.

Lemma autoFollow_otherwise_witness :
  ¬ (0 < SlideList.prevSlideCountRef Sample.freshState < length Sample.abc)%nat
  ∧ SlideList.myPresence
      (SlideList.autoFollowEffect (Some Sample.abc) Sample.othersOnA
         Sample.freshState)
    = SlideList.myPresence Sample.freshState.
Proof.
  assert (¬ (0 < SlideList.prevSlideCountRef Sample.freshState
               < length Sample.abc)%nat) as Hn by (cbn; lia).
  split; [exact Hn|].
  pose proof (autoFollow_otherwise Sample.abc Sample.othersOnA
                Sample.freshState) as (_ & _ & _ & _ & H & _).
  exact (proj1 (H Hn)).
Defined.
End canvas.

Section diff_more.
Local Notation "'chars'" := String.list_ascii_of_string.

(** Each loop stops where its guard fails. *)
Lemma prefixLoop_exit (prev next : string) (i : Z) :
  Diff.prefixCond prev next (Diff.prefixLoop prev next i) = false.
Proof.
  apply (Diff.prefixLoop_elim
           (λ prev next _ p, Diff.prefixCond prev next p = false)).
  - intros ? ? ? _ IH _. exact IH.
  - intros ? ? ? Hc _. exact Hc.
Qed.

Lemma suffixLoop_exit (prev next : string) (p j : Z) :
  Diff.suffixCond prev next p (Diff.suffixLoop prev next p j) = false.
Proof.
  apply (Diff.suffixLoop_elim
           (λ prev next p _ s, Diff.suffixCond prev next p s = false)).
  - intros ? ? ? ? _ IH _. exact IH.
  - intros ? ? ? ? Hc _. exact Hc.
Qed.

(** Any common prefix is at most [prefixLen], and any common suffix that
    leaves the prefix alone is at most [suffixLen]. *)
Lemma prefixLen_greatest (P N : string) (q : Z) :
  0 ≤ q → q ≤ JS.length P → q ≤ JS.length N →
  (∀ k, 0 ≤ k < q → JS.index P k = JS.index N k) →
  q ≤ Diff.prefixLen (Diff.diff P N).
Proof.
  intros H0 HP HN Hk. cbn.
  pose proof (prefixLoop_exit P N 0) as Hexit.
  destruct (decide (q ≤ Diff.prefixLoop P N 0)) as [|Hlt]; [done|].
  destruct (prefixLoop_spec P N 0) as (Hp0 & _); [unfold JS.length; lia..|].
  unfold Diff.prefixCond in Hexit.
  rewrite !bool_decide_eq_true_2 in Hexit; [done| |lia|lia].
  apply Hk. lia.
Qed.

Lemma suffixLen_greatest (P N : string) (t : Z) :
  let p := Diff.prefixLen (Diff.diff P N) in
  0 ≤ t → t ≤ JS.length P - p → t ≤ JS.length N - p →
  (∀ k, 0 ≤ k < t →
     JS.index P (JS.length P - 1 - k) = JS.index N (JS.length N - 1 - k)) →
  t ≤ Diff.suffixLen (Diff.diff P N).
Proof.
  intros p H0 HP HN Hk. cbn. fold p.
  change (Diff.prefixLoop P N 0) with p.
  pose proof (suffixLoop_exit P N p 0) as Hexit.
  destruct (decide (t ≤ Diff.suffixLoop P N p 0)) as [|Hlt]; [done|].
  destruct (suffixLoop_spec P N p 0) as (Hs0 & _); [lia..|].
  unfold Diff.suffixCond in Hexit.
  rewrite !bool_decide_eq_true_2 in Hexit; [done| |lia|lia].
  apply Hk. lia.
Qed.

(** X16. The edit region of [setValue] is as small as a single region can
    be: the common prefix cannot be extended by one more character, and
    the common suffix cannot be extended without running into the prefix. *)
Theorem diff_maximal (P N : string) :
  let d := Diff.diff P N in
  let p := Diff.prefixLen d in
  let s := Diff.suffixLen d in
  (p = JS.length P ∨ p = JS.length N ∨ JS.index P p ≠ JS.index N p)
  ∧ (s = JS.length P - p ∨ s = JS.length N - p
     ∨ JS.index P (JS.length P - 1 - s) ≠ JS.index N (JS.length N - 1 - s)).
Proof.
  intros d p s.
  destruct (diff_invariants P N) as (Hp0 & Hs0 & HP & HN & _).
  fold d in Hp0, Hs0, HP, HN. fold p in Hp0, HP, HN. fold s in Hs0, HP, HN.
  split.
  - pose proof (prefixLoop_exit P N 0) as Hexit.
    change (Diff.prefixLoop P N 0) with p in Hexit.
    unfold Diff.prefixCond in Hexit.
    destruct (decide (p = JS.length P)); [by left|].
    destruct (decide (p = JS.length N)); [by right; left|].
    right; right. intros Heq.
    rewrite !bool_decide_eq_true_2 in Hexit; [done|done|lia|lia].
  - pose proof (suffixLoop_exit P N p 0) as Hexit.
    change (Diff.suffixLoop P N p 0) with s in Hexit.
    unfold Diff.suffixCond in Hexit.
    destruct (decide (s = JS.length P - p)); [by left|].
    destruct (decide (s = JS.length N - p)); [by right; left|].
    right; right. intros Heq.
    rewrite !bool_decide_eq_true_2 in Hexit; [done|done|lia|lia].
Qed.

(** The lengths of the delete and of the insert. *)
Lemma diff_lengths (P N : string) :
  let d := Diff.diff P N in
  0 ≤ Diff.deleteLen d
  ∧ Diff.prefixLen d + Diff.deleteLen d ≤ JS.length P
  ∧ JS.length (Diff.insertText d)
    = JS.length N - Diff.suffixLen d - Diff.prefixLen d.
Proof.
  intros d.
  destruct (diff_invariants P N) as (Hp0 & Hs0 & HP & HN & _).
  fold d in Hp0, Hs0, HP, HN.
  assert (Diff.deleteLen d
          = JS.length P - Diff.prefixLen d - Diff.suffixLen d) as Hd by done.
  split_and!; [lia..|].
  change (Diff.insertText d)
    with (JS.slice N (Diff.prefixLen d) (JS.length N - Diff.suffixLen d)).
  unfold JS.length at 1. rewrite <- chars_length, slice_chars by lia.
  rewrite length_take, length_drop, chars_length. unfold JS.length in *. lia.
Qed.

(** X17. The calls [setValue] makes stay inside the text: the deleted range
    [[p, p + d)] lies within the old text, the insert position is within
    the text that is left, the lengths add up, and when the two strings
    differ at least one call is made. *)
Theorem diffOps_in_range (P N : string) :
  let d := Diff.diff P N in
  0 ≤ Diff.prefixLen d
  ∧ 0 ≤ Diff.deleteLen d
  ∧ Diff.prefixLen d + Diff.deleteLen d ≤ JS.length P
  ∧ Diff.prefixLen d ≤ JS.length P - Diff.deleteLen d
  ∧ JS.length N
    = JS.length P - Diff.deleteLen d + JS.length (Diff.insertText d)
  ∧ (P ≠ N → Y.diffOps P N ≠ []).
Proof.
  intros d.
  destruct (diff_invariants P N) as (Hp0 & Hs0 & HP & HN & _).
  destruct (diff_lengths P N) as (Hd0 & Hrange & Hi).
  fold d in Hp0, Hs0, HP, HN, Hd0, Hrange, Hi.
  assert (Diff.deleteLen d
          = JS.length P - Diff.prefixLen d - Diff.suffixLen d) as Hd by done.
  split_and!; try lia.
  intros Hne Hops. apply Hne. by rewrite <- (diffOps_apply P N), Hops.
Qed.

Lemma diffOps_in_range_witness :
  "Hello" ≠ "Help" ∧ Y.diffOps "Hello" "Help" ≠ [].
Proof.
  assert ("Hello" ≠ "Help") as Hne by discriminate.
  split; [exact Hne|].
  pose proof (diffOps_in_range "Hello" "Help") as (_ & _ & _ & _ & _ & H).
  exact (H Hne).
Defined.

Lemma length_app_JS (a b : string) :
  JS.length (a +:+ b) = JS.length a + JS.length b.
Proof.
  unfold JS.length. rewrite <- !chars_length, chars_app, length_app. lia.
Qed.

(** X18. A pure insertion is sent as a pure insertion: when the new text is
    the old one with a string [M] put in somewhere, [setValue] deletes
    nothing and inserts exactly [|M|] characters; so typing one character
    is one one-character insert. *)
Theorem diff_pure_insertion (A M B : string) :
  let d := Diff.diff (A +:+ B) (A +:+ M +:+ B) in
  Diff.deleteLen d = 0
  ∧ JS.length (Diff.insertText d) = JS.length M
  ∧ (M ≠ "" →
       Y.diffOps (A +:+ B) (A +:+ M +:+ B)
       = [Y.Insert (Diff.prefixLen d) (Diff.insertText d)]).
Proof.
  intros d. set (P := A +:+ B) in *. set (N := A +:+ M +:+ B) in *.
  destruct (diff_invariants P N) as (Hp0 & Hs0 & HP & HN & _).
  destruct (diff_lengths P N) as (Hd0 & _ & Hlen).
  fold d in Hp0, Hs0, HP, HN, Hd0, Hlen.
  assert (JS.length P = JS.length A + JS.length B) as HlP
    by apply length_app_JS.
  assert (JS.length N = JS.length A + JS.length M + JS.length B) as HlN
    by (unfold N; rewrite !length_app_JS; lia).
  assert (0 ≤ JS.length A ∧ 0 ≤ JS.length M ∧ 0 ≤ JS.length B)
    as (HA0 & HM0 & HB0) by (unfold JS.length; lia).
  assert (JS.length A ≤ Diff.prefixLen d) as HpA.
  { apply prefixLen_greatest; [lia..|]. intros k Hk.
    rewrite !index_chars by lia. unfold P, N. rewrite !chars_app.
    rewrite !lookup_app_l; [done|rewrite chars_length; unfold JS.length in *; lia..]. }
  assert (JS.length P - Diff.prefixLen d ≤ Diff.suffixLen d) as Hs.
  { apply suffixLen_greatest; [fold d; lia..|]. fold d. intros k Hk.
    rewrite !index_chars by lia. unfold P, N. rewrite !chars_app.
    fold P N. unfold JS.length in *.
    rewrite <- !chars_length in *.
    rewrite lookup_app_r by lia.
    rewrite lookup_app_r by lia. rewrite lookup_app_r by (rewrite ?length_app; lia).
    f_equal. lia. }
  assert (Diff.deleteLen d = 0) as Hdel.
  { change (Diff.deleteLen d)
      with (JS.length P - Diff.prefixLen d - Diff.suffixLen d) in *. lia. }
  assert (JS.length (Diff.insertText d) = JS.length M) as Hins by lia.
  split_and!; [done..|]. intros HM. unfold Y.diffOps. fold d.
  rewrite Hdel. rewrite decide_False by lia. rewrite decide_True; [done|].
  rewrite Hins. destruct M; [done|]. unfold JS.length. cbn. lia.
Qed.

Lemma diff_pure_insertion_witness :
  "l" ≠ ""
  ∧ Y.diffOps ("He" +:+ "lo") ("He" +:+ "l" +:+ "lo")
    = [Y.Insert
         (Diff.prefixLen (Diff.diff ("He" +:+ "lo") ("He" +:+ "l" +:+ "lo")))
         (Diff.insertText (Diff.diff ("He" +:+ "lo") ("He" +:+ "l" +:+ "lo")))].
Proof.
  assert ("l" ≠ "") as Hne by discriminate.
  split; [exact Hne|].
  pose proof (diff_pure_insertion "He" "l" "lo") as (_ & _ & H).
  exact (H Hne).
Defined.

(** X19. A pure deletion is sent as a pure deletion: when the new text is
    the old one with a stretch [M] taken out, [setValue] inserts nothing
    and deletes exactly [|M|] characters. *)
Theorem diff_pure_deletion (A M B : string) :
  let d := Diff.diff (A +:+ M +:+ B) (A +:+ B) in
  Diff.insertText d = ""
  ∧ Diff.deleteLen d = JS.length M
  ∧ (M ≠ "" →
       Y.diffOps (A +:+ M +:+ B) (A +:+ B)
       = [Y.Delete (Diff.prefixLen d) (JS.length M)]).
Proof.
  intros d. set (P := A +:+ M +:+ B) in *. set (N := A +:+ B) in *.
  destruct (diff_invariants P N) as (Hp0 & Hs0 & HP & HN & _).
  destruct (diff_lengths P N) as (Hd0 & _ & Hlen).
  fold d in Hp0, Hs0, HP, HN, Hd0, Hlen.
  assert (JS.length N = JS.length A + JS.length B) as HlN
    by apply length_app_JS.
  assert (JS.length P = JS.length A + JS.length M + JS.length B) as HlP
    by (unfold P; rewrite !length_app_JS; lia).
  assert (0 ≤ JS.length A ∧ 0 ≤ JS.length M ∧ 0 ≤ JS.length B)
    as (HA0 & HM0 & HB0) by (unfold JS.length; lia).
  assert (JS.length A ≤ Diff.prefixLen d) as HpA.
  { apply prefixLen_greatest; [lia..|]. intros k Hk.
    rewrite !index_chars by lia. unfold P, N. rewrite !chars_app.
    rewrite !lookup_app_l; [done|rewrite chars_length; unfold JS.length in *; lia..]. }
  assert (JS.length N - Diff.prefixLen d ≤ Diff.suffixLen d) as Hs.
  { apply suffixLen_greatest; [fold d; lia..|]. fold d. intros k Hk.
    rewrite !index_chars by lia. unfold P, N. rewrite !chars_app.
    fold P N. unfold JS.length in *.
    rewrite <- !chars_length in *.
    rewrite lookup_app_r by lia.
    rewrite lookup_app_r by lia. rewrite lookup_app_r by (rewrite ?length_app; lia).
    f_equal. lia. }
  assert (Diff.deleteLen d = JS.length M) as Hdel.
  { change (Diff.deleteLen d)
      with (JS.length P - Diff.prefixLen d - Diff.suffixLen d) in *. lia. }
  assert (Diff.insertText d = "") as Hins.
  { assert (JS.length (Diff.insertText d) = 0) as H0 by lia.
    destruct (Diff.insertText d); [done|]. unfold JS.length in H0. cbn in H0. lia. }
  split_and!; [done..|]. intros HM. unfold Y.diffOps. fold d.
  rewrite Hdel, Hins. rewrite decide_True.
  - by rewrite decide_False by (unfold JS.length; cbn; lia).
  - destruct M; [done|]. unfold JS.length. cbn. lia.
Qed.

Lemma diff_pure_deletion_witness :
  "l" ≠ ""
  ∧ Y.diffOps ("He" +:+ "l" +:+ "lo") ("He" +:+ "lo")
    = [Y.Delete
         (Diff.prefixLen (Diff.diff ("He" +:+ "l" +:+ "lo") ("He" +:+ "lo")))
         (JS.length "l")].
Proof.
  assert ("l" ≠ "") as Hne by discriminate.
  split; [exact Hne|].
  pose proof (diff_pure_deletion "He" "l" "lo") as (_ & _ & H).
  exact (H Hne).
Defined.
End diff_more.

Section binding_more.
Implicit Types (w : Y.world) (r : Y.ref) (o : Y.origin).

(** A transaction keeps the observers and touches no other [Y.Text]. *)
Lemma transact_store o r ops w (r' : Y.ref) :
  Y.store (Y.transact o r ops w) r'
  = if decide (r = r')
    then {| Y.content := Y.apply_ops ops (Y.content (Y.store w r));
            Y.observers := Y.observers (Y.store w r) |}
    else Y.store w r'.
Proof.
  assert (Y.store (Y.transact o r ops w)
          = <[r := {| Y.content := Y.apply_ops ops (Y.content (Y.store w r));
                      Y.observers := Y.observers (Y.store w r) |}]> (Y.store w))
    as ->.
  { unfold Y.transact. destruct ops as [|op ops]; [done|].
    by destruct (notify_frame r
      (Y.record {| Y.tx_origin := o; Y.tx_change := Y.TextChange r (op :: ops) |}
         (Y.with_text r
            (λ t, {| Y.content := Y.apply_ops (op :: ops) (Y.content t);
                     Y.observers := Y.observers t |}) w))) as (-> & _). }
  case_decide as Hr.
  - subst. by rewrite fn_lookup_insert.
  - by rewrite fn_lookup_insert_ne.
Qed.

Lemma notify_fold_hook (l : list Y.ref) w :
  let w' := foldl (λ w captured, Y.observer captured w) w l in
  Y.key (Y.hk w') = Y.key (Y.hk w)
  ∧ Y.originRef (Y.hk w') = Y.originRef (Y.hk w)
  ∧ Y.yText (Y.hk w') = Y.yText (Y.hk w)
  ∧ Y.mounted (Y.hk w') = Y.mounted (Y.hk w)
  ∧ Y.undoManagerRef (Y.hk w') = Y.undoManagerRef (Y.hk w)
  ∧ (l = [] → Y.value (Y.hk w') = Y.value (Y.hk w))
  ∧ (∀ r, l ≠ [] → Forall (λ c, c = r) l →
       Y.value (Y.hk w') = Y.toString r w).
Proof.
  revert w. induction l as [|c l IH] using rev_ind; intros w; cbn.
  - split_and!; try done.
  - rewrite foldl_snoc. destruct (IH w) as (Hk & Ho & Hy & Hm & Hu & _ & _).
    cbn. split_and!; try done.
    + intros H. by apply app_nil in H as [_ ?].
    + intros r _ Hall. apply Forall_app in Hall as [_ Hc].
      apply Forall_singleton in Hc as ->. unfold Y.toString.
      by destruct (notify_fold_frame l w) as (-> & _).
Qed.

(** The hook cells other than [value] after a transaction, and [value]
    when the observers of the target closed over it. *)
Lemma transact_hook o r ops w :
  let w' := Y.transact o r ops w in
  Y.key (Y.hk w') = Y.key (Y.hk w)
  ∧ Y.originRef (Y.hk w') = Y.originRef (Y.hk w)
  ∧ Y.yText (Y.hk w') = Y.yText (Y.hk w)
  ∧ Y.mounted (Y.hk w') = Y.mounted (Y.hk w)
  ∧ Y.undoManagerRef (Y.hk w') = Y.undoManagerRef (Y.hk w)
  ∧ Y.textboxes w' = Y.textboxes w
  ∧ Y.mapObservers w' = Y.mapObservers w
  ∧ (ops = [] ∨ Y.observers (Y.store w r) = [] →
       Y.value (Y.hk w') = Y.value (Y.hk w))
  ∧ (ops ≠ [] → Y.observers (Y.store w r) ≠ [] →
       Forall (λ c, c = r) (Y.observers (Y.store w r)) →
       Y.value (Y.hk w') = Y.toString r w').
Proof.
  intros w'. subst w'. unfold Y.transact. destruct ops as [|op ops].
  - cbn. split_and!; try done.
  - set (w2 := Y.record _ _).
    assert (Y.observers (Y.store w2 r) = Y.observers (Y.store w r)) as Hobs.
    { subst w2. cbn. by rewrite fn_lookup_insert. }
    unfold Y.notify. rewrite Hobs.
    destruct (notify_fold_hook (Y.observers (Y.store w r)) w2)
      as (Hk & Ho & Hy & Hm & Hu & Hnil & Hall).
    destruct (notify_fold_frame (Y.observers (Y.store w r)) w2)
      as (Hs & Ht & Hmo & Hx).
    cbn in *. split_and!; try done.
    + intros [?|Hn]; [done|]. by apply Hnil.
    + intros _ Hne Hr. rewrite (Hall r Hne Hr). unfold Y.toString.
      by rewrite Hs.
Qed.

Lemma coherent_observers w r :
  coherent w → r ∈ Y.observers (Y.store w r) →
  Y.observers (Y.store w r) ≠ []
  ∧ Forall (λ c, c = r) (Y.observers (Y.store w r)).
Proof.
  intros [Hco _] Hin. split.
  - intros Hnil. rewrite Hnil in Hin. by apply elem_of_nil in Hin.
  - apply Forall_forall. intros c Hc. by apply Hco.
Qed.

Lemma coherent_elsewhere w (b r : Y.ref) :
  coherent w → Y.mounted (Y.hk w) = Some b → r ≠ b →
  Y.observers (Y.store w r) = [].
Proof.
  intros [Hco _] Hm Hne.
  destruct (Y.observers (Y.store w r)) as [|c l] eqn:Hobs; [done|].
  destruct (Hco r c) as [_ Hm']; [rewrite Hobs; apply list_elem_of_here|].
  congruence.
Qed.

Lemma transact_keeps o r ops w (b : Y.ref) :
  coherent w → bound b w →
  coherent (Y.transact o r ops w) ∧ bound b (Y.transact o r ops w).
Proof.
  intros Hco (Hy & Hm & Hobs & Hmap & Hu).
  destruct (transact_hook o r ops w)
    as (Hk' & Ho' & Hy' & Hm' & Hu' & Ht' & Hmo' & _).
  split.
  - destruct Hco as [Hco1 Hco2]. split.
    + intros r' c. rewrite transact_store, Hm'.
      case_decide as Hr; [subst; cbn|]; apply Hco1.
    + intros k c. rewrite Hmo', Hk', Hm'. apply Hco2.
  - unfold bound. rewrite Hy', Hm', Hu', Hmo', Hk', Ho'. split_and!; try done.
    rewrite transact_store. case_decide as Hr; [subst; cbn|]; done.
Qed.

(** X20. While the hook is bound to a sequence, every change of that
    sequence, by whatever origin, reaches the exposed value, and the hook
    stays bound; a change of any other sequence leaves the exposed value
    as it is. *)
Theorem hook_follows_changes o r (ops : list Y.op) w (b : Y.ref) :
  coherent w → bound b w →
  let w' := Y.transact o r ops w in
  bound b w' ∧ coherent w'
  ∧ (r = b → ops ≠ [] → Y.value (Y.hk w') = Y.toString b w')
  ∧ (r ≠ b → Y.value (Y.hk w') = Y.value (Y.hk w)
             ∧ Y.toString b w' = Y.toString b w).
Proof.
  intros Hco Hb w'.
  destruct (transact_keeps o r ops w b Hco Hb) as [Hco' Hb'].
  destruct (transact_hook o r ops w)
    as (_ & _ & Hy' & _ & _ & _ & _ & Hsame & Hval).
  split_and!; [done..| |].
  - intros -> Hops. destruct Hb as (_ & _ & Hobs & _).
    destruct (coherent_observers w b Hco Hobs) as [Hne Hall].
    by apply Hval.
  - intros Hne. destruct Hb as (_ & Hm & _). split.
    + apply Hsame. right. by apply (coherent_elsewhere w b r).
    + unfold Y.toString. subst w'. by rewrite transact_store, decide_False.
Qed.

(** [setValue] on a bound hook in step with its sequence. *)
Lemma setValue_bound_sync (next : string) w (b : Y.ref) :
  coherent w → bound b w → inSync w →
  let w' := Y.setValue (Y.originRef (Y.hk w)) b next w in
  Y.toString b w' = next
  ∧ Y.value (Y.hk w') = next
  ∧ bound b w' ∧ coherent w' ∧ inSync w'
  ∧ Y.textboxes w' = Y.textboxes w
  ∧ (∀ r, r ≠ b → Y.store w' r = Y.store w r).
Proof.
  intros Hco Hb Hsync w'.
  assert (Y.toString b w' = next) as Htext by apply setValue_toString.
  pose proof Hb as (Hy & _). unfold inSync in Hsync. rewrite Hy in Hsync.
  subst w'. unfold Y.setValue in *.
  destruct (decide (Y.toString b w = next)) as [Heq|Hne].
  - split_and!; try done; [congruence|]. unfold inSync. by rewrite Hy.
  - set (ops := Y.diffOps (Y.toString b w) next) in *.
    assert (ops ≠ []) as Hops.
    { intros Hnil. apply Hne.
      by rewrite <- (diffOps_apply (Y.toString b w) next); fold ops; rewrite Hnil. }
    destruct (transact_keeps (Y.originRef (Y.hk w)) b ops w b Hco Hb)
      as [Hco' Hb'].
    destruct (transact_hook (Y.originRef (Y.hk w)) b ops w)
      as (_ & _ & Hy' & _ & _ & Ht' & _ & _ & Hval).
    destruct Hb as (_ & _ & Hobs & _).
    destruct (coherent_observers w b Hco Hobs) as [Hn Hall].
    specialize (Hval Hops Hn Hall).
    split_and!; try done.
    + congruence.
    + unfold inSync. rewrite Hy', Hy. done.
    + intros r Hr. by rewrite transact_store, decide_False.
Qed.

(** X21. A local edit is shown at once: on a bound hook whose exposed value
    is in step with its sequence, [setValue(next)] leaves both the sequence
    and the exposed value equal to [next], touches no other sequence and no
    map entry, and keeps the hook bound and in step. *)
Theorem setValue_local_echo (next : string) w (b : Y.ref) :
  coherent w → bound b w → inSync w →
  let w' := Y.setValue (Y.originRef (Y.hk w)) b next w in
  Y.toString b w' = next
  ∧ Y.value (Y.hk w') = next
  ∧ bound b w' ∧ coherent w' ∧ inSync w'
  ∧ Y.textboxes w' = Y.textboxes w
  ∧ (∀ r, r ≠ b → Y.store w' r = Y.store w r).
Proof. apply setValue_bound_sync. Qed.

Lemma filter_all_out {A} (P : A → Prop) `{!∀ a, Decision (P a)} (l : list A) :
  (∀ a, a ∈ l → ¬ P a) → filter P l = [].
Proof. intros Hall. apply filter_none, Forall_forall. exact Hall. Qed.

(** The components of the document after a cleanup. *)
Lemma cleanupEffects_clean w (old : Y.ref) :
  coherent w → Y.mounted (Y.hk w) = Some old →
  let w' := Y.cleanupEffects old w in
  (∀ r, Y.observers (Y.store w' r) = [])
  ∧ (∀ r, Y.content (Y.store w' r) = Y.content (Y.store w r))
  ∧ Y.mapObservers w' = []
  ∧ Y.textboxes w' = Y.textboxes w
  ∧ Y.transactions w' = Y.transactions w
  ∧ Y.hk w'
    = {| Y.key := Y.key (Y.hk w); Y.originRef := Y.originRef (Y.hk w);
         Y.yText := Y.yText (Y.hk w); Y.value := Y.value (Y.hk w);
         Y.mounted := None; Y.undoManagerRef := None |}.
Proof.
  intros [Hco1 Hco2] Hm w'. subst w'. unfold Y.cleanupEffects. cbn.
  split_and!; try done.
  - intros r. destruct (decide (old = r)) as [<-|Hne].
    + rewrite fn_lookup_insert. cbn. apply filter_all_out.
      intros c Hc. destruct (Hco1 old c Hc) as [-> _]. tauto.
    + rewrite fn_lookup_insert_ne by done.
      apply (coherent_elsewhere w old r); [done|done|congruence].
  - intros r. destruct (decide (old = r)) as [<-|Hne].
    + by rewrite fn_lookup_insert.
    + by rewrite fn_lookup_insert_ne.
  - apply filter_all_out. intros [k c] Hin.
    destruct (Hco2 k c Hin) as [-> Hm']. rewrite Hm in Hm'.
    injection Hm' as ->. tauto.
Qed.

(** X22. Teardown leaves no handler behind: after the component of a bound
    hook goes away no text observer and no map observer is attached, the
    undo manager is gone, and neither a later change of any sequence nor a
    later replacement of any map entry changes the hook's cells. *)
Theorem unmount_detaches w (old : Y.ref) :
  coherent w → bound old w →
  let w' := Y.unmount w in
  (∀ r, Y.observers (Y.store w' r) = [])
  ∧ Y.mapObservers w' = []
  ∧ Y.undoManagerRef (Y.hk w') = None
  ∧ Y.mounted (Y.hk w') = None
  ∧ (∀ r, Y.toString r w' = Y.toString r w)
  ∧ (∀ o r ops, Y.hk (Y.transact o r ops w') = Y.hk w')
  ∧ (∀ o k v, Y.hk (Y.mapSet o k v w') = Y.hk w').
Proof.
  intros Hco (Hy & Hm & _) w'. subst w'. unfold Y.unmount. rewrite Hm.
  destruct (cleanupEffects_clean w old Hco Hm)
    as (Hobs & Hcont & Hmap & Ht & Hx & Hhk).
  split_and!.
  - done.
  - done.
  - by rewrite Hhk.
  - by rewrite Hhk.
  - intros r. unfold Y.toString. by rewrite Hcont.
  - intros o r ops. unfold Y.transact. destruct ops as [|op ops]; [done|].
    unfold Y.notify. cbn [Y.record Y.with_text Y.store].
    rewrite fn_lookup_insert. cbn [Y.observers]. by rewrite Hobs.
  - intros o k v. unfold Y.mapSet. cbn [Y.mapObservers]. by rewrite Hmap.
Qed.

(** What the initializers leave in the document. *)
Lemma useYText_init_facts (k : string) o (created : Y.ref) w :
  let v := Y.useYText_init k o created w in
  Y.textboxes v !! k = Some (Y.yText (Y.hk v))
  ∧ Y.value (Y.hk v) = Y.toString (Y.yText (Y.hk v)) v
  ∧ (∀ r, Y.observers (Y.store v r) = []
          ∨ Y.observers (Y.store v r) = Y.observers (Y.store w r))
  ∧ Y.mapObservers v = Y.mapObservers w.
Proof.
  intros v. subst v. unfold Y.useYText_init.
  destruct (Y.textboxes w !! k) as [r|] eqn:Hk.
  - cbn. rewrite Hk. cbn. split_and!; try done. intros r'. by right.
  - set (w0 := Y.with_text created
                 (λ _, {| Y.content := ""; Y.observers := [] |}) w).
    destruct (mapSet_spec o k created w0) as (Hs1 & Ht1 & Hm1 & _).
    cbn -[Y.mapSet]. rewrite Ht1, lookup_insert_eq. cbn -[Y.mapSet].
    split_and!; try done.
    intros r'. rewrite Hs1. subst w0. cbn.
    destruct (decide (created = r')) as [<-|Hne].
    + left. by rewrite fn_lookup_insert.
    + right. by rewrite fn_lookup_insert_ne.
Qed.

(** X23. Creation policy of [useYText]: the hook always starts on the
    sequence that the shared map holds under its key, with its text as
    exposed value.  An existing entry is taken as it is: nothing is created,
    replaced or recorded.  Only when there is none, one empty sequence is
    created and stored in one transaction tagged with the hook's origin.
    A second hook for the same key therefore shares the first one's
    sequence. *)
Theorem useYText_init_policy (k : string) o (created : Y.ref) w :
  let w' := Y.useYText_init k o created w in
  Y.textboxes w' !! k = Some (Y.yText (Y.hk w'))
  ∧ inSync w'
  ∧ Y.mounted (Y.hk w') = None
  ∧ (∀ r, Y.textboxes w !! k = Some r →
       Y.yText (Y.hk w') = r
       ∧ Y.textboxes w' = Y.textboxes w
       ∧ Y.transactions w' = Y.transactions w
       ∧ Y.store w' = Y.store w)
  ∧ (Y.textboxes w !! k = None →
       Y.yText (Y.hk w') = created
       ∧ Y.value (Y.hk w') = ""
       ∧ Y.textboxes w' = <[k := created]> (Y.textboxes w)
       ∧ Y.transactions w'
         = Y.transactions w
             ++ [{| Y.tx_origin := o; Y.tx_change := Y.MapSet k created |}])
  ∧ (∀ o2 created2,
       let w'' := Y.useYText_init k o2 created2 w' in
       Y.yText (Y.hk w'') = Y.yText (Y.hk w')
       ∧ Y.textboxes w'' = Y.textboxes w'
       ∧ Y.transactions w'' = Y.transactions w').
Proof.
  intros w'.
  assert (∀ v (r : Y.ref) o' c', Y.textboxes v !! k = Some r →
            Y.yText (Y.hk (Y.useYText_init k o' c' v)) = r
            ∧ Y.textboxes (Y.useYText_init k o' c' v) = Y.textboxes v
            ∧ Y.transactions (Y.useYText_init k o' c' v) = Y.transactions v
            ∧ Y.store (Y.useYText_init k o' c' v) = Y.store v
            ∧ Y.value (Y.hk (Y.useYText_init k o' c' v)) = Y.toString r v)
    as Hsome.
  { intros v r o' c' Hr. unfold Y.useYText_init. rewrite Hr. cbn.
    by rewrite Hr. }
  destruct (useYText_init_facts k o created w) as (Hentry & Hsync & _).
  fold w' in Hentry, Hsync.
  assert (Y.mounted (Y.hk w') = None) as Hmounted by done.
  assert (∀ o2 created2,
            let w'' := Y.useYText_init k o2 created2 w' in
            Y.yText (Y.hk w'') = Y.yText (Y.hk w')
            ∧ Y.textboxes w'' = Y.textboxes w'
            ∧ Y.transactions w'' = Y.transactions w') as Hsecond.
  { intros o2 created2 w''.
    destruct (Hsome w' _ o2 created2 Hentry) as (? & ? & ? & _). done. }
  split_and!; [done..| | |done].
  - intros r Hr. destruct (Hsome w r o created Hr) as (? & ? & ? & ? & _). done.
  - intros Hk.
    set (w0 := Y.with_text created
                 (λ _, {| Y.content := ""; Y.observers := [] |}) w).
    destruct (mapSet_spec o k created w0)
      as (Hs1 & Ht1 & Hm1 & Hx1 & _).
    assert (w' = Y.with_hook
                   (λ _, {| Y.key := k; Y.originRef := o; Y.yText := created;
                            Y.value := Y.toString created (Y.mapSet o k created w0);
                            Y.mounted := None; Y.undoManagerRef := None |})
                   (Y.mapSet o k created w0)) as Hw'.
    { subst w'. unfold Y.useYText_init. rewrite Hk. fold w0.
      cbv zeta. by rewrite Ht1, lookup_insert_eq. }
    rewrite Hw'. cbn -[Y.mapSet]. split_and!; [done| |done|done].
    unfold Y.toString. rewrite Hs1. subst w0. cbn.
    by rewrite fn_lookup_insert.
Qed.

(** Running the effects on a document without observers. *)
Lemma runEffects_on_clean (v : Y.world) :
  (∀ r, Y.observers (Y.store v r) = []) → Y.mapObservers v = [] →
  let w' := Y.runEffects v in
  bound (Y.yText (Y.hk v)) w'
  ∧ coherent w'
  ∧ (inSync v → inSync w')
  ∧ Y.yText (Y.hk w') = Y.yText (Y.hk v)
  ∧ Y.key (Y.hk w') = Y.key (Y.hk v)
  ∧ Y.originRef (Y.hk w') = Y.originRef (Y.hk v)
  ∧ Y.value (Y.hk w') = Y.value (Y.hk v)
  ∧ Y.textboxes w' = Y.textboxes v
  ∧ (∀ r, Y.toString r w' = Y.toString r v).
Proof.
  intros Hobs Hmap w'.
  assert (∀ r, Y.toString r w' = Y.toString r v) as Hstr.
  { intros r. subst w'. unfold Y.toString, Y.runEffects. cbn.
    destruct (decide (Y.yText (Y.hk v) = r)) as [<-|Hne].
    - by rewrite fn_lookup_insert.
    - by rewrite fn_lookup_insert_ne. }
  split_and!; try done.
  - subst w'. unfold bound, Y.runEffects. cbn. rewrite fn_lookup_insert. cbn.
    split_and!; try done; apply elem_of_app; right; apply list_elem_of_here.
  - subst w'. split.
    + intros r c. unfold Y.runEffects. cbn.
      destruct (decide (Y.yText (Y.hk v) = r)) as [<-|Hne].
      * rewrite fn_lookup_insert. cbn. rewrite Hobs. cbn.
        rewrite list_elem_of_singleton. by intros ->.
      * rewrite fn_lookup_insert_ne by done. rewrite Hobs.
        intros Hc. by apply elem_of_nil in Hc.
    + intros k' c. unfold Y.runEffects. cbn. rewrite Hmap. cbn.
      rewrite list_elem_of_singleton. by intros [= -> ->].
  - unfold inSync. intros Hsync. rewrite Hstr. exact Hsync.
Qed.

(** X24. Mounting a hook on a document that no hook observes: after the
    initializers and the first commit of the effects the hook is bound to
    the sequence the map holds under its key, its exposed value is the text
    of that sequence, and the only observers in the document are its
    own. *)
Theorem mount_establishes (k : string) o (created : Y.ref) w :
  (∀ r, Y.observers (Y.store w r) = []) → Y.mapObservers w = [] →
  let w' := Y.commitEffects (Y.useYText_init k o created w) in
  bound (Y.yText (Y.hk w')) w'
  ∧ inSync w' ∧ coherent w'
  ∧ Y.textboxes w' !! k = Some (Y.yText (Y.hk w'))
  ∧ Y.key (Y.hk w') = k ∧ Y.originRef (Y.hk w') = o.
Proof.
  intros Hobs Hmap w'.
  set (v := Y.useYText_init k o created w) in *.
  assert (Y.mounted (Y.hk v) = None ∧ Y.key (Y.hk v) = k
          ∧ Y.originRef (Y.hk v) = o) as (Hm & Hkey & Horig) by done.
  assert ((∀ r, Y.observers (Y.store v r) = []) ∧ Y.mapObservers v = []
          ∧ Y.textboxes v !! k = Some (Y.yText (Y.hk v))
          ∧ Y.value (Y.hk v) = Y.toString (Y.yText (Y.hk v)) v)
    as (Hobs' & Hmap' & Hentry & Hsync).
  { destruct (useYText_init_facts k o created w) as (He & Hs & Hst & Hmo).
    fold v in He, Hs, Hst, Hmo. split_and!; [|by rewrite Hmo|done|done].
    intros r. destruct (Hst r) as [->| ->]; [done|apply Hobs]. }
  clearbody v.
  assert (w' = Y.runEffects v) as ->
    by (subst w'; unfold Y.commitEffects; by rewrite Hm).
  destruct (runEffects_on_clean v Hobs' Hmap')
    as (Hb & Hco & Hsy & Hy & Hk' & Ho' & _ & Ht & _).
  rewrite Hy, Hk', Ho', Ht. split_and!; try done. by apply Hsy.
Qed.

(** X25. After a rebind the old sequence is out of the picture: when the map
    entry of a bound hook is replaced and the effects are committed, the
    only observers left are those on the new sequence, the exposed value is
    the text of the new sequence, the undo manager is a new one on the new
    sequence, and a later change of the old sequence no longer reaches the
    hook. *)
Theorem rebind_detaches_old w o (old new : Y.ref) :
  coherent w → bound old w → new ≠ old →
  let w2 := Y.commitEffects (Y.mapSet o (Y.key (Y.hk w)) new w) in
  coherent w2 ∧ bound new w2 ∧ inSync w2
  ∧ Y.observers (Y.store w2 old) = []
  ∧ Y.undoManagerRef (Y.hk w2)
    = Some {| Y.scope := new;
              Y.trackedOrigins := {[ Y.originRef (Y.hk w) ]} |}
  ∧ (∀ o' ops, Y.hk (Y.transact o' old ops w2) = Y.hk w2).
Proof.
  intros Hco Hb Hne w2. pose proof Hb as (Hy & Hm & _ & Hmo & _).
  set (k := Y.key (Y.hk w)) in *.
  pose proof (mapSet_spec o k new w)
    as (Hs1 & Ht1 & Hm1 & Hx1 & Hk1 & Ho1 & Hmt1 & Hshows).
  set (w1 := Y.mapSet o k new w) in *.
  destruct Hshows as [Hy1 Hv1]; [exists old; by auto|].
  clearbody w1.
  assert (coherent w1) as Hco1.
  { destruct Hco as [Hc1 Hc2]. split.
    - intros r c. rewrite Hs1, Hmt1. apply Hc1.
    - intros k' c. rewrite Hm1, Hk1, Hmt1. apply Hc2. }
  assert (w2 = Y.runEffects (Y.cleanupEffects old w1)) as Hw2.
  { subst w2. unfold Y.commitEffects. rewrite Hmt1, Hm.
    rewrite decide_False; [done|]. rewrite Hy1. congruence. }
  destruct (cleanupEffects_clean w1 old Hco1 (eq_trans Hmt1 Hm))
    as (Hobs & Hcont & Hmap & Htb & Htx & Hhk).
  set (v := Y.cleanupEffects old w1) in *. clearbody v.
  destruct (runEffects_on_clean v Hobs Hmap)
    as (Hb2 & Hco2 & Hsy2 & Hy2 & Hk2 & Ho2 & Hv2 & Ht2 & Hstr2).
  rewrite <- Hw2 in Hb2, Hco2, Hsy2, Hy2, Hk2, Ho2, Hv2, Ht2, Hstr2.
  assert (Y.yText (Y.hk v) = new) as Hyv by (by rewrite Hhk).
  rewrite Hyv in Hb2.
  assert (Y.observers (Y.store w2 old) = []) as Hold
    by (apply (coherent_elsewhere w2 new old); [done|apply Hb2|congruence]).
  split_and!; [done|done| |done| |].
  - apply Hsy2. unfold inSync. rewrite Hyv, Hhk. cbn.
    unfold Y.toString in *. by rewrite Hcont.
  - destruct Hb2 as (_ & _ & _ & _ & ->). by rewrite Ho2, Hhk, Ho1.
  - intros o' ops. unfold Y.transact. destruct ops as [|op ops]; [done|].
    unfold Y.notify. cbn [Y.record Y.with_text Y.store].
    rewrite fn_lookup_insert. cbn [Y.observers]. by rewrite Hold.
Qed.
(** The sample hook after its first commit is bound to its sequence, the
    observers are its own, and its value is the text of the sequence. *)
Lemma world1_ready :
  coherent Sample.world1 ∧ bound 1%nat Sample.world1 ∧ inSync Sample.world1.
Proof.
  assert (∀ r, Y.observers (Y.store Sample.world0 r) = []) as Hobs.
  { intros r. unfold Sample.world0. cbn.
    destruct (decide (1%nat = r)) as [<-|H1]; [by rewrite fn_lookup_insert|].
    rewrite fn_lookup_insert_ne by done.
    destruct (decide (2%nat = r)) as [<-|H2]; [by rewrite fn_lookup_insert|].
    by rewrite fn_lookup_insert_ne. }
  destruct (runEffects_on_clean Sample.world0 Hobs eq_refl)
    as (Hb & Hco & Hs & _).
  split; [exact Hco|]. split; [exact Hb|]. apply Hs. reflexivity.
Defined.

Lemma hook_follows_changes_witness :
  coherent Sample.world1 ∧ bound 1%nat Sample.world1
  ∧ [Y.Insert 5 "!"] ≠ []
  ∧ Y.value (Y.hk (Y.transact 9%nat 1%nat [Y.Insert 5 "!"] Sample.world1))
    = Y.toString 1%nat
        (Y.transact 9%nat 1%nat [Y.Insert 5 "!"] Sample.world1).
Proof.
  destruct world1_ready as (Hco & Hb & _).
  assert ([Y.Insert 5 "!"] ≠ []) as Hops by discriminate.
  split; [exact Hco|]. split; [exact Hb|]. split; [exact Hops|].
  pose proof (hook_follows_changes 9%nat 1%nat [Y.Insert 5 "!"] Sample.world1
                1%nat Hco Hb) as (_ & _ & H & _).
  exact (H eq_refl Hops).
Defined.

Lemma setValue_local_echo_witness :
  coherent Sample.world1 ∧ bound 1%nat Sample.world1 ∧ inSync Sample.world1
  ∧ Y.value
      (Y.hk (Y.setValue (Y.originRef (Y.hk Sample.world1)) 1%nat "Hello!"
               Sample.world1))
    = "Hello!".
Proof.
  destruct world1_ready as (Hco & Hb & Hs).
  split; [exact Hco|]. split; [exact Hb|]. split; [exact Hs|].
  exact (proj1 (proj2
           (setValue_local_echo "Hello!" Sample.world1 1%nat Hco Hb Hs))).
Defined.

Lemma unmount_detaches_witness :
  coherent Sample.world1 ∧ bound 1%nat Sample.world1
  ∧ Y.mapObservers (Y.unmount Sample.world1) = []
  ∧ Y.undoManagerRef (Y.hk (Y.unmount Sample.world1)) = None.
Proof.
  destruct world1_ready as (Hco & Hb & _).
  split; [exact Hco|]. split; [exact Hb|].
  pose proof (unmount_detaches Sample.world1 1%nat Hco Hb)
    as (_ & H2 & H3 & _).
  split; [exact H2|exact H3].
Defined.

Lemma useYText_init_policy_witness :
  Y.textboxes Sample.world0 !! "textbox-1" = Some 1%nat
  ∧ Y.textboxes Sample.world0 !! "textbox-2" = None
  ∧ Y.yText (Y.hk (Y.useYText_init "textbox-1" 8%nat 3%nat Sample.world0))
    = 1%nat
  ∧ Y.transactions (Y.useYText_init "textbox-1" 8%nat 3%nat Sample.world0)
    = Y.transactions Sample.world0
  ∧ Y.yText (Y.hk (Y.useYText_init "textbox-2" 8%nat 3%nat Sample.world0))
    = 3%nat.
Proof.
  assert (Y.textboxes Sample.world0 !! "textbox-1" = Some 1%nat) as H1
    by reflexivity.
  assert (Y.textboxes Sample.world0 !! "textbox-2" = None) as H2
    by reflexivity.
  split; [exact H1|]. split; [exact H2|].
  pose proof (useYText_init_policy "textbox-1" 8%nat 3%nat Sample.world0)
    as (_ & _ & _ & Hsome & _).
  pose proof (useYText_init_policy "textbox-2" 8%nat 3%nat Sample.world0)
    as (_ & _ & _ & _ & Hnone & _).
  destruct (Hsome 1%nat H1) as (Hy & _ & Htx & _).
  split; [exact Hy|]. split; [exact Htx|].
  exact (proj1 (Hnone H2)).
Defined.

Lemma mount_establishes_witness :
  (∀ r, Y.observers (Y.store Sample.world0 r) = [])
  ∧ Y.mapObservers Sample.world0 = []
  ∧ inSync
      (Y.commitEffects
         (Y.useYText_init "textbox-1" 8%nat 3%nat Sample.world0))
  ∧ Y.originRef
      (Y.hk (Y.commitEffects
               (Y.useYText_init "textbox-1" 8%nat 3%nat Sample.world0)))
    = 8%nat.
Proof.
  assert (∀ r, Y.observers (Y.store Sample.world0 r) = []) as Hobs.
  { intros r. unfold Sample.world0. cbn.
    destruct (decide (1%nat = r)) as [<-|H1]; [by rewrite fn_lookup_insert|].
    rewrite fn_lookup_insert_ne by done.
    destruct (decide (2%nat = r)) as [<-|H2]; [by rewrite fn_lookup_insert|].
    by rewrite fn_lookup_insert_ne. }
  split; [exact Hobs|]. split; [reflexivity|].
  pose proof (mount_establishes "textbox-1" 8%nat 3%nat Sample.world0
                Hobs eq_refl) as (_ & Hs & _ & _ & _ & Ho).
  split; [exact Hs|exact Ho].
Defined.

Lemma rebind_detaches_old_witness :
  coherent Sample.world1 ∧ bound 1%nat Sample.world1 ∧ 2%nat ≠ 1%nat
  ∧ bound 2%nat
      (Y.commitEffects
         (Y.mapSet 9%nat (Y.key (Y.hk Sample.world1)) 2%nat Sample.world1))
  ∧ Y.observers
      (Y.store
         (Y.commitEffects
            (Y.mapSet 9%nat (Y.key (Y.hk Sample.world1)) 2%nat Sample.world1))
         1%nat)
    = [].
Proof.
  destruct world1_ready as (Hco & Hb & _).
  assert (2%nat ≠ 1%nat) as Hne by discriminate.
  split; [exact Hco|]. split; [exact Hb|]. split; [exact Hne|].
  pose proof (rebind_detaches_old Sample.world1 9%nat 1%nat 2%nat Hco Hb Hne)
    as (_ & H2 & _ & H4 & _).
  split; [exact H2|exact H4].
Defined.

End binding_more.

(** ** The rebind, and what follows it *)

Section rebind.
Implicit Types (w : Y.world) (r : Y.ref) (o : Y.origin).






End rebind.

Section seeding.

(** A run with the ref set does nothing. *)
Lemma effect_seeded o r tb w :
  TextBoxSync.effect o r tb true w = (true, w).
Proof. done. Qed.

(** A run either leaves ref and document alone or sets the ref. *)
Lemma effect_cases o r tb seeded w :
  TextBoxSync.effect o r tb seeded w = (seeded, w)
  ∨ (seeded = false
     ∧ TextBox.text tb ≠ "" ∧ Y.value (Y.hk w) = ""
     ∧ TextBoxSync.effect o r tb seeded w
       = (true, Y.setValue o r (TextBox.text tb) w)).
Proof.
  unfold TextBoxSync.effect. destruct seeded; [by left|].
  destruct (decide (TextBox.text tb = "")) as [He|Hne].
  { left. by rewrite (bool_decide_eq_false_2 _) by (intros H; by apply H). }
  rewrite (bool_decide_eq_true_2 _ Hne).
  assert (0 < JS.length (TextBox.text tb)) as Hlen.
  { unfold JS.length. destruct (TextBox.text tb); [done|cbn; lia]. }
  rewrite (bool_decide_eq_true_2 _ Hlen). cbn [andb].
  destruct (decide (Y.value (Y.hk w) = "")) as [Hv|Hv].
  - right. rewrite (bool_decide_eq_true_2 _ Hv). done.
  - left. rewrite (bool_decide_eq_false_2 _ Hv).
    rewrite bool_decide_eq_false_2; [done|].
    unfold JS.length. destruct (Y.value (Y.hk w)); [done|cbn; lia].
Qed.

Lemma setValue_transactions o r next w :
  (length (Y.transactions (Y.setValue o r next w))
   ≤ S (length (Y.transactions w)))%nat.
Proof.
  unfold Y.setValue. destruct (decide _); [lia|].
  rewrite transact_transactions, length_app. cbn. lia.
Qed.

(** X26. Seeding happens at most once per mounted hook: over any sequence of
    runs of the effect, with whatever text boxes the renders pass, at most
    one transaction is added to the document; once the ref is set nothing
    is written any more, and as long as it is not set nothing has been
    written. *)
Theorem seeding_at_most_once o r (renders : list TextBox.t) seeded w :
  let res :=
    foldl (λ sw tb, TextBoxSync.effect o r tb sw.1 sw.2) (seeded, w) renders in
  (length (Y.transactions res.2) ≤ S (length (Y.transactions w)))%nat
  ∧ (seeded = true → res = (true, w))
  ∧ (res.1 = false → res = (false, w)).
Proof.
  cbn zeta. revert seeded w.
  assert (∀ w, foldl (λ sw tb, TextBoxSync.effect o r tb sw.1 sw.2)
                 (true, w) renders = (true, w)) as Hset.
  { induction renders as [|tb rest IH]; intros w; [done|]. cbn. apply IH. }
  induction renders as [|tb rest IH]; intros seeded w.
  { cbn. split_and!; [lia|by intros ->|by intros <-]. }
  cbn [foldl fst snd].
  destruct (effect_cases o r tb seeded w) as [->|(-> & _ & _ & ->)].
  - assert (∀ w, foldl (λ sw tb, TextBoxSync.effect o r tb sw.1 sw.2)
                   (true, w) rest = (true, w)) as Hset'.
    { intros w0. specialize (Hset w0). cbn in Hset. exact Hset. }
    destruct (IH Hset' seeded w) as (H1 & H2 & H3). done.
  - assert (∀ w, foldl (λ sw tb, TextBoxSync.effect o r tb sw.1 sw.2)
                   (true, w) rest = (true, w)) as Hset'.
    { intros w0. specialize (Hset w0). cbn in Hset. exact Hset. }
    rewrite Hset'. cbn. split_and!; [apply setValue_transactions|done..].
Qed.

Lemma seeding_at_most_once_witness :
  true = true
  ∧ foldl (λ sw tb, TextBoxSync.effect 7%nat 1%nat tb sw.1 sw.2)
      (true, Sample.world1) [Sample.boxHi; Sample.box "t1"]
    = (true, Sample.world1).
Proof.
  split; [reflexivity|].
  pose proof (seeding_at_most_once 7%nat 1%nat [Sample.boxHi; Sample.box "t1"]
                true Sample.world1) as (_ & H & _).
  exact (H eq_refl).
Defined.

(** X27. The first clearing of a text is undone by the seeding.  A hook in
    step with a non-empty sequence, for a text box whose stored text is not
    empty, has not seeded after its first run; when the user then empties
    the text, the next run of the effect writes the stored text back, and
    only a second emptying stays. *)
Theorem seeding_undoes_first_clear (tb : TextBox.t) w (b : Y.ref) :
  coherent w → bound b w → inSync w →
  TextBox.text tb ≠ "" → Y.toString b w ≠ "" →
  let o := Y.originRef (Y.hk w) in
  let run1 := TextBoxSync.effect o b tb false w in
  let cleared := Y.setValue o b "" run1.2 in
  let run2 := TextBoxSync.effect o b tb run1.1 cleared in
  let cleared2 := Y.setValue o b "" run2.2 in
  let run3 := TextBoxSync.effect o b tb run2.1 cleared2 in
  run1 = (false, w)
  ∧ Y.toString b cleared = ""
  ∧ run2.1 = true
  ∧ Y.toString b run2.2 = TextBox.text tb
  ∧ Y.value (Y.hk run2.2) = TextBox.text tb
  ∧ run3 = (true, cleared2)
  ∧ Y.toString b cleared2 = ""
  ∧ Y.value (Y.hk cleared2) = "".
Proof.
  intros Hco Hb Hsync Htb Hne o run1 cleared run2 cleared2 run3.
  assert (Y.value (Y.hk w) ≠ "") as Hval.
  { destruct Hb as (Hy & _). unfold inSync in Hsync. congruence. }
  assert (run1 = (false, w)) as H1.
  { subst run1. destruct (effect_cases o b tb false w)
      as [->|(_ & _ & Hv & _)]; [done|by destruct Hval]. }
  subst cleared run2 cleared2 run3. clearbody run1. subst run1.
  cbn [fst snd].
  destruct (setValue_bound_sync "" w b Hco Hb Hsync)
    as (Ht1 & Hv1 & Hb1 & Hco1 & Hs1 & _).
  fold o in Ht1, Hv1, Hb1, Hco1, Hs1.
  set (w1 := Y.setValue o b "" w) in *.
  assert (Y.originRef (Y.hk w1) = o) as Ho1.
  { destruct Hb as (_ & _ & _ & _ & Hu), Hb1 as (_ & _ & _ & _ & Hu1).
    subst o. unfold w1, Y.setValue. destruct (decide _); [done|].
    by destruct (transact_hook (Y.originRef (Y.hk w)) b
                   (Y.diffOps (Y.toString b w) "") w) as (_ & -> & _). }
  destruct (effect_cases o b tb false w1) as [He|(_ & _ & _ & He)].
  { exfalso. revert He. unfold TextBoxSync.effect.
    rewrite Hv1. rewrite (bool_decide_eq_true_2 _ Htb).
    rewrite bool_decide_eq_true_2.
    2:{ unfold JS.length. destruct (TextBox.text tb); [done|cbn; lia]. }
    cbn. done. }
  rewrite He. cbn [fst snd].
  pose proof (setValue_bound_sync (TextBox.text tb) w1 b Hco1 Hb1 Hs1)
    as (Ht2 & Hv2 & Hb2 & Hco2 & Hs2 & _).
  rewrite Ho1 in Ht2, Hv2, Hb2, Hco2, Hs2.
  set (w2 := Y.setValue o b (TextBox.text tb) w1) in *.
  assert (Y.originRef (Y.hk w2) = o) as Ho2.
  { unfold w2, Y.setValue. destruct (decide _); [done|].
    by destruct (transact_hook o b
                   (Y.diffOps (Y.toString b w1) (TextBox.text tb)) w1)
      as (_ & -> & _). }
  pose proof (setValue_bound_sync "" w2 b Hco2 Hb2 Hs2)
    as (Ht3 & Hv3 & _).
  rewrite Ho2 in Ht3, Hv3.
  split_and!; done.
Qed.

Lemma seeding_undoes_first_clear_witness :
  coherent Sample.world1 ∧ bound 1%nat Sample.world1 ∧ inSync Sample.world1
  ∧ TextBox.text Sample.boxHi ≠ ""
  ∧ Y.toString 1%nat Sample.world1 ≠ ""
  ∧ Y.toString 1%nat
      (TextBoxSync.effect (Y.originRef (Y.hk Sample.world1)) 1%nat
         Sample.boxHi
         (TextBoxSync.effect (Y.originRef (Y.hk Sample.world1)) 1%nat
            Sample.boxHi false Sample.world1).1
         (Y.setValue (Y.originRef (Y.hk Sample.world1)) 1%nat ""
            (TextBoxSync.effect (Y.originRef (Y.hk Sample.world1)) 1%nat
               Sample.boxHi false Sample.world1).2)).2
    = "Hi".
Proof.
  destruct world1_ready as (Hco & Hb & Hs).
  assert (TextBox.text Sample.boxHi ≠ "") as Htb by discriminate.
  assert (Y.toString 1%nat Sample.world1 ≠ "") as Hne by discriminate.
  split; [exact Hco|]. split; [exact Hb|]. split; [exact Hs|].
  split; [exact Htb|]. split; [exact Hne|].
  pose proof (seeding_undoes_first_clear Sample.boxHi Sample.world1 1%nat
                Hco Hb Hs Htb Hne) as (_ & _ & _ & H & _).
  exact H.
Defined.

End seeding.

Section component.
Import TextBoxComponent.
Variable minus : Z → Z → Z.

(** In a read-only canvas no text box is in edit mode. *)
Lemma isEditing_readOnly p tb : SlideCanvas.isEditing true p tb = false.
Proof. done. Qed.

(** X28. A text box of a read-only canvas is inert: whatever the presence of
    the user says and whatever events arrive, a component that is not
    dragging makes no call on its callbacks, so it neither updates the
    storage nor enters edit mode, and it never starts to drag. *)
Theorem readOnly_textBox_inert (p : Presence.t) (tb : TextBox.t)
    (events : list event) (st : state) :
  isDragging st = false →
  run minus (mkProps tb (SlideCanvas.isEditing true p tb) true) events st
  = (st, []).
Proof.
  rewrite isEditing_readOnly. intros Hd.
  induction events as [|e rest IH]; [done|].
  cbn [run].
  assert (step minus (mkProps tb false true) e st = (st, [])) as ->.
  { destruct e; cbn; rewrite ?Hd; done. }
  by rewrite IH.
Qed.

Lemma run_app pr (es1 es2 : list event) st :
  run minus pr (es1 ++ es2) st
  = let '(st1, c1) := run minus pr es1 st in
    let '(st2, c2) := run minus pr es2 st1 in
    (st2, c1 ++ c2).
Proof.
  revert st. induction es1 as [|e es1 IH]; intros st; cbn [run app].
  - by destruct (run minus pr es2 st).
  - destruct (step minus pr e st) as [st1 c1]. rewrite IH.
    destruct (run minus pr es1 st1) as [st2 c2].
    destruct (run minus pr es2 st2) as [st3 c3].
    by rewrite app_assoc.
Qed.

Lemma run_moves_dragging pr (moves : list (Z * Z)) st :
  isDragging st = true →
  run minus pr ((λ m, MouseMove m.1 m.2) <$> moves) st
  = (st, (λ m, OnUpdate (TextBox.id (textBox pr))
                 (positionPatch (minus m.1 (dragOffset st).1)
                                (minus m.2 (dragOffset st).2))) <$> moves).
Proof.
  intros Hd. induction moves as [|m rest IH]; [done|].
  cbn [fmap list_fmap run step]. rewrite Hd.
  change (list_fmap _ _ ?f rest) with (f <$> rest).
  rewrite IH. unfold handleMouseMove. rewrite Hd. done.
Qed.

Lemma run_moves_idle pr (moves : list (Z * Z)) st :
  isDragging st = false →
  run minus pr ((λ m, MouseMove m.1 m.2) <$> moves) st = (st, []).
Proof.
  intros Hd. induction moves as [|m rest IH]; [done|].
  cbn [fmap list_fmap run step]. rewrite Hd.
  change (list_fmap _ _ ?f rest) with (f <$> rest).
  by rewrite IH.
Qed.

(** X29. One drag.  On an editable text box, a mouse down that is not on
    the text area being edited, at [(downX, downY)], followed by mouse
    moves, a mouse up and further moves, issues one position update of this
    text box per move before the mouse up and none after it; each update
    sets [x] and [y] only, to the position of the move less the offset
    taken at the mouse down. *)
Theorem drag_updates_position (pr : props) (downX downY : Z)
    (onTextarea : bool) (moves later : list (Z * Z)) (st : state) :
  readOnly pr = false →
  isEditing pr && onTextarea = false →
  let offX := minus downX (TextBox.x (textBox pr)) in
  let offY := minus downY (TextBox.y (textBox pr)) in
  run minus pr
    (MouseDown downX downY onTextarea
     :: ((λ m, MouseMove m.1 m.2) <$> moves)
     ++ MouseUp :: ((λ m, MouseMove m.1 m.2) <$> later)) st
  = ({| isDragging := false; dragOffset := (offX, offY) |},
     (λ m, OnUpdate (TextBox.id (textBox pr))
             (positionPatch (minus m.1 offX) (minus m.2 offY))) <$> moves).
Proof.
  intros Hro Hed offX offY.
  cbn [run step]. unfold handleMouseDown. rewrite Hro, Hed.
  rewrite run_app, run_moves_dragging by done.
  cbn [run step isDragging dragOffset fst snd].
  rewrite run_moves_idle by done.
  by rewrite !app_nil_r.
Qed.

End component.

Lemma readOnly_textBox_inert_witness :
  TextBoxComponent.isDragging Sample.idle = false
  ∧ TextBoxComponent.run Z.sub
      (TextBoxComponent.mkProps (Sample.box "t1")
         (SlideCanvas.isEditing true
            {| Presence.currentSlideId := Some "a";
               Presence.editingTextBoxId := Some "t1";
               Presence.cursor := None;
               Presence.userName := "Bob";
               Presence.userColor := "#ff0000" |}
            (Sample.box "t1"))
         true)
      [TextBoxComponent.DoubleClick;
       TextBoxComponent.MouseDown 130 150 false;
       TextBoxComponent.MouseMove 200 210;
       TextBoxComponent.Blur "x"]
      Sample.idle
    = (Sample.idle, []).
Proof.
  split; [reflexivity|].
  exact (readOnly_textBox_inert Z.sub _ (Sample.box "t1") _ Sample.idle
           eq_refl).
Defined.

Lemma drag_updates_position_witness :
  TextBoxComponent.readOnly Sample.editable = false
  ∧ TextBoxComponent.isEditing Sample.editable && false = false
  ∧ TextBoxComponent.run Z.sub Sample.editable
      (TextBoxComponent.MouseDown 130 150 false
       :: ((λ m, TextBoxComponent.MouseMove m.1 m.2) <$> [(200, 210)])
       ++ TextBoxComponent.MouseUp
          :: ((λ m, TextBoxComponent.MouseMove m.1 m.2) <$> [(300, 310)]))
      Sample.idle
    = ({| TextBoxComponent.isDragging := false;
          TextBoxComponent.dragOffset := (10, 10) |},
       [TextBoxComponent.OnUpdate "t1"
          (TextBoxComponent.positionPatch 190 200)]).
Proof.
  split; [reflexivity|]. split; [reflexivity|].
  exact (drag_updates_position Z.sub Sample.editable 130 150 false
           [(200, 210)] [(300, 310)] Sample.idle eq_refl eq_refl).
Defined.

Section colour.
Import UserUtils.

Lemma toInt32_range n : - 2 ^ 31 ≤ toInt32 n < 2 ^ 31.
Proof.
  unfold toInt32.
  pose proof (Z.mod_pos_bound (n + 2 ^ 31) (2 ^ 32) ltac:(lia)). lia.
Qed.

Lemma charCode_range c : 0 ≤ charCode c < 256.
Proof.
  unfold charCode. pose proof (N_ascii_bounded c). lia.
Qed.

Lemma hashStep_bound h c : Z.abs (hashStep h c) ≤ Z.abs h + (2 ^ 31 + 255).
Proof.
  unfold hashStep, shl.
  pose proof (toInt32_range (Z.shiftl (toInt32 h) 5)).
  pose proof (charCode_range c). lia.
Qed.

Lemma hash_fold_bound (l : list ascii) h :
  Z.abs (foldl hashStep h l)
  ≤ Z.abs h + Z.of_nat (length l) * (2 ^ 31 + 255).
Proof.
  revert h. induction l as [|c l IH]; intros h; cbn [foldl length].
  - lia.
  - specialize (IH (hashStep h c)). pose proof (hashStep_bound h c). lia.
Qed.

(** X30. Every user gets a colour of the palette: the index computed from
    the hash is in range for every id, so the lookup never gives
    [undefined]; and for ids of up to [2^21] code units the hash stays
    below [2^53] in absolute value, so the arithmetic on it is exact. *)
Theorem getUserColor_in_palette (userId : string) :
  (∃ colour, getUserColor userId = Some colour ∧ colour ∈ USER_COLORS)
  ∧ (Z.of_nat (String.length userId) ≤ 2 ^ 21
     → Z.abs (hashOf userId) < 2 ^ 53).
Proof.
  split.
  - unfold getUserColor. cbn zeta.
    set (index := Z.rem _ _).
    assert (0 ≤ index < 12) as Hi.
    { subst index. change (Z.of_nat (length USER_COLORS)) with 12.
      rewrite Z.rem_mod_nonneg by lia.
      apply Z.mod_pos_bound. lia. }
    destruct (USER_COLORS !! Z.to_nat index) as [colour|] eqn:Hl.
    + exists colour. split; [done|]. by eapply list_elem_of_lookup_2.
    + apply lookup_ge_None in Hl. cbn in Hl. lia.
  - intros Hlen. unfold hashOf.
    pose proof (hash_fold_bound (String.list_ascii_of_string userId) 0) as Hb.
    assert (length (String.list_ascii_of_string userId)
            = String.length userId) as Hl.
    { clear. induction userId as [|c s IH]; cbn; [done|by rewrite IH]. }
    rewrite Hl in Hb. lia.
Qed.

Lemma getUserColor_in_palette_witness :
  Z.of_nat (String.length "user-1") ≤ 2 ^ 21
  ∧ Z.abs (UserUtils.hashOf "user-1") < 2 ^ 53.
Proof.
  assert (Z.of_nat (String.length "user-1") ≤ 2 ^ 21) as Hlen
    by (vm_compute; discriminate).
  split; [exact Hlen|].
  exact (proj2 (getUserColor_in_palette "user-1") Hlen).
Defined.

End colour.
